(** * Capture readiness engine of the data-input screen

    A shallow embedding of the camera auto-capture logic of
    [frontend/screens/LoginScreen.js] (component [DataInputScreen]) and of
    [validateFiducials] from the API client, together with the properties
    the specification states about them.

    JavaScript numbers are IEEE 754 binary64 values: they are modelled by
    Rocq's primitive floats, whose operations are specified by
    [FloatAxioms] against the [SpecFloat] reference implementation.
    Timestamps ([Date.now()]) and millisecond durations are integers and
    are modelled in [Z]. *)

From Stdlib Require Import ZArith Bool List Lia Floats String.
Import ListNotations.

Set Warnings "-inexact-float".

Local Open Scope float_scope.

(** ** JavaScript numeric primitives *)

Module JS.

(** [Math.max(a, b)] on two numbers: NaN as soon as one argument is
    NaN, and [+0] is larger than [-0]. *)
Definition Math_max (a b : float) : float :=
  if is_nan a || is_nan b then nan
  else if a <? b then b
  else if b <? a then a
  else if get_sign a then b else a.

(** [Math.min(a, b)]: NaN as soon as one argument is NaN, and [-0] is
    smaller than [+0]. *)
Definition Math_min (a b : float) : float :=
  if is_nan a || is_nan b then nan
  else if a <? b then a
  else if b <? a then b
  else if get_sign a then a else b.

Definition Math_abs (a : float) : float := abs a.
Definition Math_sqrt (a : float) : float := sqrt a.

(** [Number.isFinite(v)] for a number [v]. *)
Definition Number_isFinite (v : float) : bool := is_finite v.

(** Truthiness of a number: [0], [-0] and NaN are falsy. *)
Definition truthy (v : float) : bool := negb (is_zero v || is_nan v).

(** [a >= b] on numbers (false when one side is NaN). *)
Definition geb (a b : float) : bool := b <=? a.

(** A property read from an object: [None] is [undefined]. *)
Definition prop := option float.

(** Destructuring default, [{ x = 0 }]: only [undefined] takes the
    default. *)
Definition default0 (p : prop) : float :=
  match p with Some v => v | None => 0 end.

(** [p || 0]: every falsy value (undefined, [0], [-0], NaN) gives [0]. *)
Definition or0 (p : prop) : float :=
  match p with
  | Some v => if truthy v then v else 0
  | None => 0
  end.

End JS.

(** ** Constants of the screen *)

Definition AUTO_CAPTURE_START_THRESHOLD : float := 0.55.
Definition AUTO_CAPTURE_CANCEL_THRESHOLD : float := 0.35.
Definition AUTO_CAPTURE_START_MS : Z := 1200.
Definition MAX_ACCEL_DELTA : float := 0.35.
Definition FIDUCIAL_CHECK_INTERVAL_MS : Z := 450.
Definition MIN_FIDUCIALS_FOR_CAPTURE : float := 4.
(** Period of the countdown interval (the literal [120] of the effect). *)
Definition COUNTDOWN_TICK_MS : Z := 120.

(** ** Motion samples and the alignment score *)

(** The object the accelerometer listener receives. *)
Module Sample.
Record t : Set := mk { x : JS.prop; y : JS.prop; z : JS.prop }.
Definition of_floats (a b c : float) : t := mk (Some a) (Some b) (Some c).
End Sample.

Definition deriveAlignmentScore (data : Sample.t) : float :=
  let x := JS.default0 (Sample.x data) in
  let y := JS.default0 (Sample.y data) in
  let z := JS.default0 (Sample.z data) in
  let magnitude := JS.Math_max 1e-3 (JS.Math_sqrt (x * x + y * y + z * z)) in
  let normX := x / magnitude in
  let normY := y / magnitude in
  let normZ := z / magnitude in
  let gravityDrift := JS.Math_min 1 (JS.Math_abs (magnitude - 1)) in
  let tiltPenalty := JS.Math_min 1 (JS.Math_abs (JS.Math_abs normZ - 1)) in
  let lateralMotion :=
    JS.Math_min 1 (JS.Math_sqrt (normX * normX + normY * normY)) in
  let score := 1 - (0.5 * tiltPenalty + 0.3 * gravityDrift + 0.2 * lateralMotion) in
  JS.Math_max 0 (JS.Math_min 1 score).

(** [previousSample] is [lastAccelSampleRef.current] ([None] is [null]);
    [currentSample] is the object the listener received, which is always
    truthy. *)
Definition computeJitterPenalty (previousSample : option Sample.t)
    (currentSample : Sample.t) : float :=
  match previousSample with
  | None => 0
  | Some previous =>
      let dx := JS.or0 (Sample.x currentSample) - JS.or0 (Sample.x previous) in
      let dy := JS.or0 (Sample.y currentSample) - JS.or0 (Sample.y previous) in
      let dz := JS.or0 (Sample.z currentSample) - JS.or0 (Sample.z previous) in
      let delta := JS.Math_sqrt (dx * dx + dy * dy + dz * dz) in
      JS.Math_min 1 (delta / MAX_ACCEL_DELTA)
  end.

(** The value the listener blends into the score. *)
Definition composite (previousSample : option Sample.t) (data : Sample.t) : float :=
  let baseScore := deriveAlignmentScore data in
  let jitterPenalty := computeJitterPenalty previousSample data * 0.45 in
  JS.Math_max 0 (JS.Math_min 1 (baseScore - jitterPenalty)).

(** The updater passed to [setAlignmentScore]. *)
Definition blend (prev comp : float) : float :=
  if JS.Number_isFinite prev then prev * 0.55 + comp * 0.45 else comp.

(** ** The screen: state, refs and the runtime around them *)

(** The messages [setAlignmentStatus] receives, one constructor per
    template ([StatusFound] carries the count shown, [StatusImprove] the
    value [fiducialQuality * 100] that the message rounds). *)
Inductive Status : Type :=
| StatusEmpty
| StatusCameraClosed
| StatusFocusing
| StatusDisabled
| StatusCapturing
| StatusLooking
| StatusFound (count : float)
| StatusImprove (percent : float)
| StatusHoldSteady
| StatusArming
| StatusCapturingSoon.

Inductive CameraError : Set :=
| NoCameraError
| ErrStillFocusing
| ErrUnableToCapture.

Definition TimerId := nat.
Definition SubId := nat.

(** An image asset; [uri = None] is a missing [uri]. *)
Record Asset : Set := { uri : option string }.

(** [!asset?.uri]: a missing or empty uri is falsy. *)
Definition has_uri (a : option Asset) : bool :=
  match a with
  | Some {| uri := Some s |} => negb (String.eqb s EmptyString)
  | _ => false
  end.

(** The closures handed to [setInterval]. Each carries what it captured
    from the render that created it: the countdown its start time and the
    [cameraReady] seen by its [handleTakePhoto]; the poll the
    [cameraReady] seen by the effect and by [checkFiducials]. *)
Inductive Callback : Set :=
| CountdownCb (started : Z) (cameraReady_c : bool)
| FiducialPollCb (cameraReady_c : bool).

Record Interval : Set :=
  { iv_id : TimerId; iv_period : Z; iv_callback : Callback }.

(** A call of [checkFiducials] past its guard, suspended at one of its
    two awaits. *)
Inductive CheckStage : Set :=
| AwaitSnapshot
| AwaitValidate (snapshot : Asset).

(** A call of [handleTakePhoto] suspended at [takePictureAsync] or at
    [handlePhotoResult]. *)
Inductive CaptureStage : Set :=
| AwaitPhoto
| AwaitPhotoResult.

Record World : Type := mkWorld {
  (* useState *)
  cameraVisible : bool;
  cameraReady : bool;
  autoCaptureEnabled : bool;
  alignmentScore : float;
  alignmentStatus : Status;
  autoCaptureCountdown : Z;
  fiducialCount : float;
  fiducialQuality : float;
  fiducialReady : bool;
  cameraError : CameraError;
  (* useRef: [cameraRef.current] is non-null exactly when this is [true] *)
  cameraRef : bool;
  accelerometerSubscriptionRef : option SubId;
  autoCaptureTimerRef : option TimerId;
  autoCaptureLockRef : bool;
  lastAccelSampleRef : option Sample.t;
  fiducialCheckIntervalRef : option TimerId;
  fiducialCheckInProgressRef : bool;
  (* the runtime: active [setInterval] registrations, active accelerometer
     listeners, whether the monitoring effect has a cleanup to run, the
     promises still pending, and the auto-capture calls of
     [handleTakePhoto(true)] (by the countdown interval that made them) *)
  intervals : list Interval;
  nextTimer : TimerId;
  listeners : list SubId;
  nextSub : SubId;
  sessionCleanup : bool;
  pendingChecks : list CheckStage;
  pendingCaptures : list CaptureStage;
  triggers : list TimerId
}.

(** Field updates. *)
Definition set_cameraVisible (v : bool) (w : World) : World :=
  mkWorld v (cameraReady w) (autoCaptureEnabled w) (alignmentScore w)
    (alignmentStatus w) (autoCaptureCountdown w) (fiducialCount w)
    (fiducialQuality w) (fiducialReady w) (cameraError w) (cameraRef w)
    (accelerometerSubscriptionRef w) (autoCaptureTimerRef w)
    (autoCaptureLockRef w) (lastAccelSampleRef w) (fiducialCheckIntervalRef
    w) (fiducialCheckInProgressRef w) (intervals w) (nextTimer w) (listeners
    w) (nextSub w) (sessionCleanup w) (pendingChecks w) (pendingCaptures w)
    (triggers w).
Definition set_cameraReady (v : bool) (w : World) : World :=
  mkWorld (cameraVisible w) v (autoCaptureEnabled w) (alignmentScore w)
    (alignmentStatus w) (autoCaptureCountdown w) (fiducialCount w)
    (fiducialQuality w) (fiducialReady w) (cameraError w) (cameraRef w)
    (accelerometerSubscriptionRef w) (autoCaptureTimerRef w)
    (autoCaptureLockRef w) (lastAccelSampleRef w) (fiducialCheckIntervalRef
    w) (fiducialCheckInProgressRef w) (intervals w) (nextTimer w) (listeners
    w) (nextSub w) (sessionCleanup w) (pendingChecks w) (pendingCaptures w)
    (triggers w).
Definition set_autoCaptureEnabled (v : bool) (w : World) : World :=
  mkWorld (cameraVisible w) (cameraReady w) v (alignmentScore w)
    (alignmentStatus w) (autoCaptureCountdown w) (fiducialCount w)
    (fiducialQuality w) (fiducialReady w) (cameraError w) (cameraRef w)
    (accelerometerSubscriptionRef w) (autoCaptureTimerRef w)
    (autoCaptureLockRef w) (lastAccelSampleRef w) (fiducialCheckIntervalRef
    w) (fiducialCheckInProgressRef w) (intervals w) (nextTimer w) (listeners
    w) (nextSub w) (sessionCleanup w) (pendingChecks w) (pendingCaptures w)
    (triggers w).
Definition set_alignmentScore (v : float) (w : World) : World :=
  mkWorld (cameraVisible w) (cameraReady w) (autoCaptureEnabled w) v
    (alignmentStatus w) (autoCaptureCountdown w) (fiducialCount w)
    (fiducialQuality w) (fiducialReady w) (cameraError w) (cameraRef w)
    (accelerometerSubscriptionRef w) (autoCaptureTimerRef w)
    (autoCaptureLockRef w) (lastAccelSampleRef w) (fiducialCheckIntervalRef
    w) (fiducialCheckInProgressRef w) (intervals w) (nextTimer w) (listeners
    w) (nextSub w) (sessionCleanup w) (pendingChecks w) (pendingCaptures w)
    (triggers w).
Definition set_alignmentStatus (v : Status) (w : World) : World :=
  mkWorld (cameraVisible w) (cameraReady w) (autoCaptureEnabled w)
    (alignmentScore w) v (autoCaptureCountdown w) (fiducialCount w)
    (fiducialQuality w) (fiducialReady w) (cameraError w) (cameraRef w)
    (accelerometerSubscriptionRef w) (autoCaptureTimerRef w)
    (autoCaptureLockRef w) (lastAccelSampleRef w) (fiducialCheckIntervalRef
    w) (fiducialCheckInProgressRef w) (intervals w) (nextTimer w) (listeners
    w) (nextSub w) (sessionCleanup w) (pendingChecks w) (pendingCaptures w)
    (triggers w).
Definition set_autoCaptureCountdown (v : Z) (w : World) : World :=
  mkWorld (cameraVisible w) (cameraReady w) (autoCaptureEnabled w)
    (alignmentScore w) (alignmentStatus w) v (fiducialCount w)
    (fiducialQuality w) (fiducialReady w) (cameraError w) (cameraRef w)
    (accelerometerSubscriptionRef w) (autoCaptureTimerRef w)
    (autoCaptureLockRef w) (lastAccelSampleRef w) (fiducialCheckIntervalRef
    w) (fiducialCheckInProgressRef w) (intervals w) (nextTimer w) (listeners
    w) (nextSub w) (sessionCleanup w) (pendingChecks w) (pendingCaptures w)
    (triggers w).
Definition set_fiducialCount (v : float) (w : World) : World :=
  mkWorld (cameraVisible w) (cameraReady w) (autoCaptureEnabled w)
    (alignmentScore w) (alignmentStatus w) (autoCaptureCountdown w) v
    (fiducialQuality w) (fiducialReady w) (cameraError w) (cameraRef w)
    (accelerometerSubscriptionRef w) (autoCaptureTimerRef w)
    (autoCaptureLockRef w) (lastAccelSampleRef w) (fiducialCheckIntervalRef
    w) (fiducialCheckInProgressRef w) (intervals w) (nextTimer w) (listeners
    w) (nextSub w) (sessionCleanup w) (pendingChecks w) (pendingCaptures w)
    (triggers w).
Definition set_fiducialQuality (v : float) (w : World) : World :=
  mkWorld (cameraVisible w) (cameraReady w) (autoCaptureEnabled w)
    (alignmentScore w) (alignmentStatus w) (autoCaptureCountdown w)
    (fiducialCount w) v (fiducialReady w) (cameraError w) (cameraRef w)
    (accelerometerSubscriptionRef w) (autoCaptureTimerRef w)
    (autoCaptureLockRef w) (lastAccelSampleRef w) (fiducialCheckIntervalRef
    w) (fiducialCheckInProgressRef w) (intervals w) (nextTimer w) (listeners
    w) (nextSub w) (sessionCleanup w) (pendingChecks w) (pendingCaptures w)
    (triggers w).
Definition set_fiducialReady (v : bool) (w : World) : World :=
  mkWorld (cameraVisible w) (cameraReady w) (autoCaptureEnabled w)
    (alignmentScore w) (alignmentStatus w) (autoCaptureCountdown w)
    (fiducialCount w) (fiducialQuality w) v (cameraError w) (cameraRef w)
    (accelerometerSubscriptionRef w) (autoCaptureTimerRef w)
    (autoCaptureLockRef w) (lastAccelSampleRef w) (fiducialCheckIntervalRef
    w) (fiducialCheckInProgressRef w) (intervals w) (nextTimer w) (listeners
    w) (nextSub w) (sessionCleanup w) (pendingChecks w) (pendingCaptures w)
    (triggers w).
Definition set_cameraError (v : CameraError) (w : World) : World :=
  mkWorld (cameraVisible w) (cameraReady w) (autoCaptureEnabled w)
    (alignmentScore w) (alignmentStatus w) (autoCaptureCountdown w)
    (fiducialCount w) (fiducialQuality w) (fiducialReady w) v (cameraRef w)
    (accelerometerSubscriptionRef w) (autoCaptureTimerRef w)
    (autoCaptureLockRef w) (lastAccelSampleRef w) (fiducialCheckIntervalRef
    w) (fiducialCheckInProgressRef w) (intervals w) (nextTimer w) (listeners
    w) (nextSub w) (sessionCleanup w) (pendingChecks w) (pendingCaptures w)
    (triggers w).
Definition set_cameraRef (v : bool) (w : World) : World :=
  mkWorld (cameraVisible w) (cameraReady w) (autoCaptureEnabled w)
    (alignmentScore w) (alignmentStatus w) (autoCaptureCountdown w)
    (fiducialCount w) (fiducialQuality w) (fiducialReady w) (cameraError w)
    v (accelerometerSubscriptionRef w) (autoCaptureTimerRef w)
    (autoCaptureLockRef w) (lastAccelSampleRef w) (fiducialCheckIntervalRef
    w) (fiducialCheckInProgressRef w) (intervals w) (nextTimer w) (listeners
    w) (nextSub w) (sessionCleanup w) (pendingChecks w) (pendingCaptures w)
    (triggers w).
Definition set_accelerometerSubscriptionRef (v : option SubId) (w : World) : World :=
  mkWorld (cameraVisible w) (cameraReady w) (autoCaptureEnabled w)
    (alignmentScore w) (alignmentStatus w) (autoCaptureCountdown w)
    (fiducialCount w) (fiducialQuality w) (fiducialReady w) (cameraError w)
    (cameraRef w) v (autoCaptureTimerRef w) (autoCaptureLockRef w)
    (lastAccelSampleRef w) (fiducialCheckIntervalRef w)
    (fiducialCheckInProgressRef w) (intervals w) (nextTimer w) (listeners w)
    (nextSub w) (sessionCleanup w) (pendingChecks w) (pendingCaptures w)
    (triggers w).
Definition set_autoCaptureTimerRef (v : option TimerId) (w : World) : World :=
  mkWorld (cameraVisible w) (cameraReady w) (autoCaptureEnabled w)
    (alignmentScore w) (alignmentStatus w) (autoCaptureCountdown w)
    (fiducialCount w) (fiducialQuality w) (fiducialReady w) (cameraError w)
    (cameraRef w) (accelerometerSubscriptionRef w) v (autoCaptureLockRef w)
    (lastAccelSampleRef w) (fiducialCheckIntervalRef w)
    (fiducialCheckInProgressRef w) (intervals w) (nextTimer w) (listeners w)
    (nextSub w) (sessionCleanup w) (pendingChecks w) (pendingCaptures w)
    (triggers w).
Definition set_autoCaptureLockRef (v : bool) (w : World) : World :=
  mkWorld (cameraVisible w) (cameraReady w) (autoCaptureEnabled w)
    (alignmentScore w) (alignmentStatus w) (autoCaptureCountdown w)
    (fiducialCount w) (fiducialQuality w) (fiducialReady w) (cameraError w)
    (cameraRef w) (accelerometerSubscriptionRef w) (autoCaptureTimerRef w) v
    (lastAccelSampleRef w) (fiducialCheckIntervalRef w)
    (fiducialCheckInProgressRef w) (intervals w) (nextTimer w) (listeners w)
    (nextSub w) (sessionCleanup w) (pendingChecks w) (pendingCaptures w)
    (triggers w).
Definition set_lastAccelSampleRef (v : option Sample.t) (w : World) : World :=
  mkWorld (cameraVisible w) (cameraReady w) (autoCaptureEnabled w)
    (alignmentScore w) (alignmentStatus w) (autoCaptureCountdown w)
    (fiducialCount w) (fiducialQuality w) (fiducialReady w) (cameraError w)
    (cameraRef w) (accelerometerSubscriptionRef w) (autoCaptureTimerRef w)
    (autoCaptureLockRef w) v (fiducialCheckIntervalRef w)
    (fiducialCheckInProgressRef w) (intervals w) (nextTimer w) (listeners w)
    (nextSub w) (sessionCleanup w) (pendingChecks w) (pendingCaptures w)
    (triggers w).
Definition set_fiducialCheckIntervalRef (v : option TimerId) (w : World) : World :=
  mkWorld (cameraVisible w) (cameraReady w) (autoCaptureEnabled w)
    (alignmentScore w) (alignmentStatus w) (autoCaptureCountdown w)
    (fiducialCount w) (fiducialQuality w) (fiducialReady w) (cameraError w)
    (cameraRef w) (accelerometerSubscriptionRef w) (autoCaptureTimerRef w)
    (autoCaptureLockRef w) (lastAccelSampleRef w) v
    (fiducialCheckInProgressRef w) (intervals w) (nextTimer w) (listeners w)
    (nextSub w) (sessionCleanup w) (pendingChecks w) (pendingCaptures w)
    (triggers w).
Definition set_fiducialCheckInProgressRef (v : bool) (w : World) : World :=
  mkWorld (cameraVisible w) (cameraReady w) (autoCaptureEnabled w)
    (alignmentScore w) (alignmentStatus w) (autoCaptureCountdown w)
    (fiducialCount w) (fiducialQuality w) (fiducialReady w) (cameraError w)
    (cameraRef w) (accelerometerSubscriptionRef w) (autoCaptureTimerRef w)
    (autoCaptureLockRef w) (lastAccelSampleRef w) (fiducialCheckIntervalRef
    w) v (intervals w) (nextTimer w) (listeners w) (nextSub w)
    (sessionCleanup w) (pendingChecks w) (pendingCaptures w) (triggers w).
Definition set_intervals (v : list Interval) (w : World) : World :=
  mkWorld (cameraVisible w) (cameraReady w) (autoCaptureEnabled w)
    (alignmentScore w) (alignmentStatus w) (autoCaptureCountdown w)
    (fiducialCount w) (fiducialQuality w) (fiducialReady w) (cameraError w)
    (cameraRef w) (accelerometerSubscriptionRef w) (autoCaptureTimerRef w)
    (autoCaptureLockRef w) (lastAccelSampleRef w) (fiducialCheckIntervalRef
    w) (fiducialCheckInProgressRef w) v (nextTimer w) (listeners w) (nextSub
    w) (sessionCleanup w) (pendingChecks w) (pendingCaptures w) (triggers w).
Definition set_nextTimer (v : TimerId) (w : World) : World :=
  mkWorld (cameraVisible w) (cameraReady w) (autoCaptureEnabled w)
    (alignmentScore w) (alignmentStatus w) (autoCaptureCountdown w)
    (fiducialCount w) (fiducialQuality w) (fiducialReady w) (cameraError w)
    (cameraRef w) (accelerometerSubscriptionRef w) (autoCaptureTimerRef w)
    (autoCaptureLockRef w) (lastAccelSampleRef w) (fiducialCheckIntervalRef
    w) (fiducialCheckInProgressRef w) (intervals w) v (listeners w) (nextSub
    w) (sessionCleanup w) (pendingChecks w) (pendingCaptures w) (triggers w).
Definition set_listeners (v : list SubId) (w : World) : World :=
  mkWorld (cameraVisible w) (cameraReady w) (autoCaptureEnabled w)
    (alignmentScore w) (alignmentStatus w) (autoCaptureCountdown w)
    (fiducialCount w) (fiducialQuality w) (fiducialReady w) (cameraError w)
    (cameraRef w) (accelerometerSubscriptionRef w) (autoCaptureTimerRef w)
    (autoCaptureLockRef w) (lastAccelSampleRef w) (fiducialCheckIntervalRef
    w) (fiducialCheckInProgressRef w) (intervals w) (nextTimer w) v (nextSub
    w) (sessionCleanup w) (pendingChecks w) (pendingCaptures w) (triggers w).
Definition set_nextSub (v : SubId) (w : World) : World :=
  mkWorld (cameraVisible w) (cameraReady w) (autoCaptureEnabled w)
    (alignmentScore w) (alignmentStatus w) (autoCaptureCountdown w)
    (fiducialCount w) (fiducialQuality w) (fiducialReady w) (cameraError w)
    (cameraRef w) (accelerometerSubscriptionRef w) (autoCaptureTimerRef w)
    (autoCaptureLockRef w) (lastAccelSampleRef w) (fiducialCheckIntervalRef
    w) (fiducialCheckInProgressRef w) (intervals w) (nextTimer w) (listeners
    w) v (sessionCleanup w) (pendingChecks w) (pendingCaptures w) (triggers
    w).
Definition set_sessionCleanup (v : bool) (w : World) : World :=
  mkWorld (cameraVisible w) (cameraReady w) (autoCaptureEnabled w)
    (alignmentScore w) (alignmentStatus w) (autoCaptureCountdown w)
    (fiducialCount w) (fiducialQuality w) (fiducialReady w) (cameraError w)
    (cameraRef w) (accelerometerSubscriptionRef w) (autoCaptureTimerRef w)
    (autoCaptureLockRef w) (lastAccelSampleRef w) (fiducialCheckIntervalRef
    w) (fiducialCheckInProgressRef w) (intervals w) (nextTimer w) (listeners
    w) (nextSub w) v (pendingChecks w) (pendingCaptures w) (triggers w).
Definition set_pendingChecks (v : list CheckStage) (w : World) : World :=
  mkWorld (cameraVisible w) (cameraReady w) (autoCaptureEnabled w)
    (alignmentScore w) (alignmentStatus w) (autoCaptureCountdown w)
    (fiducialCount w) (fiducialQuality w) (fiducialReady w) (cameraError w)
    (cameraRef w) (accelerometerSubscriptionRef w) (autoCaptureTimerRef w)
    (autoCaptureLockRef w) (lastAccelSampleRef w) (fiducialCheckIntervalRef
    w) (fiducialCheckInProgressRef w) (intervals w) (nextTimer w) (listeners
    w) (nextSub w) (sessionCleanup w) v (pendingCaptures w) (triggers w).
Definition set_pendingCaptures (v : list CaptureStage) (w : World) : World :=
  mkWorld (cameraVisible w) (cameraReady w) (autoCaptureEnabled w)
    (alignmentScore w) (alignmentStatus w) (autoCaptureCountdown w)
    (fiducialCount w) (fiducialQuality w) (fiducialReady w) (cameraError w)
    (cameraRef w) (accelerometerSubscriptionRef w) (autoCaptureTimerRef w)
    (autoCaptureLockRef w) (lastAccelSampleRef w) (fiducialCheckIntervalRef
    w) (fiducialCheckInProgressRef w) (intervals w) (nextTimer w) (listeners
    w) (nextSub w) (sessionCleanup w) (pendingChecks w) v (triggers w).
Definition set_triggers (v : list TimerId) (w : World) : World :=
  mkWorld (cameraVisible w) (cameraReady w) (autoCaptureEnabled w)
    (alignmentScore w) (alignmentStatus w) (autoCaptureCountdown w)
    (fiducialCount w) (fiducialQuality w) (fiducialReady w) (cameraError w)
    (cameraRef w) (accelerometerSubscriptionRef w) (autoCaptureTimerRef w)
    (autoCaptureLockRef w) (lastAccelSampleRef w) (fiducialCheckIntervalRef
    w) (fiducialCheckInProgressRef w) (intervals w) (nextTimer w) (listeners
    w) (nextSub w) (sessionCleanup w) (pendingChecks w) (pendingCaptures w)
    v.

(** ** Timers and listeners of the runtime *)

(** [setInterval(cb, period)]: registers the callback under a fresh id. *)
Definition setInterval (cb : Callback) (period : Z) (w : World) : TimerId * World :=
  let id := nextTimer w in
  (id,
   set_nextTimer (S id)
     (set_intervals ({| iv_id := id; iv_period := period; iv_callback := cb |}
                       :: intervals w) w)).

(** [clearInterval(id)]. *)
Definition clearInterval (id : TimerId) (w : World) : World :=
  set_intervals (filter (fun iv => negb (Nat.eqb (iv_id iv) id)) (intervals w)) w.

(** [Accelerometer.addListener(listener)]. *)
Definition addListener (w : World) : SubId * World :=
  let id := nextSub w in
  (id, set_nextSub (S id) (set_listeners (id :: listeners w) w)).

(** [subscription.remove()]. *)
Definition removeListener (id : SubId) (w : World) : World :=
  set_listeners (filter (fun l => negb (Nat.eqb l id)) (listeners w)) w.

(** ** The callbacks of [DataInputScreen] *)

Definition clearAutoCaptureTimer (preserveLock : bool) (w : World) : World :=
  let w :=
    match autoCaptureTimerRef w with
    | Some id => set_autoCaptureTimerRef None (clearInterval id w)
    | None => w
    end in
  let w :=
    match fiducialCheckIntervalRef w with
    | Some id => set_fiducialCheckIntervalRef None (clearInterval id w)
    | None => w
    end in
  let w := set_fiducialCheckInProgressRef false w in
  let w := if negb preserveLock then set_autoCaptureLockRef false w else w in
  set_autoCaptureCountdown 0 w.

Definition stopAlignmentMonitoring (w : World) : World :=
  let w :=
    match accelerometerSubscriptionRef w with
    | Some id => removeListener id w
    | None => w
    end in
  let w := set_accelerometerSubscriptionRef None w in
  let w := set_lastAccelSampleRef None w in
  let w :=
    match fiducialCheckIntervalRef w with
    | Some id => set_fiducialCheckIntervalRef None (clearInterval id w)
    | None => w
    end in
  let w := set_fiducialCheckInProgressRef false w in
  let w := set_fiducialCount 0 w in
  let w := set_fiducialQuality 0 w in
  set_fiducialReady false w.

(** The result of the marker-detection service. *)
Record FiducialResult : Set :=
  { detected : float; corners : list (float * float); quality : float; ready : bool }.

(** How the [fetch] of [validateFiducials] settles: it rejects, or it
    resolves to a response with its [ok] flag, its status and what
    [response.json()] gives ([None] when that rejects). *)
Inductive FetchOutcome : Set :=
| FetchRejects
| FetchResponds (ok : bool) (status : Z) (json : option FiducialResult).

(** A call either returns a value or throws. *)
Inductive Completion (A : Type) : Type :=
| Returns (v : A)
| Throws.
Arguments Returns {A} v.
Arguments Throws {A}.

Definition sentinel : FiducialResult :=
  {| detected := 0; corners := []; quality := 0; ready := false |}.

(** [validateFiducials(asset)] from the API client, as a function of how
    its network request settles. *)
Definition validateFiducials (asset : option Asset) (net : FetchOutcome)
  : Completion FiducialResult :=
  if negb (has_uri asset) then Throws
  else
    match net with
    | FetchRejects => Returns sentinel
    | FetchResponds ok _ json =>
        if negb ok then Returns sentinel
        else match json with
             | Some r => Returns r
             | None => Throws
             end
    end.

(** The guard that opens [checkFiducials]; [cameraReady_c] is the value
    the callback captured. *)
Definition checkFiducials_skips (cameraReady_c : bool) (w : World) : bool :=
  negb (cameraRef w) || negb cameraReady_c
  || fiducialCheckInProgressRef w || autoCaptureLockRef w.

(** [checkFiducials], up to its first await: the guard, the flag and the
    snapshot request. *)
Definition checkFiducials (cameraReady_c : bool) (w : World) : World :=
  if checkFiducials_skips cameraReady_c w then w
  else
    let w := set_fiducialCheckInProgressRef true w in
    set_pendingChecks (pendingChecks w ++ [AwaitSnapshot]) w.

(** How [takePictureAsync] settles: it rejects, or resolves to a picture
    ([None] for [undefined]). *)
Inductive SnapshotOutcome : Set :=
| SnapshotRejects
| SnapshotResolves (snapshot : option Asset).

(** The [finally] block of [checkFiducials]. *)
Definition checkFiducials_finally (w : World) : World :=
  set_fiducialCheckInProgressRef false w.

(** [checkFiducials] from the snapshot to its second await. The result is
    the stage to wait in, if the call is not over. *)
Definition checkFiducials_afterSnapshot (r : SnapshotOutcome) (w : World)
  : option CheckStage * World :=
  match r with
  | SnapshotRejects => (None, checkFiducials_finally w)
  | SnapshotResolves snapshot =>
      match snapshot with
      | Some a =>
          if has_uri snapshot then (Some (AwaitValidate a), w)
          else (None, checkFiducials_finally w)
      | None => (None, checkFiducials_finally w)
      end
  end.

(** [checkFiducials] from the answer of [validateFiducials] to its end. *)
Definition checkFiducials_afterValidate (snapshot : Asset) (net : FetchOutcome)
    (w : World) : World :=
  match validateFiducials (Some snapshot) net with
  | Returns result =>
      let w := set_fiducialCount (JS.or0 (Some (detected result))) w in
      let w := set_fiducialQuality (JS.or0 (Some (quality result))) w in
      let w := set_fiducialReady (ready result || false) w in
      checkFiducials_finally w
  | Throws => checkFiducials_finally w
  end.

(** The accelerometer listener. *)
Definition accelerometerListener (data : Sample.t) (w : World) : World :=
  let comp := composite (lastAccelSampleRef w) data in
  let w := set_lastAccelSampleRef (Some data) w in
  set_alignmentScore (blend (alignmentScore w) comp) w.

(** What the cleanup of the monitoring effect and its closed-camera
    branch both do. *)
Definition resetMonitoring (w : World) : World :=
  let w := stopAlignmentMonitoring w in
  let w := clearAutoCaptureTimer false w in
  let w := set_alignmentScore 0 w in
  let w := set_alignmentStatus StatusEmpty w in
  let w := set_fiducialCount 0 w in
  let w := set_fiducialQuality 0 w in
  let w := set_fiducialReady false w in
  set_lastAccelSampleRef None w.

(** The body of the monitoring effect (the one that subscribes to the
    accelerometer and starts the fiducial poll). It returns a cleanup
    only from its open-camera branch. *)
Definition monitoringEffect_body (w : World) : World :=
  if negb (cameraVisible w) then set_sessionCleanup false (resetMonitoring w)
  else
    let '(sub, w) := addListener w in
    let w := set_accelerometerSubscriptionRef (Some sub) w in
    let '(id, w) :=
      setInterval (FiducialPollCb (cameraReady w)) FIDUCIAL_CHECK_INTERVAL_MS w in
    let w := set_fiducialCheckIntervalRef (Some id) w in
    set_sessionCleanup true w.

(** A run of the monitoring effect: the cleanup of its previous run, if
    that run returned one, then the body. *)
Definition monitoringEffect (w : World) : World :=
  monitoringEffect_body (if sessionCleanup w then resetMonitoring w else w).

(** [handleOpenCamera] up to the permission prompt, and after it. *)
Definition handleOpenCamera (w : World) : World :=
  let w := set_cameraError NoCameraError w in
  let w := clearAutoCaptureTimer false w in
  let w := set_alignmentScore 0 w in
  set_alignmentStatus StatusEmpty w.

Definition handleOpenCamera_afterPermission (granted : bool) (w : World) : World :=
  if negb granted then w
  else
    let w := set_cameraReady false w in
    set_cameraVisible true w.

Definition handleCloseCamera (w : World) : World :=
  let w := set_cameraVisible false w in
  let w := set_cameraReady false w in
  let w := stopAlignmentMonitoring w in
  let w := clearAutoCaptureTimer false w in
  let w := set_alignmentScore 0 w in
  let w := set_alignmentStatus StatusEmpty w in
  let w := set_autoCaptureCountdown 0 w in
  set_autoCaptureLockRef false w.

(** [handleTakePhoto(autoTriggered)] up to [takePictureAsync];
    [cameraReady_c] is the value the callback captured. *)
Definition handleTakePhoto (cameraReady_c autoTriggered : bool) (w : World) : World :=
  if negb (cameraRef w) then w
  else if negb cameraReady_c then set_cameraError ErrStillFocusing w
  else
    let w := if negb autoTriggered then clearAutoCaptureTimer false w else w in
    set_pendingCaptures (pendingCaptures w ++ [AwaitPhoto]) w.

(** The [finally] block of [handleTakePhoto]. *)
Definition handleTakePhoto_finally (w : World) : World :=
  let w := set_autoCaptureLockRef false w in
  clearAutoCaptureTimer false w.

(** [handleTakePhoto] once [takePictureAsync] has settled: with a photo
    it closes the camera and waits for [handlePhotoResult]; on a
    rejection it reports, closes and runs its [finally]. *)
Definition handleTakePhoto_afterPhoto (resolved : bool) (w : World)
  : option CaptureStage * World :=
  if resolved then (Some AwaitPhotoResult, handleCloseCamera w)
  else
    let w := set_cameraError ErrUnableToCapture w in
    let w := handleCloseCamera w in
    (None, handleTakePhoto_finally w).

(** The message the auto-capture effect derives from what is missing. *)
Definition statusMessage (w : World) (stabilityOk : bool) : Status :=
  if fiducialCount w =? 0 then StatusLooking
  else if fiducialCount w <? MIN_FIDUCIALS_FOR_CAPTURE then StatusFound (fiducialCount w)
  else if negb (fiducialReady w) then StatusImprove (fiducialQuality w * 100)
  else if negb stabilityOk then StatusHoldSteady
  else StatusArming.

Definition fiducialsOk (w : World) : bool :=
  JS.geb (fiducialCount w) MIN_FIDUCIALS_FOR_CAPTURE && fiducialReady w.

Definition stabilityOk (w : World) : bool :=
  JS.geb (alignmentScore w) AUTO_CAPTURE_START_THRESHOLD.

Definition bothConditionsMet (w : World) : bool :=
  fiducialsOk w && stabilityOk w.

Definition isSome {A : Type} (o : option A) : bool :=
  match o with Some _ => true | None => false end.

(** The auto-capture effect; [now] is what [Date.now()] returns. *)
Definition autoCaptureEffect (now : Z) (w : World) : World :=
  if negb (cameraVisible w) then
    clearAutoCaptureTimer false (set_alignmentStatus StatusCameraClosed w)
  else if negb (cameraReady w) then
    clearAutoCaptureTimer false (set_alignmentStatus StatusFocusing w)
  else if negb (autoCaptureEnabled w) then
    clearAutoCaptureTimer false (set_alignmentStatus StatusDisabled w)
  else if autoCaptureLockRef w then
    set_alignmentStatus StatusCapturing w
  else
    let message := statusMessage w (stabilityOk w) in
    if bothConditionsMet w && negb (isSome (autoCaptureTimerRef w)) then
      let w := set_alignmentStatus StatusCapturingSoon w in
      let started := now in
      let w := set_autoCaptureCountdown AUTO_CAPTURE_START_MS w in
      let '(id, w) :=
        setInterval (CountdownCb started (cameraReady w)) COUNTDOWN_TICK_MS w in
      set_autoCaptureTimerRef (Some id) w
    else if negb (bothConditionsMet w) then
      let w :=
        if isSome (autoCaptureTimerRef w) then clearAutoCaptureTimer false w
        else w in
      set_alignmentStatus message w
    else set_alignmentStatus message w.

(** The countdown callback of interval [id]. *)
Definition countdownCallback (id : TimerId) (started : Z) (cameraReady_c : bool)
    (now : Z) (w : World) : World :=
  let elapsed := (now - started)%Z in
  let remaining := Z.max 0 (AUTO_CAPTURE_START_MS - elapsed) in
  let w := set_autoCaptureCountdown remaining w in
  if (remaining <=? 0)%Z then
    let w := clearAutoCaptureTimer true w in
    let w := set_autoCaptureLockRef true w in
    let w := set_triggers (id :: triggers w) w in
    handleTakePhoto cameraReady_c true w
  else w.

(** The fiducial-poll callback. *)
Definition fiducialPollCallback (cameraReady_c : bool) (w : World) : World :=
  if cameraReady_c && negb (autoCaptureLockRef w) then checkFiducials cameraReady_c w
  else w.

(** The auto-capture switch of the camera overlay. *)
Definition toggleAutoCapture (w : World) : World :=
  let next := negb (autoCaptureEnabled w) in
  let w := if negb next then clearAutoCaptureTimer false w else w in
  set_autoCaptureEnabled next w.

(** ** Events and runs *)

(** What can happen to the screen: user actions, React committing a
    render (which mounts or unmounts the camera view with the modal) and
    running an effect, the runtime firing an interval or delivering a
    motion sample, and a pending promise settling. An effect is allowed
    to run at any moment, which covers every schedule React can choose. *)
Inductive Event : Type :=
| EvOpenCamera
| EvPermission (granted : bool)
| EvCloseCamera
| EvCommit
| EvCameraReady
| EvToggleAutoCapture
| EvCapturePressed
| EvMonitoringEffect
| EvAutoCaptureEffect (now : Z)
| EvInterval (id : TimerId) (now : Z)
| EvAccelerometer (sub : SubId) (data : Sample.t)
| EvSnapshot (k : nat) (r : SnapshotOutcome)
| EvValidate (k : nat) (net : FetchOutcome)
| EvPhoto (k : nat) (resolved : bool)
| EvPhotoResult (k : nat).

Fixpoint remove_nth {A : Type} (k : nat) (l : list A) : list A :=
  match l, k with
  | [], _ => []
  | _ :: t, O => t
  | h :: t, S k' => h :: remove_nth k' t
  end.

Fixpoint replace_nth {A : Type} (k : nat) (a : A) (l : list A) : list A :=
  match l, k with
  | [], _ => []
  | _ :: t, O => a :: t
  | h :: t, S k' => h :: replace_nth k' a t
  end.

Definition settle {A : Type} (k : nat) (next : option A) (l : list A) : list A :=
  match next with
  | Some s => replace_nth k s l
  | None => remove_nth k l
  end.

Definition find_interval (id : TimerId) (w : World) : option Interval :=
  find (fun iv => Nat.eqb (iv_id iv) id) (intervals w).

Definition step (e : Event) (w : World) : World :=
  match e with
  | EvOpenCamera => handleOpenCamera w
  | EvPermission granted => handleOpenCamera_afterPermission granted w
  | EvCloseCamera => handleCloseCamera w
  | EvCommit => set_cameraRef (cameraVisible w) w
  | EvCameraReady => if cameraRef w then set_cameraReady true w else w
  | EvToggleAutoCapture => toggleAutoCapture w
  | EvCapturePressed =>
      if cameraVisible w && cameraReady w
      then handleTakePhoto (cameraReady w) true w else w
  | EvMonitoringEffect => monitoringEffect w
  | EvAutoCaptureEffect now => autoCaptureEffect now w
  | EvInterval id now =>
      match find_interval id w with
      | Some iv =>
          match iv_callback iv with
          | CountdownCb started c => countdownCallback id started c now w
          | FiducialPollCb c => fiducialPollCallback c w
          end
      | None => w
      end
  | EvAccelerometer sub data =>
      if existsb (Nat.eqb sub) (listeners w) then accelerometerListener data w
      else w
  | EvSnapshot k r =>
      match nth_error (pendingChecks w) k with
      | Some AwaitSnapshot =>
          let '(next, w) := checkFiducials_afterSnapshot r w in
          set_pendingChecks (settle k next (pendingChecks w)) w
      | _ => w
      end
  | EvValidate k net =>
      match nth_error (pendingChecks w) k with
      | Some (AwaitValidate snapshot) =>
          let w := checkFiducials_afterValidate snapshot net w in
          set_pendingChecks (remove_nth k (pendingChecks w)) w
      | _ => w
      end
  | EvPhoto k resolved =>
      match nth_error (pendingCaptures w) k with
      | Some AwaitPhoto =>
          let '(next, w) := handleTakePhoto_afterPhoto resolved w in
          set_pendingCaptures (settle k next (pendingCaptures w)) w
      | _ => w
      end
  | EvPhotoResult k =>
      match nth_error (pendingCaptures w) k with
      | Some AwaitPhotoResult =>
          let w := handleTakePhoto_finally w in
          set_pendingCaptures (remove_nth k (pendingCaptures w)) w
      | _ => w
      end
  end.

Definition run (evs : list Event) (w : World) : World :=
  fold_left (fun w e => step e w) evs w.

(** The screen as [useState] and [useRef] create it, in an empty
    runtime. *)
Definition initial : World :=
  {| cameraVisible := false; cameraReady := false; autoCaptureEnabled := true;
     alignmentScore := 0; alignmentStatus := StatusEmpty;
     autoCaptureCountdown := 0;
     fiducialCount := 0; fiducialQuality := 0; fiducialReady := false;
     cameraError := NoCameraError;
     cameraRef := false; accelerometerSubscriptionRef := None;
     autoCaptureTimerRef := None; autoCaptureLockRef := false;
     lastAccelSampleRef := None; fiducialCheckIntervalRef := None;
     fiducialCheckInProgressRef := false;
     intervals := []; nextTimer := 0%nat; listeners := []; nextSub := 0%nat;
     sessionCleanup := false; pendingChecks := []; pendingCaptures := [];
     triggers := [] |}.

(** ** Vocabulary of the specification *)

(** The engine is arming when a countdown interval is registered in
    [autoCaptureTimerRef]. *)
Definition arming (w : World) : bool := isSome (autoCaptureTimerRef w).

(** The entry condition of the specification. *)
Definition armCondition (w : World) : bool :=
  cameraReady w && autoCaptureEnabled w && negb (autoCaptureLockRef w)
  && JS.geb (fiducialCount w) 4 && fiducialReady w
  && JS.geb (alignmentScore w) 0.55.

(** [w'] is [w] after a countdown was started at time [now]: a new
    interval of period 120 ms is registered under a fresh id, the ref
    holds that id, and the remaining-ms value is 1200. *)
Definition started_countdown (now : Z) (w w' : World) : Prop :=
  intervals w' =
    {| iv_id := nextTimer w; iv_period := 120;
       iv_callback := CountdownCb now (cameraReady w) |} :: intervals w
  /\ nextTimer w' = S (nextTimer w)
  /\ autoCaptureTimerRef w' = Some (nextTimer w)
  /\ autoCaptureCountdown w' = 1200%Z.

(** No interval was registered between [w] and [w']. *)
Definition no_interval_started (w w' : World) : Prop :=
  nextTimer w' = nextTimer w /\ incl (intervals w') (intervals w).

Definition level : Sample.t := Sample.of_floats 0 0 1.
Definition pic : Asset := {| uri := Some "file:///snapshot.jpg"%string |}.
Definition found4 : FiducialResult :=
  {| detected := 4; corners := []; quality := 0.9; ready := true |}.

(** A session that is opened and whose camera becomes ready, with the
    effects React runs after each render. *)
Definition open_session : list Event :=
  [EvMonitoringEffect; EvAutoCaptureEffect 0;
   EvOpenCamera; EvPermission true; EvCommit;
   EvMonitoringEffect; EvAutoCaptureEffect 10;
   EvCameraReady; EvMonitoringEffect; EvAutoCaptureEffect 20].

(** One successful fiducial check and two level motion samples. *)
Definition signals_ready : list Event :=
  [EvInterval 1%nat 470; EvSnapshot 0%nat (SnapshotResolves (Some pic));
   EvValidate 0%nat (FetchResponds true 200 (Some found4));
   EvAutoCaptureEffect 600;
   EvAccelerometer 1%nat level; EvAutoCaptureEffect 650;
   EvAccelerometer 1%nat level].

(** The state in which every signal is good and no countdown runs yet,
    and the state once the effect has started one (at time 800). *)
Definition ready_world : World := run (open_session ++ signals_ready) initial.
Definition armed_world : World := autoCaptureEffect 800 ready_world.

(** The armed state after a later check reports only two corners. *)
Definition found2 : FiducialResult :=
  {| detected := 2; corners := []; quality := 0.4; ready := false |}.
Definition lost_world : World :=
  run [EvInterval 1%nat 920; EvSnapshot 0%nat (SnapshotResolves (Some pic));
       EvValidate 0%nat (FetchResponds true 200 (Some found2))] armed_world.

(** ** Invariant of the runtime

    What holds in every state the screen can reach: the only active
    intervals and listeners are those the refs hold, the monitoring effect
    owes a cleanup whenever one of its refs is set, timer ids are fresh,
    and an interval that made the auto-capture call is no longer active
    and made the call once. *)
Record Inv (w : World) : Prop := {
  inv_intervals :
    forall iv, In iv (intervals w) ->
      autoCaptureTimerRef w = Some (iv_id iv)
      \/ fiducialCheckIntervalRef w = Some (iv_id iv);
  inv_listeners :
    forall l, In l (listeners w) -> accelerometerSubscriptionRef w = Some l;
  inv_session :
    sessionCleanup w = false ->
    fiducialCheckIntervalRef w = None /\ accelerometerSubscriptionRef w = None;
  inv_fresh :
    forall iv, In iv (intervals w) -> (iv_id iv < nextTimer w)%nat;
  inv_triggers :
    forall t, In t (triggers w) ->
      (t < nextTimer w)%nat /\ forall iv, In iv (intervals w) -> iv_id iv <> t;
  inv_nodup : NoDup (triggers w)
}.

(** Second invariant: an interval is only active while the camera modal
    is visible, and the in-progress flag is only set while the modal is
    visible and the camera view mounted. *)
Record Inv2 (w : World) : Prop := {
  inv_active_visible :
    forall iv, In iv (intervals w) -> cameraVisible w = true;
  inv_flag :
    fiducialCheckInProgressRef w = true ->
    cameraVisible w = true /\ cameraRef w = true
}.

(** The readiness state of the engine: what the screen shows and decides
    from, the refs behind it, and the timers and listeners they own. *)
Record Readiness : Type := {
  r_alignmentScore : float;
  r_fiducialCount : float;
  r_fiducialQuality : float;
  r_fiducialReady : bool;
  r_countdown : Z;
  r_lock : bool;
  r_lastSample : option Sample.t;
  r_inProgress : bool;
  r_subscription : option SubId;
  r_countdownTimer : option TimerId;
  r_pollTimer : option TimerId;
  r_intervals : list Interval;
  r_listeners : list SubId
}.

Definition readiness (w : World) : Readiness :=
  {| r_alignmentScore := alignmentScore w;
     r_fiducialCount := fiducialCount w;
     r_fiducialQuality := fiducialQuality w;
     r_fiducialReady := fiducialReady w;
     r_countdown := autoCaptureCountdown w;
     r_lock := autoCaptureLockRef w;
     r_lastSample := lastAccelSampleRef w;
     r_inProgress := fiducialCheckInProgressRef w;
     r_subscription := accelerometerSubscriptionRef w;
     r_countdownTimer := autoCaptureTimerRef w;
     r_pollTimer := fiducialCheckIntervalRef w;
     r_intervals := intervals w;
     r_listeners := listeners w |}.

(** The run up to the armed state. *)
Definition arm_trace : list Event :=
  open_session ++ signals_ready ++ [EvAutoCaptureEffect 800].

(** While the engine is arming, a fiducial check meets a network failure;
    React then re-runs the auto-capture effect, whose dependencies
    changed. *)
Definition network_failure_trace : list Event :=
  arm_trace
  ++ [EvInterval 1%nat 920; EvSnapshot 0%nat (SnapshotResolves (Some pic));
      EvValidate 0%nat FetchRejects; EvAutoCaptureEffect 1000].

(** A check is waiting for the service when the user closes the camera
    and opens it again; the poll of the new session then starts a second
    check. *)
Definition reopen_trace : list Event :=
  open_session
  ++ [EvInterval 1%nat 470; EvSnapshot 0%nat (SnapshotResolves (Some pic));
      EvCloseCamera; EvCommit; EvMonitoringEffect; EvAutoCaptureEffect 500;
      EvOpenCamera; EvPermission true; EvCommit;
      EvMonitoringEffect; EvAutoCaptureEffect 600;
      EvCameraReady; EvMonitoringEffect; EvAutoCaptureEffect 700;
      EvInterval 3%nat 1150].

(** The two failures of the network request. *)
Definition network_failure (net : FetchOutcome) : Prop :=
  net = FetchRejects \/ exists status json, net = FetchResponds false status json.


(** ** Vocabulary for binary64 numbers

    Predicates on primitive floats, stated with the comparisons of the
    language itself, and their counterparts on the [SpecFloat] reference
    model. *)

(** The number is not NaN. *)
Definition notnan (x : float) : Prop := is_nan x = false.

(** [0 <= x] holds (so [x] is not NaN; it may be [-0] or [+Infinity]). *)
Definition nonneg (x : float) : Prop := (0 <=? x) = true.

(** [0 <= x && x <= 1]. *)
Definition in_unit (x : float) : Prop := (0 <=? x) = true /\ (x <=? 1) = true.

(** [Number.isFinite(x)]. *)
Definition finite (x : float) : Prop := is_finite x = true.

Definition SFnonneg (s : spec_float) : bool :=
  match s with
  | S754_nan => false
  | S754_zero _ => true
  | S754_infinity b => negb b
  | S754_finite b _ _ => negb b
  end.

Definition SFis_nan (s : spec_float) : bool :=
  match s with S754_nan => true | _ => false end.

Definition SFis_finite (s : spec_float) : bool :=
  match s with S754_zero _ | S754_finite _ _ _ => true | _ => false end.

(** Strictly positive: a positive finite number or [+Infinity]. *)
Definition SFpos (s : spec_float) : bool :=
  match s with
  | S754_finite false _ _ | S754_infinity false => true
  | _ => false
  end.

(** A zero, an infinity or a finite number of sign [sx]. *)
Definition SFsigned (sx : bool) (s : spec_float) : Prop :=
  s = S754_zero sx \/ s = S754_infinity sx \/ exists m e, s = S754_finite sx m e.

(** The record reached after shifting [m0] right by [k] bits: the
    mantissa is the quotient, and the round and sticky bits are clear
    when nothing was lost. *)
Definition shifted (m0 k : Z) (mrs : shr_record) : Prop :=
  shr_m mrs = (m0 / 2 ^ k)%Z
  /\ ((m0 mod 2 ^ k)%Z = 0%Z -> shr_r mrs = false /\ shr_s mrs = false).

(** [m * 2^e] is at most [mf * 2^ef], for [e <= ef]. *)
Definition below (m e mf ef : Z) : Prop :=
  (e <= ef)%Z /\ (m <= mf * 2 ^ (ef - e))%Z.

(** The binary64 numbers [1], [0.55] and [0.45]. *)
Definition SFone : spec_float := S754_finite false 4503599627370496 (-52).
Definition SF055 : spec_float := S754_finite false 4953959590107546 (-53).
Definition SF045 : spec_float := S754_finite false 8106479329266893 (-54).

(** A component of a motion sample that is a finite number, or is
    missing (the code then reads it as [0]). *)
Definition finite_prop (p : JS.prop) : Prop :=
  match p with
  | Some v => finite v
  | None => True
  end.

Definition finite_sample (data : Sample.t) : Prop :=
  finite_prop (Sample.x data) /\ finite_prop (Sample.y data)
  /\ finite_prop (Sample.z data).

(** A component that is NaN or infinite. *)
Definition bad_prop (p : JS.prop) : Prop :=
  match p with
  | Some v => is_finite v = false
  | None => False
  end.

Definition bad_sample (data : Sample.t) : Prop :=
  bad_prop (Sample.x data) \/ bad_prop (Sample.y data) \/ bad_prop (Sample.z data).

(** Every motion sample of the run has finite components. *)
Definition finite_event (e : Event) : Prop :=
  match e with
  | EvAccelerometer _ data => finite_sample data
  | _ => True
  end.

(** The number is [+Infinity]. *)
Definition pinf (x : float) : Prop := Prim2SF x = S754_infinity false.

(** The number is NaN. *)
Definition isnan (x : float) : Prop := is_nan x = true.

(** Third invariant, on the values the screen computes with. [good] is
    what is known of the alignment score. The fiducial count and quality
    are numbers, the remaining time is not negative, no countdown is
    registered while the capture lock is held, and a check waiting for
    the marker service holds a snapshot with a uri. *)
Record Inv3 (good : float -> Prop) (w : World) : Prop := {
  inv_score : good (alignmentScore w);
  inv_count : notnan (fiducialCount w);
  inv_quality : notnan (fiducialQuality w);
  inv_countdown : (0 <= autoCaptureCountdown w)%Z;
  inv_lock : autoCaptureLockRef w = true -> autoCaptureTimerRef w = None;
  inv_uri :
    forall a, In (AwaitValidate a) (pendingChecks w) -> has_uri (Some a) = true
}.

(** What holds of the score in every run: it is NaN or within [0, 1]. *)
Definition nan_or_unit (v : float) : Prop := isnan v \/ in_unit v.

(** A session in which the first fiducial check has its snapshot and
    waits for the marker service. *)
Definition checking_trace : list Event :=
  open_session
  ++ [EvInterval 1%nat 470; EvSnapshot 0%nat (SnapshotResolves (Some pic))].

(** A motion sample with a NaN component, and one with an infinite
    component. *)
Definition nan_sample : Sample.t := Sample.of_floats nan 0 1.
Definition inf_sample : Sample.t := Sample.of_floats 0 infinity 1.

(** * The sign-in form of [LoginScreen]

    [handleLogin] and [handleRegister] up to their request: what they
    check on the text of the form and what they hand to the
    authentication service. *)

(** A JavaScript string: the sequence of its UTF-16 code units. *)
Definition jsstring := list N.

Module Str.

(** The code units of WhiteSpace and LineTerminator: what [trim] strips
    and what [\s] matches. *)
Definition isWhiteSpace (c : N) : bool :=
  ((c =? 9) || (c =? 10) || (c =? 11) || (c =? 12) || (c =? 13) || (c =? 32)
   || (c =? 160) || (c =? 5760) || ((8192 <=? c) && (c <=? 8202))
   || (c =? 8232) || (c =? 8233) || (c =? 8239) || (c =? 8287)
   || (c =? 12288) || (c =? 65279))%N.

Fixpoint trimStart (s : jsstring) : jsstring :=
  match s with
  | [] => []
  | c :: t => if isWhiteSpace c then trimStart t else s
  end.

Definition trimEnd (s : jsstring) : jsstring := rev (trimStart (rev s)).

(** [s.trim()]. *)
Definition trim (s : jsstring) : jsstring := trimEnd (trimStart s).

(** [!s] on a string: only the empty string is falsy. *)
Definition isEmpty (s : jsstring) : bool :=
  match s with [] => true | _ => false end.

(** [a === b] on strings. *)
Definition eqb (a b : jsstring) : bool :=
  if list_eq_dec N.eq_dec a b then true else false.

End Str.

Module RegExp.

(** Patterns anchored at both ends, [/^...$/], without flags: a
    character class is a predicate on code units. *)
Inductive regex : Type :=
| Empty
| Eps
| Class (p : N -> bool)
| Cat (r1 r2 : regex)
| Alt (r1 r2 : regex)
| Star (r : regex).

(** [r+]. *)
Definition Plus (r : regex) : regex := Cat r (Star r).

Fixpoint nullable (r : regex) : bool :=
  match r with
  | Empty => false
  | Eps => true
  | Class _ => false
  | Cat r1 r2 => nullable r1 && nullable r2
  | Alt r1 r2 => nullable r1 || nullable r2
  | Star _ => true
  end.

(** What is left of [r] once the code unit [c] is read. *)
Fixpoint deriv (c : N) (r : regex) : regex :=
  match r with
  | Empty => Empty
  | Eps => Empty
  | Class p => if p c then Eps else Empty
  | Cat r1 r2 =>
      if nullable r1 then Alt (Cat (deriv c r1) r2) (deriv c r2)
      else Cat (deriv c r1) r2
  | Alt r1 r2 => Alt (deriv c r1) (deriv c r2)
  | Star r1 => Cat (deriv c r1) (Star r1)
  end.

(** [r.test(s)] for an anchored pattern: the whole string matches. *)
Definition test (r : regex) (s : jsstring) : bool :=
  nullable (fold_left (fun r c => deriv c r) s r).

(** The strings a pattern denotes. *)
Inductive lang : regex -> jsstring -> Prop :=
| LEps : lang Eps []
| LClass p c : p c = true -> lang (Class p) [c]
| LCat r1 r2 s1 s2 : lang r1 s1 -> lang r2 s2 -> lang (Cat r1 r2) (s1 ++ s2)
| LAltL r1 r2 s : lang r1 s -> lang (Alt r1 r2) s
| LAltR r1 r2 s : lang r2 s -> lang (Alt r1 r2) s
| LStarNil r : lang (Star r) []
| LStarCons r s1 s2 : lang r s1 -> lang (Star r) s2 -> lang (Star r) (s1 ++ s2).

End RegExp.

(** [[^\s@]]: any code unit that is neither white space nor [@]. *)
Definition notSpaceNorAt (c : N) : bool :=
  negb (Str.isWhiteSpace c || (c =? 64)%N).

(** [/^[^\s@]+@[^\s@]+\.[^\s@]+$/]. *)
Definition emailRegex : RegExp.regex :=
  RegExp.Cat (RegExp.Plus (RegExp.Class notSpaceNorAt))
    (RegExp.Cat (RegExp.Class (N.eqb 64))
       (RegExp.Cat (RegExp.Plus (RegExp.Class notSpaceNorAt))
          (RegExp.Cat (RegExp.Class (N.eqb 46))
             (RegExp.Plus (RegExp.Class notSpaceNorAt))))).

(** The messages [setError] receives from the checks of the form. *)
Inductive FormError : Set :=
| ErrEnterBoth       (* Please enter both email and password. *)
| ErrFillAll         (* Please fill in all fields. *)
| ErrInvalidEmail    (* Please enter a valid email address. *)
| ErrShortPassword   (* Password must be at least 6 characters. *)
| ErrMismatch.       (* Passwords do not match. *)

(** A handler either stops with a message or sends the credentials. *)
Inductive Submission : Set :=
| Rejected (e : FormError)
| Submitted (email password : jsstring).

(** [handleLogin] up to [signInWithPassword]. *)
Definition handleLogin (email password : jsstring) : Submission :=
  let trimmedEmail := Str.trim email in
  let trimmedPassword := Str.trim password in
  if Str.isEmpty trimmedEmail || Str.isEmpty trimmedPassword then
    Rejected ErrEnterBoth
  else if negb (RegExp.test emailRegex trimmedEmail) then Rejected ErrInvalidEmail
  else if (List.length trimmedPassword <? 6)%nat then Rejected ErrShortPassword
  else Submitted trimmedEmail trimmedPassword.

(** [handleRegister] up to [signUp]. *)
Definition handleRegister (email password confirmPassword : jsstring) : Submission :=
  let trimmedEmail := Str.trim email in
  let trimmedPassword := Str.trim password in
  if Str.isEmpty trimmedEmail || Str.isEmpty trimmedPassword
     || Str.isEmpty (Str.trim confirmPassword) then
    Rejected ErrFillAll
  else if negb (RegExp.test emailRegex trimmedEmail) then Rejected ErrInvalidEmail
  else if (List.length trimmedPassword <? 6)%nat then Rejected ErrShortPassword
  else if negb (Str.eqb trimmedPassword (Str.trim confirmPassword)) then
    Rejected ErrMismatch
  else Submitted trimmedEmail trimmedPassword.

(** The shape of an address the form accepts: [local@domain.tld], the
    three parts not empty and free of white space and of [@]. *)
Definition email_shape (s : jsstring) : Prop :=
  exists l d t : jsstring,
    s = l ++ [64%N] ++ d ++ [46%N] ++ t
    /\ l <> [] /\ d <> [] /\ t <> []
    /\ forallb notSpaceNorAt l = true
    /\ forallb notSpaceNorAt d = true
    /\ forallb notSpaceNorAt t = true.

(** A string that does not start with white space. *)
Definition starts_clean (s : jsstring) : Prop :=
  match s with [] => True | c :: _ => Str.isWhiteSpace c = false end.

(** ["a@b.c"] and ["secret"] as code units. *)
Definition sample_email : jsstring := [97; 64; 98; 46; 99]%N.
Definition sample_password : jsstring := [115; 101; 99; 114; 101; 116]%N.

(** A check is waiting for the marker service when the user closes the
    camera; its answer arrives after the close, and the camera is then
    opened again. *)
Definition late_answer_trace (k : nat) (net : FetchOutcome) : list Event :=
  [EvCloseCamera; EvCommit; EvMonitoringEffect; EvValidate k net;
   EvOpenCamera; EvPermission true; EvCommit; EvMonitoringEffect].

(** The first fiducial check of a session waits for the marker service;
    the user closes the camera, the service then answers with four
    corners, and the user opens the camera again. *)
Definition stale_reopen_trace : list Event :=
  checking_trace ++ late_answer_trace 0 (FetchResponds true 200 (Some found4)).

(** A camera opened for the first time, at the same point of its
    session. *)
Definition first_open_trace : list Event :=
  [EvOpenCamera; EvPermission true; EvCommit; EvMonitoringEffect].
(** * Properties *)

Ltac bool_cases :=
  repeat match goal with
         | |- context [if ?b then _ else _] => destruct b eqn:?; simpl in *
         | |- context [match ?o with Some _ => _ | None => _ end] =>
             destruct o eqn:?; simpl in *
         end.

Lemma incl_filter {A : Type} (f : A -> bool) (l : list A) : incl (filter f l) l.
Proof. intros a Ha. apply filter_In in Ha. tauto. Qed.

Ltac splits := repeat match goal with |- _ /\ _ => split end.

Ltac solve_incl :=
  repeat (eapply incl_tran; [apply incl_filter |]); apply incl_refl.

(** Whenever the entry condition is false the auto-capture effect
    registers no interval. *)
Lemma effect_no_start (now : Z) (w : World) :
  armCondition w = false -> no_interval_started w (autoCaptureEffect now w).
Proof.
  unfold no_interval_started, armCondition, autoCaptureEffect, bothConditionsMet,
    fiducialsOk, stabilityOk, JS.geb, MIN_FIDUCIALS_FOR_CAPTURE,
    AUTO_CAPTURE_START_THRESHOLD.
  destruct w as [vi cr en sc ? ? fc ? fr ? ? ? tr lk ? fi ? ? nt ? ? ? ? ? ?].
  cbn.
  destruct vi, cr, en, lk, (4 <=? fc), fr, (0.55 <=? sc), tr, fi; cbn;
    intros Hc; try discriminate Hc; split; solve [reflexivity | solve_incl].
Qed.

(** C1. The auto-capture effect starts the countdown (1200 ms, an
    interval of 120 ms whose callback stores the remaining time) exactly
    when the entry condition holds: from an open session in which no
    countdown runs, the countdown is started if and only if the camera is
    ready, auto-capture is enabled, the lock is free, at least four
    fiducials are detected, they are reported ready and the alignment
    score is at least 0.55; and whenever the condition is false, in any
    state, no interval is registered. *)
Theorem arming_entry (now : Z) (w : World) :
  (cameraVisible w = true -> arming w = false ->
     (started_countdown now w (autoCaptureEffect now w) <-> armCondition w = true))
  /\ (armCondition w = false -> no_interval_started w (autoCaptureEffect now w))
  /\ (forall id started c now',
        autoCaptureCountdown (countdownCallback id started c now' w)
        = Z.max 0 (1200 - (now' - started))).
Proof.
  split; [| split].
  - intros Hv Ha. unfold arming in Ha.
    unfold started_countdown, armCondition, autoCaptureEffect, bothConditionsMet,
      fiducialsOk, stabilityOk, JS.geb, MIN_FIDUCIALS_FOR_CAPTURE,
      AUTO_CAPTURE_START_THRESHOLD, AUTO_CAPTURE_START_MS, COUNTDOWN_TICK_MS.
    rewrite Hv.
    destruct w as [? cr en sc ? ? fc ? fr ? ? ? tr lk ? fi ? ? nt ? ? ? ? ? ?].
    cbn in Ha |- *. destruct tr; [discriminate|].
    destruct cr, en, lk, (4 <=? fc), fr, (0.55 <=? sc), fi; cbn;
      (split; [intros (_ & Hn & _); try (exfalso; lia); reflexivity
              | intros Hc; try discriminate Hc; repeat split]).
  - apply effect_no_start.
  - intros id started c now'.
    unfold countdownCallback, AUTO_CAPTURE_START_MS.
    destruct (Z.leb_spec (Z.max 0 (1200 - (now' - started))) 0) as [Hle|Hgt].
    + assert (Hz : Z.max 0 (1200 - (now' - started)) = 0%Z) by lia.
      rewrite Hz.
      destruct w as [? ? ? ? ? ? ? ? ? ? cref ? tr ? ? fi ? ? ? ? ? ? ? ? ?].
      unfold handleTakePhoto. destruct cref, c, tr, fi; reflexivity.
    + destruct w; reflexivity.
Qed.


Lemma arming_entry_witness :
  started_countdown 800 ready_world (autoCaptureEffect 800 ready_world).
Proof.
  apply (proj1 (arming_entry 800 ready_world)); vm_compute; reflexivity.
Defined.

Lemma find_filter_out (id : TimerId) (l : list Interval) :
  find (fun iv => Nat.eqb (iv_id iv) id)
       (filter (fun iv => negb (Nat.eqb (iv_id iv) id)) l) = None.
Proof.
  induction l as [|iv l IH]; simpl; [reflexivity|].
  destruct (Nat.eqb (iv_id iv) id) eqn:E; simpl; [exact IH|].
  rewrite E. exact IH.
Qed.

Lemma find_filter_none (f g : Interval -> bool) (l : list Interval) :
  find f l = None -> find f (filter g l) = None.
Proof.
  induction l as [|iv l IH]; simpl; [reflexivity|].
  destruct (f iv) eqn:E; [discriminate|]. intros H.
  destruct (g iv); simpl; [rewrite E|]; auto.
Qed.

(** After [clearAutoCaptureTimer], the interval that [autoCaptureTimerRef]
    held is no longer registered. *)
Lemma clearAutoCaptureTimer_clears (p : bool) (w : World) (id : TimerId) :
  autoCaptureTimerRef w = Some id ->
  find_interval id (clearAutoCaptureTimer p w) = None.
Proof.
  intros H. unfold find_interval, clearAutoCaptureTimer.
  destruct w as [? ? ? ? ? ? ? ? ? ? ? ? tr ? ? fi ? ? ? ? ? ? ? ? ?].
  cbn in H. subst tr.
  destruct p, fi; cbn;
    first [apply find_filter_out | apply find_filter_none; apply find_filter_out].
Qed.

(** C3. While arming (a countdown is registered and the lock is free),
    as soon as the entry condition of C1 no longer holds, the auto-capture
    effect cancels: the countdown interval is cleared, the engine is idle
    again and the remaining-ms value is 0. The decision is the negation of
    the entry condition itself: every score below the start threshold
    0.55 cancels, whether or not it is still above
    [AUTO_CAPTURE_CANCEL_THRESHOLD]. *)
Theorem arming_cancel (now : Z) (w : World) (id : TimerId) :
  autoCaptureTimerRef w = Some id ->
  autoCaptureLockRef w = false ->
  armCondition w = false ->
  let w' := autoCaptureEffect now w in
  arming w' = false
  /\ autoCaptureLockRef w' = false
  /\ autoCaptureCountdown w' = 0%Z
  /\ find_interval id w' = None
  /\ (forall s : float,
        JS.geb s AUTO_CAPTURE_START_THRESHOLD = false ->
        let ws := autoCaptureEffect now (set_alignmentScore s w) in
        arming ws = false /\ autoCaptureCountdown ws = 0%Z).
Proof.
  intros Ht Hl Hc w'.
  assert (Hmain : arming w' = false /\ autoCaptureLockRef w' = false
                  /\ autoCaptureCountdown w' = 0%Z).
  { subst w'. revert Hc.
    unfold armCondition, autoCaptureEffect, bothConditionsMet, fiducialsOk,
      stabilityOk, JS.geb, MIN_FIDUCIALS_FOR_CAPTURE, AUTO_CAPTURE_START_THRESHOLD.
    destruct w as [vi cr en sc ? ? fc ? fr ? ? ? tr lk ? fi ? ? nt ? ? ? ? ? ?].
    cbn in Ht, Hl |- *. subst tr lk.
    destruct vi, cr, en, (4 <=? fc), fr, (0.55 <=? sc), fi; cbn;
      intros Hc; try discriminate Hc; repeat split. }
  destruct Hmain as (H1 & H2 & H3). repeat split; auto.
  - subst w'. revert Hc.
    unfold armCondition, autoCaptureEffect, bothConditionsMet, fiducialsOk,
      stabilityOk, JS.geb, MIN_FIDUCIALS_FOR_CAPTURE, AUTO_CAPTURE_START_THRESHOLD.
    rewrite Hl.
    destruct (cameraVisible w) eqn:Hv; cbn [negb];
      [| intros _; apply clearAutoCaptureTimer_clears; destruct w; exact Ht].
    destruct (cameraReady w) eqn:Hr; cbn [negb andb];
      [| intros _; apply clearAutoCaptureTimer_clears; destruct w; exact Ht].
    destruct (autoCaptureEnabled w) eqn:He; cbn [negb andb];
      [| intros _; apply clearAutoCaptureTimer_clears; destruct w; exact Ht].
    rewrite Ht. cbn [isSome negb andb].
    intros Hc. rewrite !andb_false_r.
    assert (Hb : (4 <=? fiducialCount w) && fiducialReady w
                 && (0.55 <=? alignmentScore w) = false).
    { destruct (4 <=? fiducialCount w), (fiducialReady w),
        (0.55 <=? alignmentScore w); try discriminate Hc; reflexivity. }
    rewrite Hb. cbn [negb].
    pose proof (clearAutoCaptureTimer_clears false w id Ht) as Hclr.
    destruct (clearAutoCaptureTimer false w); exact Hclr.
  - revert H. unfold autoCaptureEffect, bothConditionsMet,
      fiducialsOk, stabilityOk, JS.geb, MIN_FIDUCIALS_FOR_CAPTURE,
      AUTO_CAPTURE_START_THRESHOLD.
    destruct w as [vi cr en sc ? ? fc ? fr ? ? ? tr lk ? fi ? ? nt ? ? ? ? ? ?].
    cbn in Ht, Hl |- *. subst tr lk. intros Hs. rewrite Hs.
    destruct vi, cr, en, (4 <=? fc), fr, fi; reflexivity.
  - revert H. unfold autoCaptureEffect, bothConditionsMet,
      fiducialsOk, stabilityOk, JS.geb, MIN_FIDUCIALS_FOR_CAPTURE,
      AUTO_CAPTURE_START_THRESHOLD.
    destruct w as [vi cr en sc ? ? fc ? fr ? ? ? tr lk ? fi ? ? nt ? ? ? ? ? ?].
    cbn in Ht, Hl |- *. subst tr lk. intros Hs. rewrite Hs.
    destruct vi, cr, en, (4 <=? fc), fr, fi; reflexivity.
Qed.

Lemma arming_cancel_witness :
  arming (autoCaptureEffect 1000 lost_world) = false
  /\ autoCaptureCountdown (autoCaptureEffect 1000 lost_world) = 0%Z.
Proof.
  destruct (arming_cancel 1000 lost_world 2%nat) as (H1 & _ & H3 & _);
    [vm_compute; reflexivity ..|].
  split; assumption.
Defined.

(** ** The invariant holds along every run *)

Ltac inv_elim :=
  repeat match goal with
         | H : In _ (filter _ _) |- _ => apply filter_In in H; destruct H
         | H : In ?x (_ :: _) |- _ => destruct H as [H | H]; [subst x |]
         | H : _ = ?x \/ In ?x _ |- _ => destruct H as [H | H]; [subst x |]
         | H : In _ [] |- _ => destruct H
         | H : negb (Nat.eqb _ _) = true |- _ =>
             apply negb_true_iff in H; apply Nat.eqb_neq in H
         end.

Ltac with_in H :=
  try match goal with
      | Hin : In _ _ |- _ => generalize (H _ Hin); cbn; intro
      end.

Ltac split_hyps :=
  repeat match goal with
         | H : _ \/ _ |- _ => destruct H
         | H : _ /\ _ |- _ => destruct H
         | H : Some _ = Some _ |- _ => injection H as H
         | H : Some _ = None |- _ => discriminate H
         | H : None = Some _ |- _ => discriminate H
         end.

Ltac finish :=
  solve [ auto | congruence | lia | left; congruence | right; congruence
        | exfalso; congruence | exfalso; lia | split; auto; congruence ].

Ltac inv_leaf Hi Hl Hs Hf Ht Hn :=
  let iv := fresh "iv" in
  let Hin := fresh "Hin" in
  let Hiv := fresh "Hiv" in
  let Hc := fresh "Hc" in
  let x := fresh "x" in
  constructor; cbn -[In] in *;
  [ intros iv Hin; inv_elim; cbn; with_in Hi; with_in Hf; split_hyps; finish
  | intros x Hin; inv_elim; with_in Hl; split_hyps; finish
  | intros Hc; try discriminate Hc; try (destruct (Hs Hc)); split_hyps; finish
  | intros iv Hin; inv_elim; cbn; with_in Hf; finish
  | intros x Hin; inv_elim; with_in Ht; split_hyps;
    (split; [finish | intros iv Hiv; inv_elim; cbn; with_in Hf; with_in Hi;
                      split_hyps; try finish;
                      match goal with H : forall iv, In iv _ -> _ <> _ |- _ =>
                        apply H; assumption end])
  | auto ].

Lemma Inv_initial : Inv initial.
Proof. constructor; cbn; try tauto; try constructor; intros; try tauto; discriminate. Qed.

Lemma Inv_clearAutoCaptureTimer (p : bool) (w : World) :
  Inv w -> Inv (clearAutoCaptureTimer p w).
Proof.
  intros [Hi Hl Hs Hf Ht Hn]. unfold clearAutoCaptureTimer.
  destruct w as [? ? ? ? ? ? ? ? ? ? ? ? tr ? ? fi ? ? ? ? ? sc ? ? ?].
  destruct p, tr, fi; inv_leaf Hi Hl Hs Hf Ht Hn.
Qed.

Lemma Inv_stopAlignmentMonitoring (w : World) :
  Inv w -> Inv (stopAlignmentMonitoring w).
Proof.
  intros [Hi Hl Hs Hf Ht Hn]. unfold stopAlignmentMonitoring.
  destruct w as [? ? ? ? ? ? ? ? ? ? ? sub tr ? ? fi ? ? ? ? ? sc ? ? ?].
  destruct sub, fi; inv_leaf Hi Hl Hs Hf Ht Hn.
Qed.

(** The invariant only reads the timers, the listeners, their refs and
    the trigger log. *)
Lemma Inv_ext (w w' : World) :
  intervals w' = intervals w ->
  listeners w' = listeners w ->
  autoCaptureTimerRef w' = autoCaptureTimerRef w ->
  fiducialCheckIntervalRef w' = fiducialCheckIntervalRef w ->
  accelerometerSubscriptionRef w' = accelerometerSubscriptionRef w ->
  sessionCleanup w' = sessionCleanup w ->
  nextTimer w' = nextTimer w ->
  triggers w' = triggers w ->
  Inv w -> Inv w'.
Proof.
  intros E1 E2 E3 E4 E5 E6 E7 E8 [Hi Hl Hs Hf Ht Hn].
  constructor; rewrite ?E1, ?E2, ?E3, ?E4, ?E5, ?E6, ?E7, ?E8; assumption.
Qed.

Ltac frame := intros H; refine (Inv_ext _ _ _ _ _ _ _ _ _ _ H); reflexivity.

Lemma Inv_set_cameraVisible v w : Inv w -> Inv (set_cameraVisible v w).
Proof. frame. Qed.
Lemma Inv_set_cameraReady v w : Inv w -> Inv (set_cameraReady v w).
Proof. frame. Qed.
Lemma Inv_set_autoCaptureEnabled v w : Inv w -> Inv (set_autoCaptureEnabled v w).
Proof. frame. Qed.
Lemma Inv_set_alignmentScore v w : Inv w -> Inv (set_alignmentScore v w).
Proof. frame. Qed.
Lemma Inv_set_alignmentStatus v w : Inv w -> Inv (set_alignmentStatus v w).
Proof. frame. Qed.
Lemma Inv_set_autoCaptureCountdown v w : Inv w -> Inv (set_autoCaptureCountdown v w).
Proof. frame. Qed.
Lemma Inv_set_fiducialCount v w : Inv w -> Inv (set_fiducialCount v w).
Proof. frame. Qed.
Lemma Inv_set_fiducialQuality v w : Inv w -> Inv (set_fiducialQuality v w).
Proof. frame. Qed.
Lemma Inv_set_fiducialReady v w : Inv w -> Inv (set_fiducialReady v w).
Proof. frame. Qed.
Lemma Inv_set_cameraError v w : Inv w -> Inv (set_cameraError v w).
Proof. frame. Qed.
Lemma Inv_set_cameraRef v w : Inv w -> Inv (set_cameraRef v w).
Proof. frame. Qed.
Lemma Inv_set_autoCaptureLockRef v w : Inv w -> Inv (set_autoCaptureLockRef v w).
Proof. frame. Qed.
Lemma Inv_set_lastAccelSampleRef v w : Inv w -> Inv (set_lastAccelSampleRef v w).
Proof. frame. Qed.
Lemma Inv_set_fiducialCheckInProgressRef v w : Inv w -> Inv (set_fiducialCheckInProgressRef v w).
Proof. frame. Qed.
Lemma Inv_set_pendingChecks v w : Inv w -> Inv (set_pendingChecks v w).
Proof. frame. Qed.
Lemma Inv_set_pendingCaptures v w : Inv w -> Inv (set_pendingCaptures v w).
Proof. frame. Qed.

Ltac inv_setter :=
  lazymatch goal with
  | |- Inv (set_cameraVisible _ _) => apply Inv_set_cameraVisible
  | |- Inv (set_cameraReady _ _) => apply Inv_set_cameraReady
  | |- Inv (set_autoCaptureEnabled _ _) => apply Inv_set_autoCaptureEnabled
  | |- Inv (set_alignmentScore _ _) => apply Inv_set_alignmentScore
  | |- Inv (set_alignmentStatus _ _) => apply Inv_set_alignmentStatus
  | |- Inv (set_autoCaptureCountdown _ _) => apply Inv_set_autoCaptureCountdown
  | |- Inv (set_fiducialCount _ _) => apply Inv_set_fiducialCount
  | |- Inv (set_fiducialQuality _ _) => apply Inv_set_fiducialQuality
  | |- Inv (set_fiducialReady _ _) => apply Inv_set_fiducialReady
  | |- Inv (set_cameraError _ _) => apply Inv_set_cameraError
  | |- Inv (set_cameraRef _ _) => apply Inv_set_cameraRef
  | |- Inv (set_autoCaptureLockRef _ _) => apply Inv_set_autoCaptureLockRef
  | |- Inv (set_lastAccelSampleRef _ _) => apply Inv_set_lastAccelSampleRef
  | |- Inv (set_fiducialCheckInProgressRef _ _) => apply Inv_set_fiducialCheckInProgressRef
  | |- Inv (set_pendingChecks _ _) => apply Inv_set_pendingChecks
  | |- Inv (set_pendingCaptures _ _) => apply Inv_set_pendingCaptures
  | |- Inv (clearAutoCaptureTimer _ _) => apply Inv_clearAutoCaptureTimer
  | |- Inv (stopAlignmentMonitoring _) => apply Inv_stopAlignmentMonitoring
  end.

Ltac inv_peel :=
  cbv zeta;
  repeat match goal with
         | H : Inv ?w |- Inv ?w => exact H
         | |- Inv (if ?b then _ else _) => destruct b eqn:?
         | |- Inv _ => inv_setter
         end.

Lemma Inv_resetMonitoring (w : World) : Inv w -> Inv (resetMonitoring w).
Proof. intros H. unfold resetMonitoring. inv_peel. Qed.

Lemma Inv_handleCloseCamera (w : World) : Inv w -> Inv (handleCloseCamera w).
Proof. intros H. unfold handleCloseCamera. inv_peel. Qed.

Lemma Inv_handleOpenCamera (w : World) : Inv w -> Inv (handleOpenCamera w).
Proof. intros H. unfold handleOpenCamera. inv_peel. Qed.

Lemma Inv_handleTakePhoto (c a : bool) (w : World) :
  Inv w -> Inv (handleTakePhoto c a w).
Proof. intros H. unfold handleTakePhoto. inv_peel. Qed.

Lemma Inv_handleTakePhoto_finally (w : World) :
  Inv w -> Inv (handleTakePhoto_finally w).
Proof. intros H. unfold handleTakePhoto_finally. inv_peel. Qed.

Lemma Inv_toggleAutoCapture (w : World) : Inv w -> Inv (toggleAutoCapture w).
Proof. intros H. unfold toggleAutoCapture. inv_peel. Qed.

Lemma Inv_checkFiducials (c : bool) (w : World) : Inv w -> Inv (checkFiducials c w).
Proof. intros H. unfold checkFiducials. inv_peel. Qed.

Lemma resetMonitoring_refs (w : World) :
  fiducialCheckIntervalRef (resetMonitoring w) = None
  /\ accelerometerSubscriptionRef (resetMonitoring w) = None.
Proof.
  unfold resetMonitoring, stopAlignmentMonitoring, clearAutoCaptureTimer.
  destruct w as [? ? ? ? ? ? ? ? ? ? ? sub tr ? ? fi ? ? ? ? ? sc ? ? ?].
  destruct sub, tr, fi; split; reflexivity.
Qed.

Lemma Inv_set_sessionCleanup (b : bool) (w : World) :
  Inv w ->
  (b = false ->
   fiducialCheckIntervalRef w = None /\ accelerometerSubscriptionRef w = None) ->
  Inv (set_sessionCleanup b w).
Proof.
  intros [Hi Hl Hs Hf Ht Hn] Hb. constructor; cbn; auto.
Qed.

Lemma Inv_monitoringEffect_body (w : World) :
  Inv w ->
  (cameraVisible w = true ->
   fiducialCheckIntervalRef w = None /\ accelerometerSubscriptionRef w = None) ->
  Inv (monitoringEffect_body w).
Proof.
  intros H Hnone. unfold monitoringEffect_body.
  destruct (cameraVisible w) eqn:Hv; cbn [negb].
  - destruct (Hnone eq_refl) as [H1 H2]. destruct H as [Hi Hl Hs Hf Ht Hn].
    destruct w as [? ? ? ? ? ? ? ? ? ? ? sub tr ? ? fi ? ? ? ? ? sc ? ? ?].
    cbn in H1, H2. subst sub fi.
    inv_leaf Hi Hl Hs Hf Ht Hn.
  - apply Inv_set_sessionCleanup; [apply Inv_resetMonitoring, H|].
    intros _. apply resetMonitoring_refs.
Qed.

Lemma Inv_monitoringEffect (w : World) : Inv w -> Inv (monitoringEffect w).
Proof.
  intros H. unfold monitoringEffect.
  destruct (sessionCleanup w) eqn:Hc.
  - apply Inv_monitoringEffect_body; [apply Inv_resetMonitoring, H|].
    intros _. apply resetMonitoring_refs.
  - apply Inv_monitoringEffect_body; [exact H|].
    intros _. apply (inv_session w H Hc).
Qed.

Lemma Inv_autoCaptureEffect (now : Z) (w : World) :
  Inv w -> Inv (autoCaptureEffect now w).
Proof.
  intros H. unfold autoCaptureEffect.
  destruct (negb (cameraVisible w)); [inv_peel|].
  destruct (negb (cameraReady w)); [inv_peel|].
  destruct (negb (autoCaptureEnabled w)); [inv_peel|].
  destruct (autoCaptureLockRef w); [inv_peel|].
  cbv zeta.
  destruct (bothConditionsMet w); cbn [andb negb].
  - destruct (autoCaptureTimerRef w) eqn:Ht; cbn [isSome negb]; [inv_peel|].
    destruct H as [Hi Hl Hs Hf Htr Hn].
    destruct w as [? ? ? ? ? ? ? ? ? ? ? sub tr ? ? fi ? ? ? ? ? sc ? ? ?].
    cbn in Ht. subst tr.
    inv_leaf Hi Hl Hs Hf Htr Hn.
  - inv_peel.
Qed.

Lemma find_interval_In (id : TimerId) (w : World) (iv : Interval) :
  find_interval id w = Some iv -> In iv (intervals w) /\ iv_id iv = id.
Proof.
  unfold find_interval. intros H. apply find_some in H.
  destruct H as [H1 H2]. apply Nat.eqb_eq in H2. auto.
Qed.

Lemma Inv_set_triggers (id : TimerId) (w : World) :
  Inv w ->
  intervals w = [] ->
  (id < nextTimer w)%nat ->
  ~ In id (triggers w) ->
  Inv (set_triggers (id :: triggers w) w).
Proof.
  intros [Hi Hl Hs Hf Ht Hn] He Hlt Hnot.
  constructor; cbn; auto.
  - intros t [<- | Hin]; [|auto].
    split; [exact Hlt|]. rewrite He. intros iv [].
  - constructor; assumption.
Qed.

(** Under the invariant [clearAutoCaptureTimer] leaves no interval
    registered. *)
Lemma clearAutoCaptureTimer_intervals (p : bool) (w : World) :
  Inv w -> intervals (clearAutoCaptureTimer p w) = [].
Proof.
  intros [Hi _ _ _ _ _]. unfold clearAutoCaptureTimer.
  destruct w as [? ? ? ? ? ? ? ? ? ? ? sub tr ? ? fi ? ivs ? ? ? ? ? ? ?].
  cbn in Hi.
  assert (Hnil : forall l : list Interval, (forall iv, In iv l -> False) -> l = []).
  { intros [|a l] Hl; [reflexivity|]. destruct (Hl a). left. reflexivity. }
  destruct p, tr, fi; cbn; apply Hnil; intros iv Hin; inv_elim;
    with_in Hi; split_hyps; try congruence.
Qed.

Lemma clearAutoCaptureTimer_frame (p : bool) (w : World) :
  nextTimer (clearAutoCaptureTimer p w) = nextTimer w
  /\ triggers (clearAutoCaptureTimer p w) = triggers w.
Proof.
  unfold clearAutoCaptureTimer.
  destruct w as [? ? ? ? ? ? ? ? ? ? ? sub tr ? ? fi ? ivs ? ? ? ? ? ? ?].
  destruct p, tr, fi; split; reflexivity.
Qed.

Lemma Inv_countdownCallback (id : TimerId) (started : Z) (c : bool) (now : Z)
    (w : World) (iv : Interval) :
  Inv w -> In iv (intervals w) -> iv_id iv = id ->
  Inv (countdownCallback id started c now w).
Proof.
  intros H Hin Hid. unfold countdownCallback. cbv zeta.
  destruct (Z.max 0 (AUTO_CAPTURE_START_MS - (now - started)) <=? 0)%Z;
    [| inv_peel].
  apply Inv_handleTakePhoto.
  set (w1 := set_autoCaptureCountdown _ w).
  assert (H1 : Inv w1) by (apply Inv_set_autoCaptureCountdown, H).
  set (w2 := clearAutoCaptureTimer true w1).
  assert (H2 : Inv w2) by (apply Inv_clearAutoCaptureTimer, H1).
  assert (E2 : intervals w2 = []) by (apply clearAutoCaptureTimer_intervals, H1).
  destruct (clearAutoCaptureTimer_frame true w1) as [N2 T2].
  fold w2 in N2, T2.
  set (w3 := set_autoCaptureLockRef true w2).
  assert (H3 : Inv w3) by (apply Inv_set_autoCaptureLockRef, H2).
  apply Inv_set_triggers; auto.
  - change (nextTimer w3) with (nextTimer w2). rewrite N2.
    change (nextTimer w1) with (nextTimer w).
    rewrite <- Hid. apply (inv_fresh w H iv Hin).
  - change (triggers w3) with (triggers w2). rewrite T2.
    change (triggers w1) with (triggers w).
    intros Hbad. destruct (inv_triggers w H id Hbad) as [_ Hno].
    apply (Hno iv Hin Hid).
Qed.

Lemma Inv_step (e : Event) (w : World) : Inv w -> Inv (step e w).
Proof.
  intros H. destruct e; cbn [step].
  - apply Inv_handleOpenCamera, H.
  - unfold handleOpenCamera_afterPermission. inv_peel.
  - apply Inv_handleCloseCamera, H.
  - inv_peel.
  - inv_peel.
  - apply Inv_toggleAutoCapture, H.
  - destruct (cameraVisible w && cameraReady w); [apply Inv_handleTakePhoto|]; exact H.
  - apply Inv_monitoringEffect, H.
  - apply Inv_autoCaptureEffect, H.
  - destruct (find_interval id w) as [iv|] eqn:Hf; [|exact H].
    apply find_interval_In in Hf. destruct Hf as [Hin Hid].
    destruct (iv_callback iv).
    + apply (Inv_countdownCallback id started cameraReady_c now w iv); assumption.
    + unfold fiducialPollCallback.
      destruct (cameraReady_c && negb (autoCaptureLockRef w));
        [apply Inv_checkFiducials|]; exact H.
  - destruct (existsb (Nat.eqb sub) (listeners w)); [|exact H].
    unfold accelerometerListener. inv_peel.
  - destruct (nth_error (pendingChecks w) k) as [[|a]|]; try exact H.
    unfold checkFiducials_afterSnapshot, checkFiducials_finally.
    destruct r as [|[a|]]; [| destruct (has_uri (Some a)) |]; inv_peel.
  - destruct (nth_error (pendingChecks w) k) as [[|a]|]; try exact H.
    cbv zeta. apply Inv_set_pendingChecks.
    unfold checkFiducials_afterValidate, checkFiducials_finally.
    destruct (validateFiducials (Some a) net); inv_peel.
  - destruct (nth_error (pendingCaptures w) k) as [[|]|]; try exact H.
    unfold handleTakePhoto_afterPhoto. destruct resolved; cbv zeta.
    + apply Inv_set_pendingCaptures, Inv_handleCloseCamera, H.
    + apply Inv_set_pendingCaptures, Inv_handleTakePhoto_finally,
        Inv_handleCloseCamera, Inv_set_cameraError, H.
  - destruct (nth_error (pendingCaptures w) k) as [[|]|]; try exact H.
    cbv zeta. apply Inv_set_pendingCaptures, Inv_handleTakePhoto_finally, H.
Qed.

Theorem Inv_run (evs : list Event) (w : World) : Inv w -> Inv (run evs w).
Proof.
  revert w. induction evs as [|e evs IH]; intros w H; cbn; [exact H|].
  apply IH, Inv_step, H.
Qed.

(** ** The second invariant holds along every run *)

Lemma Inv2_ext (w w' : World) :
  intervals w' = intervals w ->
  cameraVisible w' = cameraVisible w ->
  cameraRef w' = cameraRef w ->
  fiducialCheckInProgressRef w' = fiducialCheckInProgressRef w ->
  Inv2 w -> Inv2 w'.
Proof.
  intros E1 E2 E3 E4 [Hv Hg]. constructor; rewrite ?E1, ?E2, ?E3, ?E4; assumption.
Qed.

Ltac frame2 := intros H; refine (Inv2_ext _ _ _ _ _ _ H); reflexivity.

Lemma Inv2_set_cameraReady v w : Inv2 w -> Inv2 (set_cameraReady v w).
Proof. frame2. Qed.
Lemma Inv2_set_autoCaptureEnabled v w : Inv2 w -> Inv2 (set_autoCaptureEnabled v w).
Proof. frame2. Qed.
Lemma Inv2_set_alignmentScore v w : Inv2 w -> Inv2 (set_alignmentScore v w).
Proof. frame2. Qed.
Lemma Inv2_set_alignmentStatus v w : Inv2 w -> Inv2 (set_alignmentStatus v w).
Proof. frame2. Qed.
Lemma Inv2_set_autoCaptureCountdown v w : Inv2 w -> Inv2 (set_autoCaptureCountdown v w).
Proof. frame2. Qed.
Lemma Inv2_set_fiducialCount v w : Inv2 w -> Inv2 (set_fiducialCount v w).
Proof. frame2. Qed.
Lemma Inv2_set_fiducialQuality v w : Inv2 w -> Inv2 (set_fiducialQuality v w).
Proof. frame2. Qed.
Lemma Inv2_set_fiducialReady v w : Inv2 w -> Inv2 (set_fiducialReady v w).
Proof. frame2. Qed.
Lemma Inv2_set_cameraError v w : Inv2 w -> Inv2 (set_cameraError v w).
Proof. frame2. Qed.
Lemma Inv2_set_accelerometerSubscriptionRef v w : Inv2 w -> Inv2 (set_accelerometerSubscriptionRef v w).
Proof. frame2. Qed.
Lemma Inv2_set_autoCaptureTimerRef v w : Inv2 w -> Inv2 (set_autoCaptureTimerRef v w).
Proof. frame2. Qed.
Lemma Inv2_set_autoCaptureLockRef v w : Inv2 w -> Inv2 (set_autoCaptureLockRef v w).
Proof. frame2. Qed.
Lemma Inv2_set_lastAccelSampleRef v w : Inv2 w -> Inv2 (set_lastAccelSampleRef v w).
Proof. frame2. Qed.
Lemma Inv2_set_fiducialCheckIntervalRef v w : Inv2 w -> Inv2 (set_fiducialCheckIntervalRef v w).
Proof. frame2. Qed.
Lemma Inv2_set_listeners v w : Inv2 w -> Inv2 (set_listeners v w).
Proof. frame2. Qed.
Lemma Inv2_set_nextSub v w : Inv2 w -> Inv2 (set_nextSub v w).
Proof. frame2. Qed.
Lemma Inv2_set_nextTimer v w : Inv2 w -> Inv2 (set_nextTimer v w).
Proof. frame2. Qed.
Lemma Inv2_set_sessionCleanup v w : Inv2 w -> Inv2 (set_sessionCleanup v w).
Proof. frame2. Qed.
Lemma Inv2_set_pendingChecks v w : Inv2 w -> Inv2 (set_pendingChecks v w).
Proof. frame2. Qed.
Lemma Inv2_set_pendingCaptures v w : Inv2 w -> Inv2 (set_pendingCaptures v w).
Proof. frame2. Qed.
Lemma Inv2_set_triggers v w : Inv2 w -> Inv2 (set_triggers v w).
Proof. frame2. Qed.

Ltac inv2_leaf Hv Hg :=
  let iv := fresh "iv" in
  let Hin := fresh "Hin" in
  let Hc := fresh "Hc" in
  constructor; cbn -[In] in *;
  [ intros iv Hin; inv_elim; with_in Hv; split_hyps; finish
  | intros Hc; try discriminate Hc; try (destruct (Hg Hc)); split_hyps; finish ].

Lemma Inv2_clearAutoCaptureTimer (p : bool) (w : World) :
  Inv2 w -> Inv2 (clearAutoCaptureTimer p w).
Proof.
  intros [Hv Hg]. unfold clearAutoCaptureTimer.
  destruct w as [? ? ? ? ? ? ? ? ? ? ? ? tr ? ? fi ? ? ? ? ? sc ? ? ?].
  destruct p, tr, fi; inv2_leaf Hv Hg.
Qed.

Lemma Inv2_stopAlignmentMonitoring (w : World) :
  Inv2 w -> Inv2 (stopAlignmentMonitoring w).
Proof.
  intros [Hv Hg]. unfold stopAlignmentMonitoring.
  destruct w as [? ? ? ? ? ? ? ? ? ? ? sub tr ? ? fi ? ? ? ? ? sc ? ? ?].
  destruct sub, fi; inv2_leaf Hv Hg.
Qed.

Lemma Inv2_set_flag_false (w : World) :
  Inv2 w -> Inv2 (set_fiducialCheckInProgressRef false w).
Proof. intros [Hv Hg]. constructor; cbn; [exact Hv | discriminate]. Qed.

Lemma Inv2_set_visible_true (w : World) : Inv2 w -> Inv2 (set_cameraVisible true w).
Proof.
  intros [Hv Hg]. constructor; cbn; [reflexivity|].
  intros Hc. split; [reflexivity | apply (Hg Hc)].
Qed.

Ltac inv2_setter :=
  lazymatch goal with
  | |- Inv2 (set_cameraReady _ _) => apply Inv2_set_cameraReady
  | |- Inv2 (set_autoCaptureEnabled _ _) => apply Inv2_set_autoCaptureEnabled
  | |- Inv2 (set_alignmentScore _ _) => apply Inv2_set_alignmentScore
  | |- Inv2 (set_alignmentStatus _ _) => apply Inv2_set_alignmentStatus
  | |- Inv2 (set_autoCaptureCountdown _ _) => apply Inv2_set_autoCaptureCountdown
  | |- Inv2 (set_fiducialCount _ _) => apply Inv2_set_fiducialCount
  | |- Inv2 (set_fiducialQuality _ _) => apply Inv2_set_fiducialQuality
  | |- Inv2 (set_fiducialReady _ _) => apply Inv2_set_fiducialReady
  | |- Inv2 (set_cameraError _ _) => apply Inv2_set_cameraError
  | |- Inv2 (set_accelerometerSubscriptionRef _ _) => apply Inv2_set_accelerometerSubscriptionRef
  | |- Inv2 (set_autoCaptureTimerRef _ _) => apply Inv2_set_autoCaptureTimerRef
  | |- Inv2 (set_autoCaptureLockRef _ _) => apply Inv2_set_autoCaptureLockRef
  | |- Inv2 (set_lastAccelSampleRef _ _) => apply Inv2_set_lastAccelSampleRef
  | |- Inv2 (set_fiducialCheckIntervalRef _ _) => apply Inv2_set_fiducialCheckIntervalRef
  | |- Inv2 (set_listeners _ _) => apply Inv2_set_listeners
  | |- Inv2 (set_nextSub _ _) => apply Inv2_set_nextSub
  | |- Inv2 (set_nextTimer _ _) => apply Inv2_set_nextTimer
  | |- Inv2 (set_sessionCleanup _ _) => apply Inv2_set_sessionCleanup
  | |- Inv2 (set_pendingChecks _ _) => apply Inv2_set_pendingChecks
  | |- Inv2 (set_pendingCaptures _ _) => apply Inv2_set_pendingCaptures
  | |- Inv2 (set_triggers _ _) => apply Inv2_set_triggers
  | |- Inv2 (set_fiducialCheckInProgressRef false _) => apply Inv2_set_flag_false
  | |- Inv2 (set_cameraVisible true _) => apply Inv2_set_visible_true
  | |- Inv2 (clearAutoCaptureTimer _ _) => apply Inv2_clearAutoCaptureTimer
  | |- Inv2 (stopAlignmentMonitoring _) => apply Inv2_stopAlignmentMonitoring
  end.

Ltac inv2_peel :=
  cbv zeta;
  repeat match goal with
         | H : Inv2 ?w |- Inv2 ?w => exact H
         | |- Inv2 (if ?b then _ else _) => destruct b eqn:?
         | |- Inv2 _ => inv2_setter
         end.

Lemma Inv2_resetMonitoring (w : World) : Inv2 w -> Inv2 (resetMonitoring w).
Proof. intros H. unfold resetMonitoring. inv2_peel. Qed.

(** Under the first invariant, closing the camera leaves neither an
    interval nor a listener registered. *)
Lemma handleCloseCamera_clears (w : World) :
  Inv w ->
  intervals (handleCloseCamera w) = [] /\ listeners (handleCloseCamera w) = [].
Proof.
  intros [Hi Hl _ _ _ _].
  assert (Hnil : forall (A : Type) (l : list A), (forall a, In a l -> False) -> l = []).
  { intros A [|a l] Hall; [reflexivity|]. destruct (Hall a). left. reflexivity. }
  unfold handleCloseCamera, stopAlignmentMonitoring, clearAutoCaptureTimer.
  destruct w as [? ? ? ? ? ? ? ? ? ? ? sub tr ? ? fi ? ivs ? ls ? ? ? ? ?].
  cbn in Hi, Hl.
  destruct sub, tr, fi; cbn; split; apply Hnil; intros a Hin; inv_elim;
    with_in Hi; with_in Hl; split_hyps; congruence.
Qed.

Lemma handleCloseCamera_fields (w : World) :
  cameraVisible (handleCloseCamera w) = false
  /\ fiducialCheckInProgressRef (handleCloseCamera w) = false.
Proof.
  unfold handleCloseCamera, stopAlignmentMonitoring, clearAutoCaptureTimer.
  destruct w as [? ? ? ? ? ? ? ? ? ? ? sub tr ? ? fi ? ivs ? ls ? ? ? ? ?].
  destruct sub, tr, fi; split; reflexivity.
Qed.

Lemma Inv2_handleCloseCamera (w : World) : Inv w -> Inv2 (handleCloseCamera w).
Proof.
  intros H. destruct (handleCloseCamera_clears w H) as [E _].
  destruct (handleCloseCamera_fields w) as [_ F].
  constructor.
  - rewrite E. intros iv [].
  - rewrite F. discriminate.
Qed.

Lemma Inv2_handleTakePhoto (c a : bool) (w : World) :
  Inv2 w -> Inv2 (handleTakePhoto c a w).
Proof. intros H. unfold handleTakePhoto. inv2_peel. Qed.

Lemma Inv2_handleTakePhoto_finally (w : World) :
  Inv2 w -> Inv2 (handleTakePhoto_finally w).
Proof. intros H. unfold handleTakePhoto_finally. inv2_peel. Qed.

Lemma Inv2_monitoringEffect_body (w : World) :
  Inv2 w -> Inv2 (monitoringEffect_body w).
Proof.
  intros H. unfold monitoringEffect_body.
  destruct (cameraVisible w) eqn:Hvis; cbn [negb].
  - destruct H as [Hv Hg].
    destruct w as [? ? ? ? ? ? ? ? ? ? ? sub tr ? ? fi ? ? ? ? ? sc ? ? ?].
    cbn in Hvis. subst. inv2_leaf Hv Hg.
  - apply Inv2_set_sessionCleanup, Inv2_resetMonitoring, H.
Qed.

Lemma Inv2_autoCaptureEffect (now : Z) (w : World) :
  Inv2 w -> Inv2 (autoCaptureEffect now w).
Proof.
  intros H. unfold autoCaptureEffect.
  destruct (cameraVisible w) eqn:Hvis; cbn [negb]; [|inv2_peel].
  destruct (negb (cameraReady w)); [inv2_peel|].
  destruct (negb (autoCaptureEnabled w)); [inv2_peel|].
  destruct (autoCaptureLockRef w); [inv2_peel|].
  cbv zeta.
  destruct (bothConditionsMet w); cbn [andb negb].
  - destruct (autoCaptureTimerRef w) eqn:Ht; cbn [isSome negb]; [inv2_peel|].
    destruct H as [Hv Hg].
    destruct w as [? ? ? ? ? ? ? ? ? ? ? sub tr ? ? fi ? ? ? ? ? sc ? ? ?].
    cbn in Hvis, Ht. subst. inv2_leaf Hv Hg.
  - inv2_peel.
Qed.

Lemma Inv2_checkFiducials (c : bool) (w : World) :
  Inv2 w -> cameraVisible w = true -> Inv2 (checkFiducials c w).
Proof.
  intros [Hv Hg] Hvis. unfold checkFiducials, checkFiducials_skips.
  destruct w as [? ? ? ? ? ? ? ? ? ? cref sub tr lk ? fi fl ? ? ? ? sc ? ? ?].
  cbn in Hvis. subst.
  destruct cref, c, fl, lk; inv2_leaf Hv Hg.
Qed.

Lemma Inv2_step (e : Event) (w : World) : Inv w -> Inv2 w -> Inv2 (step e w).
Proof.
  intros HI H. destruct e; cbn [step].
  - unfold handleOpenCamera. inv2_peel.
  - unfold handleOpenCamera_afterPermission. inv2_peel.
  - apply Inv2_handleCloseCamera, HI.
  - destruct H as [Hv Hg]. constructor; cbn; [exact Hv|].
    intros Hc. destruct (Hg Hc) as [E _]. auto.
  - inv2_peel.
  - unfold toggleAutoCapture. inv2_peel.
  - destruct (cameraVisible w && cameraReady w); [apply Inv2_handleTakePhoto|]; exact H.
  - unfold monitoringEffect. apply Inv2_monitoringEffect_body.
    destruct (sessionCleanup w); [apply Inv2_resetMonitoring|]; exact H.
  - apply Inv2_autoCaptureEffect, H.
  - destruct (find_interval id w) as [iv|] eqn:Hf; [|exact H].
    apply find_interval_In in Hf. destruct Hf as [Hin Hid].
    destruct (iv_callback iv).
    + unfold countdownCallback. cbv zeta.
      destruct (Z.max 0 (AUTO_CAPTURE_START_MS - (now - started)) <=? 0)%Z;
        [apply Inv2_handleTakePhoto|]; inv2_peel.
    + unfold fiducialPollCallback.
      destruct (cameraReady_c && negb (autoCaptureLockRef w)); [|exact H].
      apply Inv2_checkFiducials; [exact H|].
      apply (inv_active_visible w H iv Hin).
  - destruct (existsb (Nat.eqb sub) (listeners w)); [|exact H].
    unfold accelerometerListener. inv2_peel.
  - destruct (nth_error (pendingChecks w) k) as [[|a]|]; try exact H.
    unfold checkFiducials_afterSnapshot, checkFiducials_finally.
    destruct r as [|[a|]]; [| destruct (has_uri (Some a)) |]; inv2_peel.
  - destruct (nth_error (pendingChecks w) k) as [[|a]|]; try exact H.
    cbv zeta. apply Inv2_set_pendingChecks.
    unfold checkFiducials_afterValidate, checkFiducials_finally.
    destruct (validateFiducials (Some a) net); inv2_peel.
  - destruct (nth_error (pendingCaptures w) k) as [[|]|]; try exact H.
    unfold handleTakePhoto_afterPhoto. destruct resolved; cbv zeta.
    + apply Inv2_set_pendingCaptures, Inv2_handleCloseCamera, HI.
    + apply Inv2_set_pendingCaptures, Inv2_handleTakePhoto_finally,
        Inv2_handleCloseCamera, Inv_set_cameraError, HI.
  - destruct (nth_error (pendingCaptures w) k) as [[|]|]; try exact H.
    cbv zeta. apply Inv2_set_pendingCaptures, Inv2_handleTakePhoto_finally, H.
Qed.

Lemma Inv2_initial : Inv2 initial.
Proof. constructor; cbn; [intros iv [] | discriminate]. Qed.

Theorem Inv_both_run (evs : list Event) (w : World) :
  Inv w -> Inv2 w -> Inv (run evs w) /\ Inv2 (run evs w).
Proof.
  revert w. induction evs as [|e evs IH]; intros w H H2; cbn; [auto|].
  apply IH; [apply Inv_step, H | apply Inv2_step; assumption].
Qed.

Lemma reachable_Inv (evs : list Event) :
  Inv (run evs initial) /\ Inv2 (run evs initial).
Proof. apply Inv_both_run; [apply Inv_initial | apply Inv2_initial]. Qed.

Lemma run_app (evs evs' : list Event) (w : World) :
  run (evs ++ evs') w = run evs' (run evs w).
Proof. unfold run. apply fold_left_app. Qed.

(** ** Closing the camera *)

(** At the moment [handleCloseCamera] returns, in every state the
    screen can reach, the readiness state has its initial values: the
    alignment score, the fiducial count and quality are 0, the
    fiducial-ready flag is false, the countdown is 0, the lock is
    released, the motion listener is removed and no countdown or
    fiducial-poll interval remains registered. Promises that are still
    pending are not part of this state. *)
Theorem close_resets (evs : list Event) :
  let w' := handleCloseCamera (run evs initial) in
  alignmentScore w' = 0
  /\ fiducialCount w' = 0
  /\ fiducialQuality w' = 0
  /\ fiducialReady w' = false
  /\ autoCaptureCountdown w' = 0%Z
  /\ autoCaptureLockRef w' = false
  /\ accelerometerSubscriptionRef w' = None
  /\ listeners w' = []
  /\ autoCaptureTimerRef w' = None
  /\ fiducialCheckIntervalRef w' = None
  /\ intervals w' = []
  /\ readiness w' = readiness initial.
Proof.
  intros w'. subst w'.
  destruct (reachable_Inv evs) as [H _].
  destruct (handleCloseCamera_clears _ H) as [E1 E2].
  revert E1 E2. generalize (run evs initial). intros w E1 E2.
  unfold readiness. rewrite E1, E2.
  clear. unfold handleCloseCamera, stopAlignmentMonitoring, clearAutoCaptureTimer.
  destruct w as [? ? ? ? ? ? ? ? ? ? ? sub tr ? ? fi ? ivs ? ls ? ? ? ? ?].
  destruct sub, tr, fi; splits; reflexivity.
Qed.

(** ** Fiducial checks *)

Ltac break_match :=
  repeat match goal with
         | |- context [match ?x with _ => _ end] => destruct x eqn:?; cbn
         end.

(** On a network failure [validateFiducials] returns the sentinel and
    does not throw. *)
Lemma validateFiducials_failure (asset : option Asset) (net : FetchOutcome) :
  has_uri asset = true -> network_failure net ->
  validateFiducials asset net = Returns sentinel.
Proof.
  intros Hu [-> | (s & j & ->)]; unfold validateFiducials; rewrite Hu; reflexivity.
Qed.

(** [checkFiducials] then stores the sentinel, clears its flag and leaves
    the timers as they are. *)
Lemma checkFiducials_applies_sentinel (a : Asset) (net : FetchOutcome) (w : World) :
  has_uri (Some a) = true -> network_failure net ->
  let w' := checkFiducials_afterValidate a net w in
  fiducialCount w' = 0 /\ fiducialQuality w' = 0 /\ fiducialReady w' = false
  /\ fiducialCheckInProgressRef w' = false
  /\ intervals w' = intervals w
  /\ fiducialCheckIntervalRef w' = fiducialCheckIntervalRef w.
Proof.
  intros Hu Hn w'. subst w'. unfold checkFiducials_afterValidate.
  rewrite (validateFiducials_failure _ _ Hu Hn).
  destruct w; splits; reflexivity.
Qed.

(** C7, evaluated on the code. A network failure makes
    [validateFiducials] return the sentinel instead of throwing, and
    [checkFiducials] stores it and clears its in-progress flag. Polling,
    however, does not always continue: when the failure arrives while the
    engine is arming ([network_failure_trace]), the auto-capture effect
    cancels the countdown through [clearAutoCaptureTimer], which also
    clears the fiducial-poll interval. The camera is still open and ready,
    the fiducial state is the sentinel, and no interval is left to start
    another check. *)
Theorem network_failure_stops_polling :
  (forall asset net, has_uri asset = true -> network_failure net ->
     validateFiducials asset net = Returns sentinel)
  /\ (forall a net w, has_uri (Some a) = true -> network_failure net ->
        let w' := checkFiducials_afterValidate a net w in
        fiducialCount w' = 0 /\ fiducialQuality w' = 0
        /\ fiducialReady w' = false /\ fiducialCheckInProgressRef w' = false)
  /\ (let w := run network_failure_trace initial in
      cameraVisible w = true /\ cameraReady w = true
      /\ autoCaptureLockRef w = false
      /\ fiducialCount w = 0 /\ fiducialReady w = false
      /\ fiducialCheckIntervalRef w = None
      /\ intervals w = []
      /\ forall id now, step (EvInterval id now) w = w).
Proof.
  split; [exact validateFiducials_failure|]. split.
  - intros a net w Hu Hn.
    destruct (checkFiducials_applies_sentinel a net w Hu Hn) as (H1 & H2 & H3 & H4 & _).
    auto.
  - cbv zeta.
    assert (E : intervals (run network_failure_trace initial) = [])
      by (vm_compute; reflexivity).
    splits; [vm_compute; reflexivity .. |].
    intros id now. cbn [step]. unfold find_interval. rewrite E. reflexivity.
Qed.

(** The guard of [checkFiducials]: a skipped check changes nothing, so it
    takes no snapshot and updates no fiducial state. *)
Lemma checkFiducials_skipped (c : bool) (w : World) :
  checkFiducials_skips c w = true -> checkFiducials c w = w.
Proof. intros H. unfold checkFiducials. rewrite H. reflexivity. Qed.

(** C8, evaluated on the code. The guard does skip a check while another
    is in progress, while the lock is held or while the camera is not
    ready, and a skipped check changes nothing. But the in-progress flag
    is also reset by [stopAlignmentMonitoring] and
    [clearAutoCaptureTimer] while a check is still waiting for the
    service: after closing and re-opening the camera
    ([reopen_trace]) a second check starts, and two checks are in flight. *)
Theorem two_checks_in_flight :
  (forall c w,
     fiducialCheckInProgressRef w = true \/ autoCaptureLockRef w = true \/ c = false ->
     checkFiducials c w = w /\ fiducialPollCallback c w = w)
  /\ pendingChecks (run reopen_trace initial) = [AwaitValidate pic; AwaitSnapshot].
Proof.
  split; [| vm_compute; reflexivity].
  intros c w H.
  assert (Hs : checkFiducials_skips c w = true).
  { unfold checkFiducials_skips.
    destruct H as [-> | [-> | ->]]; rewrite ?orb_true_r; reflexivity. }
  split; [apply checkFiducials_skipped, Hs|].
  unfold fiducialPollCallback.
  destruct (c && negb (autoCaptureLockRef w)); [apply checkFiducials_skipped, Hs|].
  reflexivity.
Qed.

(** C10. A fiducial check that fails before the remote service answers
    leaves the fiducial state alone and does not leave the in-progress
    flag set, in every state the screen can reach: without a camera
    reference the check returns at its guard, changing nothing, and the
    flag is clear; when [takePictureAsync] rejects or gives no uri, the
    check ends there, the fiducial count, quality and ready flag are
    unchanged and the flag is cleared. Only an answer of
    [validateFiducials] is stored, the sentinel of a network failure
    included. *)
Theorem check_early_failure (evs : list Event) :
  let w := run evs initial in
  (cameraRef w = false ->
     forall c, checkFiducials c w = w /\ fiducialCheckInProgressRef w = false)
  /\ (forall r,
        r = SnapshotRejects \/ (exists s, r = SnapshotResolves s /\ has_uri s = false) ->
        let w' := snd (checkFiducials_afterSnapshot r w) in
        fst (checkFiducials_afterSnapshot r w) = None
        /\ fiducialCount w' = fiducialCount w
        /\ fiducialQuality w' = fiducialQuality w
        /\ fiducialReady w' = fiducialReady w
        /\ fiducialCheckInProgressRef w' = false)
  /\ (forall a, has_uri (Some a) = true ->
        fiducialCount (checkFiducials_afterValidate a FetchRejects w) = 0).
Proof.
  intros w. destruct (reachable_Inv evs) as [_ [_ Hg]]. fold w in Hg.
  split; [| split].
  - intros Hc c. split.
    + apply checkFiducials_skipped. unfold checkFiducials_skips. rewrite Hc. reflexivity.
    + destruct (fiducialCheckInProgressRef w); [|reflexivity].
      destruct (Hg eq_refl) as [_ Hr]. congruence.
  - intros r [-> | (s & -> & Hs)]; cbv zeta; unfold checkFiducials_afterSnapshot.
    + destruct w; splits; reflexivity.
    + destruct s as [a|]; [rewrite Hs|]; destruct w; splits; reflexivity.
  - intros a Hu.
    apply (checkFiducials_applies_sentinel a FetchRejects w Hu). left. reflexivity.
Qed.

(** ** One trigger per arm cycle *)

Lemma triggers_set_cameraVisible v w : triggers (set_cameraVisible v w) = triggers w.
Proof. reflexivity. Qed.
Lemma triggers_set_cameraReady v w : triggers (set_cameraReady v w) = triggers w.
Proof. reflexivity. Qed.
Lemma triggers_set_autoCaptureEnabled v w : triggers (set_autoCaptureEnabled v w) = triggers w.
Proof. reflexivity. Qed.
Lemma triggers_set_alignmentScore v w : triggers (set_alignmentScore v w) = triggers w.
Proof. reflexivity. Qed.
Lemma triggers_set_alignmentStatus v w : triggers (set_alignmentStatus v w) = triggers w.
Proof. reflexivity. Qed.
Lemma triggers_set_autoCaptureCountdown v w : triggers (set_autoCaptureCountdown v w) = triggers w.
Proof. reflexivity. Qed.
Lemma triggers_set_fiducialCount v w : triggers (set_fiducialCount v w) = triggers w.
Proof. reflexivity. Qed.
Lemma triggers_set_fiducialQuality v w : triggers (set_fiducialQuality v w) = triggers w.
Proof. reflexivity. Qed.
Lemma triggers_set_fiducialReady v w : triggers (set_fiducialReady v w) = triggers w.
Proof. reflexivity. Qed.
Lemma triggers_set_cameraError v w : triggers (set_cameraError v w) = triggers w.
Proof. reflexivity. Qed.
Lemma triggers_set_cameraRef v w : triggers (set_cameraRef v w) = triggers w.
Proof. reflexivity. Qed.
Lemma triggers_set_accelerometerSubscriptionRef v w : triggers (set_accelerometerSubscriptionRef v w) = triggers w.
Proof. reflexivity. Qed.
Lemma triggers_set_autoCaptureTimerRef v w : triggers (set_autoCaptureTimerRef v w) = triggers w.
Proof. reflexivity. Qed.
Lemma triggers_set_autoCaptureLockRef v w : triggers (set_autoCaptureLockRef v w) = triggers w.
Proof. reflexivity. Qed.
Lemma triggers_set_lastAccelSampleRef v w : triggers (set_lastAccelSampleRef v w) = triggers w.
Proof. reflexivity. Qed.
Lemma triggers_set_fiducialCheckIntervalRef v w : triggers (set_fiducialCheckIntervalRef v w) = triggers w.
Proof. reflexivity. Qed.
Lemma triggers_set_fiducialCheckInProgressRef v w : triggers (set_fiducialCheckInProgressRef v w) = triggers w.
Proof. reflexivity. Qed.
Lemma triggers_set_intervals v w : triggers (set_intervals v w) = triggers w.
Proof. reflexivity. Qed.
Lemma triggers_set_nextTimer v w : triggers (set_nextTimer v w) = triggers w.
Proof. reflexivity. Qed.
Lemma triggers_set_listeners v w : triggers (set_listeners v w) = triggers w.
Proof. reflexivity. Qed.
Lemma triggers_set_nextSub v w : triggers (set_nextSub v w) = triggers w.
Proof. reflexivity. Qed.
Lemma triggers_set_sessionCleanup v w : triggers (set_sessionCleanup v w) = triggers w.
Proof. reflexivity. Qed.
Lemma triggers_set_pendingChecks v w : triggers (set_pendingChecks v w) = triggers w.
Proof. reflexivity. Qed.
Lemma triggers_set_pendingCaptures v w : triggers (set_pendingCaptures v w) = triggers w.
Proof. reflexivity. Qed.
Lemma triggers_set_triggers v w : triggers (set_triggers v w) = v.
Proof. reflexivity. Qed.

Create Rewrite HintDb trig.
#[local] Hint Rewrite
  triggers_set_cameraVisible
  triggers_set_cameraReady
  triggers_set_autoCaptureEnabled
  triggers_set_alignmentScore
  triggers_set_alignmentStatus
  triggers_set_autoCaptureCountdown
  triggers_set_fiducialCount
  triggers_set_fiducialQuality
  triggers_set_fiducialReady
  triggers_set_cameraError
  triggers_set_cameraRef
  triggers_set_accelerometerSubscriptionRef
  triggers_set_autoCaptureTimerRef
  triggers_set_autoCaptureLockRef
  triggers_set_lastAccelSampleRef
  triggers_set_fiducialCheckIntervalRef
  triggers_set_fiducialCheckInProgressRef
  triggers_set_intervals
  triggers_set_nextTimer
  triggers_set_listeners
  triggers_set_nextSub
  triggers_set_sessionCleanup
  triggers_set_pendingChecks
  triggers_set_pendingCaptures
  triggers_set_triggers : trig.

Ltac trig_simpl :=
  cbv zeta;
  unfold setInterval, addListener, clearInterval, removeListener;
  autorewrite with trig.

Lemma triggers_clearAutoCaptureTimer (p : bool) (w : World) :
  triggers (clearAutoCaptureTimer p w) = triggers w.
Proof. apply clearAutoCaptureTimer_frame. Qed.

Lemma triggers_stopAlignmentMonitoring (w : World) :
  triggers (stopAlignmentMonitoring w) = triggers w.
Proof.
  unfold stopAlignmentMonitoring.
  destruct (accelerometerSubscriptionRef w); trig_simpl;
    match goal with |- context [match ?o with _ => _ end] => destruct o end;
    reflexivity.
Qed.

Ltac trig :=
  trig_simpl;
  repeat first
    [ progress autorewrite with trig
    | rewrite triggers_clearAutoCaptureTimer
    | rewrite triggers_stopAlignmentMonitoring
    | match goal with
      | |- context [triggers (if ?b then _ else _)] => destruct b
      | |- context [triggers (match ?o with _ => _ end)] => destruct o
      end ].

Lemma triggers_handleCloseCamera (w : World) :
  triggers (handleCloseCamera w) = triggers w.
Proof. unfold handleCloseCamera. trig. reflexivity. Qed.

Lemma triggers_resetMonitoring (w : World) :
  triggers (resetMonitoring w) = triggers w.
Proof. unfold resetMonitoring. trig. reflexivity. Qed.

Lemma triggers_handleTakePhoto (c a : bool) (w : World) :
  triggers (handleTakePhoto c a w) = triggers w.
Proof. unfold handleTakePhoto. trig; reflexivity. Qed.

Lemma triggers_monitoringEffect (w : World) :
  triggers (monitoringEffect w) = triggers w.
Proof.
  unfold monitoringEffect, monitoringEffect_body.
  destruct (sessionCleanup w);
    match goal with |- context [negb ?b] => destruct b end; cbn [negb];
    trig; rewrite ?triggers_resetMonitoring; reflexivity.
Qed.

Lemma triggers_autoCaptureEffect (now : Z) (w : World) :
  triggers (autoCaptureEffect now w) = triggers w.
Proof. unfold autoCaptureEffect. trig; reflexivity. Qed.






(** * Binary64 arithmetic of the alignment score *)




Lemma Prim2SF_zero : Prim2SF 0 = S754_zero false.
Proof. reflexivity. Qed.
Lemma Prim2SF_one : Prim2SF 1 = S754_finite false 4503599627370496 (-52).
Proof. reflexivity. Qed.


Lemma SFcompare_refl m e s : SFcompare (S754_finite s m e) (S754_finite s m e) = Some Eq.
Proof.
  simpl. destruct s; rewrite Z.compare_refl, Pos.compare_cont_refl; reflexivity.
Qed.

Lemma is_nan_spec x : is_nan x = SFis_nan (Prim2SF x).
Proof.
  unfold is_nan. rewrite FloatAxioms.eqb_spec. unfold SFeqb.
  destruct (Prim2SF x) as [s|s| |s m e]; try (destruct s; reflexivity); try reflexivity.
  rewrite SFcompare_refl. reflexivity.
Qed.

Lemma leb0_spec x : (0 <=? x) = SFnonneg (Prim2SF x).
Proof.
  rewrite FloatAxioms.leb_spec, Prim2SF_zero. unfold SFleb.
  destruct (Prim2SF x) as [s|s| |s m e]; try (destruct s; reflexivity); reflexivity.
Qed.

Section Rounding.
Variables prec emax : Z.

Lemma shr_1_nonneg mrs : (0 <= shr_m mrs)%Z -> (0 <= shr_m (shr_1 mrs))%Z.
Proof.
  destruct mrs as [m r s]. simpl. destruct m as [|p|p]; simpl; try lia.
  - destruct p; simpl; lia.
Qed.

Lemma iter_shr_1_nonneg p : forall mrs,
  (0 <= shr_m mrs)%Z -> (0 <= shr_m (iter_pos shr_1 p mrs))%Z.
Proof.
  induction p as [p IH|p IH|]; intros mrs H; simpl.
  - apply IH, IH, shr_1_nonneg, H.
  - apply IH, IH, H.
  - apply shr_1_nonneg, H.
Qed.

Lemma shr_nonneg mrs e n :
  (0 <= shr_m mrs)%Z -> (0 <= shr_m (fst (shr mrs e n)))%Z.
Proof.
  intros H. unfold shr. destruct n; simpl; auto. apply iter_shr_1_nonneg, H.
Qed.

Lemma shr_fexp_nonneg m e l :
  (0 <= m)%Z -> (0 <= shr_m (fst (shr_fexp prec emax m e l)))%Z.
Proof.
  intros H. unfold shr_fexp. apply shr_nonneg.
  destruct l as [|[]]; simpl; exact H.
Qed.

Lemma round_nearest_even_nonneg m l :
  (0 <= m)%Z -> (0 <= round_nearest_even m l)%Z.
Proof.
  intros H. unfold round_nearest_even.
  destruct l as [|[]]; try lia. destruct (Z.even m); lia.
Qed.

Lemma binary_round_aux_signed sx mx ex lx :
  (0 <= mx)%Z -> SFsigned sx (binary_round_aux prec emax sx mx ex lx).
Proof.
  intros H. unfold binary_round_aux.
  pose proof (shr_fexp_nonneg mx ex lx H) as H1.
  destruct (shr_fexp prec emax mx ex lx) as [mrs' e']. simpl in H1.
  pose proof (round_nearest_even_nonneg _ (loc_of_shr_record mrs') H1) as H2.
  pose proof (shr_fexp_nonneg _ e' loc_Exact H2) as H3.
  destruct (shr_fexp prec emax _ e' loc_Exact) as [mrs'' e'']. simpl in H3.
  destruct (shr_m mrs'') as [|p|p].
  - left. reflexivity.
  - destruct (Z.leb e'' (emax - prec)); right; [right; eauto | left; reflexivity].
  - lia.
Qed.

Lemma binary_round_signed sx mx ex :
  SFsigned sx (binary_round prec emax sx mx ex).
Proof.
  unfold binary_round. destruct (shl_align mx ex _) as [mz ez].
  apply binary_round_aux_signed. lia.
Qed.

End Rounding.



Lemma is_finite_spec x : is_finite x = SFis_finite (Prim2SF x).
Proof.
  unfold is_finite, is_infinity. rewrite is_nan_spec, FloatAxioms.eqb_spec, FloatAxioms.abs_spec.
  change (Prim2SF infinity) with (S754_infinity false).
  destruct (Prim2SF x) as [s|s| |s m e]; reflexivity.
Qed.

Lemma SFcompare_antisym a b :
  SFis_nan a = false -> SFis_nan b = false ->
  SFcompare b a = match SFcompare a b with Some c => Some (CompOpp c) | None => None end.
Proof.
  destruct a as [sa|sa| |sa ma ea], b as [sb|sb| |sb mb eb]; simpl;
    try discriminate; intros _ _;
    try (destruct sa; reflexivity); try (destruct sb; reflexivity);
    try (destruct sa, sb; reflexivity).
  destruct sa, sb; try reflexivity;
    rewrite (Z.compare_antisym ea eb);
    destruct (Z.compare ea eb); simpl; try reflexivity;
    rewrite (Pos.compare_cont_antisym); simpl;
    destruct (Pos.compare_cont Eq ma mb); reflexivity.
Qed.

Lemma ltb_leb a b : (a <? b) = true -> (a <=? b) = true.
Proof.
  rewrite FloatAxioms.ltb_spec, FloatAxioms.leb_spec. unfold SFltb, SFleb.
  destruct (SFcompare _ _) as [[]|]; auto.
Qed.

Lemma not_lt_le a b :
  notnan a -> notnan b -> (a <? b) = false -> (b <? a) = false ->
  (a <=? b) = true /\ (b <=? a) = true.
Proof.
  unfold notnan. rewrite !is_nan_spec, !FloatAxioms.ltb_spec, !FloatAxioms.leb_spec.
  intros Ha Hb. unfold SFltb, SFleb.
  rewrite (SFcompare_antisym _ _ Ha Hb).
  destruct (SFcompare (Prim2SF a) (Prim2SF b)) as [[]|] eqn:E; simpl; auto; try discriminate.
  destruct (Prim2SF a) as [sa|sa| |sa ma ea], (Prim2SF b) as [sb|sb| |sb mb eb];
    simpl in *; discriminate.
Qed.

Lemma nonneg_notnan a : nonneg a -> notnan a.
Proof.
  unfold nonneg, notnan. rewrite leb0_spec, is_nan_spec.
  destruct (Prim2SF a); simpl; auto; discriminate.
Qed.

Lemma leb_notnan_l a b : (a <=? b) = true -> notnan a.
Proof.
  unfold notnan. rewrite FloatAxioms.leb_spec, is_nan_spec. unfold SFleb.
  destruct (Prim2SF a), (Prim2SF b); simpl; auto; discriminate.
Qed.

Lemma leb_notnan_r a b : (a <=? b) = true -> notnan b.
Proof.
  unfold notnan. rewrite FloatAxioms.leb_spec, is_nan_spec. unfold SFleb.
  destruct (Prim2SF a) as [[]|[]| |[]], (Prim2SF b); simpl; auto; discriminate.
Qed.

Lemma min1_unit a : nonneg a -> in_unit (JS.Math_min 1 a).
Proof.
  intros Ha. pose proof (nonneg_notnan a Ha) as Hn.
  unfold JS.Math_min. change (is_nan 1) with false. rewrite Hn. cbn [orb].
  destruct (1 <? a) eqn:E1; [split; reflexivity|].
  destruct (a <? 1) eqn:E2; [split; [exact Ha | apply ltb_leb, E2]|].
  change (get_sign 1) with false. cbn.
  split; [exact Ha|]. apply (not_lt_le 1 a); auto. reflexivity.
Qed.

Lemma clamp_unit s : notnan s -> in_unit (JS.Math_max 0 (JS.Math_min 1 s)).
Proof.
  intros Hn.
  assert (Ht : notnan (JS.Math_min 1 s) /\ (JS.Math_min 1 s <=? 1) = true).
  { unfold JS.Math_min. change (is_nan 1) with false. rewrite Hn. cbn [orb].
    destruct (1 <? s) eqn:E1; [split; reflexivity|].
    destruct (s <? 1) eqn:E2; [split; [exact Hn | apply ltb_leb, E2]|].
    change (get_sign 1) with false. cbn.
    split; [exact Hn|]. apply (not_lt_le 1 s); auto. reflexivity. }
  destruct Ht as [Ht1 Ht2]. set (t := JS.Math_min 1 s) in *.
  unfold JS.Math_max. change (is_nan 0) with false. rewrite Ht1. cbn [orb].
  destruct (0 <? t) eqn:E1; [split; [apply ltb_leb, E1 | exact Ht2]|].
  destruct (t <? 0) eqn:E2; [split; reflexivity|].
  change (get_sign 0) with false. cbn. split; reflexivity.
Qed.

Lemma max_floor s : notnan s -> (1e-3 <=? JS.Math_max 1e-3 s) = true.
Proof.
  intros Hn. unfold JS.Math_max. change (is_nan 1e-3) with false. rewrite Hn. cbn [orb].
  destruct (1e-3 <? s) eqn:E1; [apply ltb_leb, E1|].
  destruct (s <? 1e-3) eqn:E2; [reflexivity|].
  change (get_sign 1e-3) with false. cbn. reflexivity.
Qed.

Section Ops.
Let prec := FloatOps.prec.
Let emax := FloatOps.emax.

Lemma SFsigned_notnan sx s : SFsigned sx s -> SFis_nan s = false.
Proof. intros [-> | [-> | (m & e & ->)]]; reflexivity. Qed.

Lemma SFsigned_nonneg s : SFsigned false s -> SFnonneg s = true.
Proof. intros [-> | [-> | (m & e & ->)]]; reflexivity. Qed.

Lemma binary_normalize_notnan m e sz :
  SFis_nan (binary_normalize prec emax m e sz) = false.
Proof.
  destruct m; simpl; [reflexivity | |];
    eapply SFsigned_notnan, binary_round_signed.
Qed.

Lemma SFmul_sq a : SFis_nan a = false -> SFnonneg (SFmul prec emax a a) = true.
Proof.
  destruct a as [s|s| |s m e]; simpl; intros H; try discriminate.
  - destruct s; reflexivity.
  - destruct s; reflexivity.
  - apply SFsigned_nonneg. replace false with (xorb s s) by (destruct s; reflexivity).
    apply binary_round_aux_signed. lia.
Qed.

Lemma SFmul_nonneg a b :
  SFnonneg a = true -> SFnonneg b = true ->
  SFis_finite a = true -> SFis_finite b = true ->
  SFnonneg (SFmul prec emax a b) = true.
Proof.
  destruct a as [sa|sa| |sa ma ea], b as [sb|sb| |sb mb eb]; simpl;
    try discriminate; intros Ha Hb _ _; try reflexivity.
  apply negb_true_iff in Ha, Hb. subst.
  apply SFsigned_nonneg, binary_round_aux_signed. lia.
Qed.

Lemma SFadd_nonneg a b :
  SFnonneg a = true -> SFnonneg b = true -> SFnonneg (SFadd prec emax a b) = true.
Proof.
  destruct a as [sa|sa| |sa ma ea], b as [sb|sb| |sb mb eb]; simpl;
    try discriminate; intros Ha Hb; try (apply negb_true_iff in Ha);
    try (apply negb_true_iff in Hb); subst; try reflexivity;
    try (destruct sa; reflexivity); try (destruct sb; reflexivity);
    try (destruct sa, sb; reflexivity).
  apply SFsigned_nonneg.
  destruct (shl_align ma ea (Z.min ea eb)) as [ma' ea'].
  destruct (shl_align mb eb (Z.min ea eb)) as [mb' eb']. simpl.
  apply binary_round_signed.
Qed.

Lemma Zsqrtrem_nonneg m : (0 <= m)%Z -> (0 <= fst (Z.sqrtrem m))%Z.
Proof.
  intros H. pose proof (Z.sqrtrem_spec m H) as Hs.
  destruct (Z.sqrtrem m) as [q r]. simpl. nia.
Qed.

Lemma SFsqrt_nonneg a : SFnonneg a = true -> SFnonneg (SFsqrt prec emax a) = true.
Proof.
  destruct a as [sa|sa| |sa ma ea]; simpl; try discriminate; intros Ha;
    try (apply negb_true_iff in Ha; subst); try reflexivity.
  unfold SFsqrt_core_binary.
  set (e' := Z.min _ _). set (s := (ea - 2 * e')%Z).
  set (m' := match s with Z0 => Zpos ma | Zpos _ => Z.shiftl (Zpos ma) s | Zneg _ => 0%Z end).
  assert (Hm : (0 <= m')%Z).
  { subst m'. destruct s; try lia. apply Z.shiftl_nonneg. lia. }
  pose proof (Zsqrtrem_nonneg m' Hm) as Hq.
  destruct (Z.sqrtrem m') as [q r]. simpl in Hq.
  apply SFsigned_nonneg, binary_round_aux_signed, Hq.
Qed.

Lemma SFdiv_core_nonneg m1 e1 m2 e2 :
  (0 <= fst (fst (SFdiv_core_binary prec emax (Zpos m1) e1 (Zpos m2) e2)))%Z.
Proof.
  unfold SFdiv_core_binary.
  set (e' := Z.min _ _). set (s := (e1 - e2 - e')%Z).
  set (m' := match s with Z0 => Zpos m1 | Zpos _ => Z.shiftl (Zpos m1) s | Zneg _ => 0%Z end).
  assert (Hm : (0 <= m')%Z).
  { subst m'. destruct s; try lia. apply Z.shiftl_nonneg. lia. }
  pose proof (Z_div_mod m' (Zpos m2) ltac:(lia)) as Hd.
  destruct (Z.div_eucl m' (Zpos m2)) as [q r]. simpl.
  destruct Hd as [Hd1 Hd2]. nia.
Qed.


Lemma SFdiv_notnan a b :
  SFis_finite a = true -> SFpos b = true -> SFis_nan (SFdiv prec emax a b) = false.
Proof.
  destruct a as [sa|sa| |sa ma ea], b as [sb|[]| |[] mb eb]; simpl;
    try discriminate; intros _ _; try reflexivity.
  pose proof (SFdiv_core_nonneg ma ea mb eb) as H.
  destruct (SFdiv_core_binary prec emax (Zpos ma) ea (Zpos mb) eb) as [[mz ez] lz].
  simpl in H. eapply SFsigned_notnan, binary_round_aux_signed, H.
Qed.

Lemma SFdiv_nonneg a mb eb :
  SFnonneg a = true ->
  SFnonneg (SFdiv prec emax a (S754_finite false mb eb)) = true.
Proof.
  destruct a as [sa|sa| |sa ma ea]; simpl; try discriminate; intros Ha;
    try (apply negb_true_iff in Ha; subst); try reflexivity.
  pose proof (SFdiv_core_nonneg ma ea mb eb) as H.
  destruct (SFdiv_core_binary prec emax (Zpos ma) ea (Zpos mb) eb) as [[mz ez] lz].
  simpl in H. apply SFsigned_nonneg, binary_round_aux_signed, H.
Qed.

Lemma SFsub_notnan a b :
  SFis_nan a = false -> SFis_nan b = false ->
  SFis_finite a = true \/ SFis_finite b = true ->
  SFis_nan (SFsub prec emax a b) = false.
Proof.
  destruct a as [sa|sa| |sa ma ea], b as [sb|sb| |sb mb eb]; simpl;
    try discriminate; intros _ _ [H|H]; try discriminate H; try reflexivity;
    try (destruct sa, sb; reflexivity); try (destruct sa; reflexivity);
    apply binary_normalize_notnan.
Qed.

Lemma SFabs_nonneg a : SFis_nan a = false -> SFnonneg (SFabs a) = true.
Proof. destruct a; simpl; try discriminate; reflexivity. Qed.

End Ops.

(** * Rounding never jumps over a representable number *)

Local Open Scope Z_scope.

Lemma digits2_pos_bounds (m : positive) :
  2 ^ (Zpos (digits2_pos m) - 1) <= Zpos m < 2 ^ Zpos (digits2_pos m).
Proof.
  induction m as [m IH|m IH|]; simpl digits2_pos.
  - rewrite Pos2Z.inj_succ.
    replace (Z.succ (Zpos (digits2_pos m)) - 1) with (Z.succ (Zpos (digits2_pos m) - 1)) by lia.
    rewrite !Z.pow_succ_r by lia. lia.
  - rewrite Pos2Z.inj_succ.
    replace (Z.succ (Zpos (digits2_pos m)) - 1) with (Z.succ (Zpos (digits2_pos m) - 1)) by lia.
    rewrite !Z.pow_succ_r by lia. lia.
  - simpl. lia.
Qed.


Lemma shifted_shr_1 m0 k mrs :
  0 <= m0 -> 0 <= k -> shifted m0 k mrs -> shifted m0 (k + 1) (shr_1 mrs).
Proof.
  intros Hm Hk [Hq Hex].
  assert (Hpow : 2 ^ (k + 1) = 2 ^ k * 2) by (rewrite Z.pow_add_r by lia; reflexivity).
  assert (Hpos : 0 < 2 ^ k) by (apply Z.pow_pos_nonneg; lia).
  assert (Hdiv : m0 / 2 ^ (k + 1) = (m0 / 2 ^ k) / 2).
  { rewrite Hpow, Z.div_div by lia. reflexivity. }
  assert (Hmod : m0 mod 2 ^ (k + 1) = 0 -> m0 mod 2 ^ k = 0 /\ (m0 / 2 ^ k) mod 2 = 0).
  { intros H0. rewrite Hpow in H0.
    rewrite Z.rem_mul_r in H0 by lia.
    pose proof (Z.mod_pos_bound m0 (2 ^ k) Hpos).
    pose proof (Z.mod_pos_bound (m0 / 2 ^ k) 2 ltac:(lia)).
    nia. }
  destruct mrs as [m r s]. simpl in Hq, Hex. subst m.
  set (q := m0 / 2 ^ k) in *.
  assert (Hq0 : 0 <= q) by (apply Z.div_pos; lia).
  unfold shifted. rewrite Hdiv. fold q.
  destruct q as [|p|p]; [| |lia].
  - simpl. split; [reflexivity|]. intros H0. destruct (Hmod H0) as [H1 _].
    destruct (Hex H1) as [-> ->]. auto.
  - destruct p as [p|p|]; simpl shr_1; simpl shr_m; simpl shr_r; simpl shr_s.
    + split; [rewrite Pos2Z.inj_xI; apply Z.div_unique with 1; lia|].
      intros H0. destruct (Hmod H0) as [_ H2]. rewrite Pos2Z.inj_xI in H2.
      rewrite Z.add_comm, Z.mul_comm, Z.mod_add in H2 by lia. discriminate H2.
    + split; [rewrite Pos2Z.inj_xO; apply Z.div_unique with 0; lia|].
      intros H0. destruct (Hmod H0) as [H1 _]. destruct (Hex H1) as [-> ->]. auto.
    + split; [reflexivity|].
      intros H0. destruct (Hmod H0) as [_ H2]. discriminate H2.
Qed.

Lemma shifted_iter m0 p : forall k mrs,
  0 <= m0 -> 0 <= k -> shifted m0 k mrs ->
  shifted m0 (k + Zpos p) (iter_pos shr_1 p mrs).
Proof.
  induction p as [p IH|p IH|]; intros k mrs Hm Hk H; simpl iter_pos.
  - replace (k + Zpos p~1) with ((k + 1 + Zpos p) + Zpos p) by lia.
    apply IH; try lia. apply IH; try lia. apply shifted_shr_1; auto.
  - replace (k + Zpos p~0) with ((k + Zpos p) + Zpos p) by lia.
    apply IH; try lia. apply IH; auto.
  - apply shifted_shr_1; auto.
Qed.

Lemma shifted_init m0 : shifted m0 0 (shr_record_of_loc m0 loc_Exact).
Proof.
  unfold shifted. simpl. rewrite Z.div_1_r. auto.
Qed.

(** [shr] on an exact record: quotient, new exponent, exactness. *)
Lemma shr_exact m0 e n :
  0 <= m0 ->
  let '(mrs, e') := shr (shr_record_of_loc m0 loc_Exact) e n in
  (n <= 0 -> mrs = shr_record_of_loc m0 loc_Exact /\ e' = e)
  /\ (0 < n -> shifted m0 n mrs /\ e' = e + n).
Proof.
  intros Hm. unfold shr. destruct n as [|p|p].
  - split; [auto | lia].
  - split; [lia|]. intros _. split; [|reflexivity].
    apply (shifted_iter m0 p 0); try lia. apply shifted_init.
  - split; [auto | lia].
Qed.


Lemma magnitude_le (m mf : positive) (e ef : Z) :
  below (Zpos m) e (Zpos mf) ef ->
  Zpos (digits2_pos m) + e <= Zpos (digits2_pos mf) + ef.
Proof.
  intros [He Hm].
  pose proof (digits2_pos_bounds m) as [H1 _].
  pose proof (digits2_pos_bounds mf) as [_ H2].
  assert (Hlt : 2 ^ (Zpos (digits2_pos m) - 1) < 2 ^ (Zpos (digits2_pos mf) + (ef - e))).
  { rewrite Z.pow_add_r by lia.
    assert (0 < 2 ^ (ef - e)) by (apply Z.pow_pos_nonneg; lia). nia. }
  apply Z.pow_lt_mono_r_iff in Hlt; lia.
Qed.

Lemma round_nearest_even_le m l : round_nearest_even m l <= m + 1.
Proof. destruct l as [|[]]; simpl; try lia. destruct (Z.even m); lia. Qed.

Section RoundBelow.
Variables prec emax : Z.

Lemma fexp_mono a b : a <= b -> fexp prec emax a <= fexp prec emax b.
Proof. unfold fexp. lia. Qed.

Lemma round_below sx mx ex (mf : positive) ef :
  0 < mx ->
  canonical_mantissa prec emax mf ef = true ->
  ef <= emax - prec ->
  below mx ex (Zpos mf) ef ->
  let r := binary_round_aux prec emax sx mx ex loc_Exact in
  r = S754_zero sx
  \/ exists mr er, r = S754_finite sx mr er /\ below (Zpos mr) er (Zpos mf) ef.
Proof.
  intros Hmx Hcan Hef Hb r. subst r.
  unfold canonical_mantissa in Hcan. apply Z.eqb_eq in Hcan.
  unfold binary_round_aux, shr_fexp.
  destruct mx as [|mx|mx]; try lia.
  simpl Zdigits2.
  set (e1 := fexp prec emax (Zpos (digits2_pos mx) + ex)).
  pose proof (shr_exact (Zpos mx) ex (e1 - ex) ltac:(lia)) as Hs.
  destruct (shr (shr_record_of_loc (Zpos mx) loc_Exact) ex (e1 - ex)) as [mrs' e'].
  destruct Hs as [Hs0 Hs1].
  set (m1 := round_nearest_even (shr_m mrs') (loc_of_shr_record mrs')).
  assert (HA : 0 <= m1 /\ below m1 e' (Zpos mf) ef).
  { destruct (Z_le_gt_dec (e1 - ex) 0) as [Hn|Hn].
    - destruct (Hs0 Hn) as [-> ->]. subst m1. simpl. split; [lia | exact Hb].
    - destruct (Hs1 ltac:(lia)) as [[Hq Hex] ->].
      assert (He1 : e1 <= ef).
      { rewrite <- Hcan. apply fexp_mono, magnitude_le, Hb. }
      destruct Hb as [Hb1 Hb2].
      set (n := e1 - ex) in *.
      assert (Hpn : 0 < 2 ^ n) by (apply Z.pow_pos_nonneg; lia).
      assert (Hsplit : 2 ^ (ef - ex) = 2 ^ (ef - e1) * 2 ^ n).
      { rewrite <- Z.pow_add_r by lia. f_equal. lia. }
      pose proof (Z.div_mod (Zpos mx) (2 ^ n) ltac:(lia)) as Hdm.
      pose proof (Z.mod_pos_bound (Zpos mx) (2 ^ n) Hpn) as Hmb.
      assert (Hq0 : 0 <= shr_m mrs') by (rewrite Hq; apply Z.div_pos; lia).
      split.
      { subst m1. apply round_nearest_even_nonneg, Hq0. }
      split; [lia|].
      replace (ex + n) with e1 by lia.
      destruct (Z.eq_dec (Zpos mx mod 2 ^ n) 0) as [Hz|Hnz].
      + destruct (Hex Hz) as [Hr Hst]. subst m1.
        destruct mrs' as [m r s]. cbn [shr_m shr_r shr_s] in *. subst r s.
        cbn [loc_of_shr_record round_nearest_even].
        apply (Z.mul_le_mono_pos_r _ _ (2 ^ n) Hpn).
        rewrite <- Z.mul_assoc, <- Hsplit. rewrite Hq. lia.
      + pose proof (round_nearest_even_le (shr_m mrs') (loc_of_shr_record mrs')) as Hr.
        fold m1 in Hr.
        assert (Hlt : shr_m mrs' < Zpos mf * 2 ^ (ef - e1)).
        { apply (Z.mul_lt_mono_pos_r (2 ^ n) _ _ Hpn).
          rewrite <- Z.mul_assoc, <- Hsplit. rewrite Hq. lia. }
        lia. }
  destruct HA as [Hm1 Hb1].
  pose proof (shr_exact m1 e' (fexp prec emax (Zdigits2 m1 + e') - e') Hm1) as Hs'.
  destruct (shr (shr_record_of_loc m1 loc_Exact) e'
              (fexp prec emax (Zdigits2 m1 + e') - e')) as [mrs'' e''].
  destruct Hs' as [Hs0' Hs1'].
  assert (HB : 0 <= shr_m mrs'' /\ (0 < shr_m mrs'' -> below (shr_m mrs'') e'' (Zpos mf) ef)).
  { destruct (Z_le_gt_dec (fexp prec emax (Zdigits2 m1 + e') - e') 0) as [Hn|Hn].
    - destruct (Hs0' Hn) as [-> ->]. simpl. auto.
    - destruct (Hs1' ltac:(lia)) as [[Hq _] ->].
      set (n := fexp prec emax (Zdigits2 m1 + e') - e') in *.
      assert (Hpn : 0 < 2 ^ n) by (apply Z.pow_pos_nonneg; lia).
      split; [rewrite Hq; apply Z.div_pos; lia|].
      intros Hpos.
      assert (Hm1p : 0 < m1).
      { destruct (Z.eq_dec m1 0) as [E|E]; [|lia].
        rewrite E in Hq. rewrite Z.div_0_l in Hq by lia. lia. }
      destruct m1 as [|p1|p1]; try lia.
      assert (He2 : e' + n <= ef).
      { subst n. simpl Zdigits2 in *.
        replace (e' + (fexp prec emax (Zpos (digits2_pos p1) + e') - e'))
          with (fexp prec emax (Zpos (digits2_pos p1) + e')) by lia.
        rewrite <- Hcan. apply fexp_mono, magnitude_le, Hb1. }
      split; [exact He2|].
      destruct Hb1 as [_ Hb1].
      assert (Hsplit : 2 ^ (ef - e') = 2 ^ (ef - (e' + n)) * 2 ^ n).
      { rewrite <- Z.pow_add_r by lia. f_equal. lia. }
      rewrite Hq.
      apply Z.div_le_upper_bound; [lia|].
      rewrite (Z.mul_comm (2 ^ n)), <- Z.mul_assoc, <- Hsplit. exact Hb1. }
  destruct HB as [HB0 HB1].
  destruct (shr_m mrs'') as [|m|m] eqn:Em; [left; reflexivity | | lia].
  specialize (HB1 ltac:(lia)).
  assert (Hle : (e'' <=? emax - prec) = true).
  { apply Z.leb_le. destruct HB1. lia. }
  rewrite Hle. right. exists m, e''. auto.
Qed.

End RoundBelow.

(** * The blend stays below one *)

Section Blend.
Let prec := FloatOps.prec.
Let emax := FloatOps.emax.


Lemma canonical_digits (m : positive) (e : Z) :
  canonical_mantissa prec emax m e = true -> Zpos (digits2_pos m) <= 53.
Proof.
  unfold canonical_mantissa, fexp. intros H. apply Z.eqb_eq in H.
  change prec with 53 in H. lia.
Qed.

Lemma valid_canonical s m e :
  valid_binary (S754_finite s m e) = true ->
  canonical_mantissa prec emax m e = true /\ e <= emax - prec.
Proof.
  simpl. unfold bounded. intros H. apply andb_true_iff in H.
  destruct H as [H1 H2]. apply Z.leb_le in H2. auto.
Qed.

Lemma canonical_lt (m : positive) (e : Z) :
  canonical_mantissa prec emax m e = true -> Zpos m < 2 ^ 53.
Proof.
  intros H. apply canonical_digits in H.
  pose proof (digits2_pos_bounds m) as [_ H2].
  assert (2 ^ Zpos (digits2_pos m) <= 2 ^ 53) by (apply Z.pow_le_mono_r; lia).
  lia.
Qed.

(** A valid float in [0,1] is a zero or lies below one. *)
Lemma unit_below s :
  valid_binary s = true -> SFnonneg s = true -> SFleb s SFone = true ->
  (exists b, s = S754_zero b)
  \/ exists m e, s = S754_finite false m e /\ below (Zpos m) e 4503599627370496 (-52).
Proof.
  intros Hv Hn Hl. destruct s as [b|b| |b m e]; try discriminate.
  - left. eauto.
  - destruct b; discriminate.
  - right. destruct b; [discriminate|]. exists m, e. split; [reflexivity|].
    apply valid_canonical in Hv. destruct Hv as [Hc _].
    pose proof (canonical_lt m e Hc) as Hlt.
    unfold SFleb, SFone, SFcompare in Hl.
    destruct (Z.compare_spec e (-52)) as [E|E|E]; try discriminate.
    + subst e. split; [lia|]. change (2 ^ (-52 - -52)) with 1.
      rewrite Pos.compare_cont_spec in Hl.
      rewrite (Pos2Z.inj_compare m 4503599627370496) in Hl.
      destruct (Z.compare_spec (Zpos m) 4503599627370496) as [E|E|E];
        try discriminate Hl; rewrite Z.mul_1_r; [rewrite E; apply Z.le_refl|].
      apply Z.lt_le_incl, E.
    + split; [lia|].
      assert (2 ^ 1 <= 2 ^ (-52 - e)) by (apply Z.pow_le_mono_r; lia).
      change (2 ^ 1) with 2 in H. change (2 ^ 53) with 9007199254740992 in Hlt. nia.
Qed.

Lemma below_one_leb (m : positive) (e : Z) :
  below (Zpos m) e 4503599627370496 (-52) ->
  SFleb (S754_finite false m e) SFone = true.
Proof.
  intros [He Hm]. unfold SFleb, SFone, SFcompare.
  destruct (Z.compare_spec e (-52)) as [E|E|E]; try reflexivity; try lia.
  subst e. change (2 ^ (-52 - -52)) with 1 in Hm. rewrite Z.mul_1_r in Hm.
  rewrite Pos.compare_cont_spec.
  rewrite (Pos2Z.inj_compare m 4503599627370496).
  destruct (Z.compare_spec (Zpos m) 4503599627370496) as [E|E|E];
    try reflexivity.
  exfalso. apply (Z.lt_irrefl (Zpos m)). eapply Z.le_lt_trans; eassumption.
Qed.

(** Multiplying a number of [0,1] by a positive constant [k] gives a
    zero or a number below [k]. *)
Lemma SFmul_unit_below s (mk : positive) (ek : Z) :
  valid_binary s = true -> SFnonneg s = true -> SFleb s SFone = true ->
  valid_binary (S754_finite false mk ek) = true ->
  let r := SFmul prec emax s (S754_finite false mk ek) in
  (exists b, r = S754_zero b)
  \/ exists m e, r = S754_finite false m e /\ below (Zpos m) e (Zpos mk) ek.
Proof.
  intros Hv Hn Hl Hk r. subst r.
  destruct (unit_below s Hv Hn Hl) as [[b ->] | (m & e & -> & He & Hm)].
  - left. simpl. eauto.
  - apply valid_canonical in Hk. destruct Hk as [Hc Hb].
    simpl SFmul.
    assert (Hbelow : below (Zpos (m * mk)) (e + ek) (Zpos mk) ek).
    { split; [lia|].
      replace (ek - (e + ek)) with (- e) by lia.
      replace (-52 - e) with (- e - 52) in Hm by lia.
      rewrite Z.pow_sub_r in Hm by lia.
      change (2 ^ 52) with 4503599627370496 in Hm.
      assert (Hdiv : 4503599627370496 * (2 ^ (- e) / 4503599627370496) <= 2 ^ (- e)).
      { apply Z.mul_div_le. lia. }
      rewrite Pos2Z.inj_mul. nia. }
    destruct (round_below prec emax false (Zpos (m * mk)) (e + ek) mk ek
                ltac:(lia) Hc Hb Hbelow) as [-> | (mr & er & -> & Hr)].
    + left. eauto.
    + right. eauto.
Qed.

Lemma shift_pos_pow (d m : positive) : Zpos (Pos.iter xO m d) = Zpos m * 2 ^ Zpos d.
Proof.
  change (Pos.iter xO m d) with (shift_pos d m).
  rewrite shift_pos_correct. change (Zpower_pos 2 d) with (2 ^ Zpos d). apply Z.mul_comm.
Qed.

Lemma shl_align_spec (mx : positive) (ex ex' : Z) :
  let '(m, e) := shl_align mx ex ex' in
  e <= ex /\ Zpos m = Zpos mx * 2 ^ (ex - e) /\ (ex' <= ex -> e = ex').
Proof.
  unfold shl_align. destruct (ex' - ex) as [|d|d] eqn:E.
  - rewrite Z.sub_diag. simpl. lia.
  - rewrite Z.sub_diag. simpl. lia.
  - rewrite shift_pos_pow. replace (ex - ex') with (Zpos d) by lia. lia.
Qed.

(** A canonical number below a constant that is not a power of two, and
    different from it, lies at least one unit of the grid below. *)
Lemma below_strict (m mf : positive) (e ef g : Z) :
  canonical_mantissa prec emax m e = true ->
  2 ^ 52 < Zpos mf ->
  below (Zpos m) e (Zpos mf) ef ->
  g <= e ->
  (m <> mf \/ e <> ef) ->
  Zpos m * 2 ^ (e - g) <= (Zpos mf - 1) * 2 ^ (ef - g).
Proof.
  intros Hc Hmf [He Hm] Hg Hne.
  pose proof (canonical_lt m e Hc) as Hlt.
  assert (Hpg : 0 < 2 ^ (e - g)) by (apply Z.pow_pos_nonneg; lia).
  destruct (Z.eq_dec e ef) as [->|Hd].
  - rewrite Z.sub_diag in Hm. change (2 ^ 0) with 1 in Hm.
    assert (Zpos m <> Zpos mf) by (destruct Hne as [H|H]; congruence).
    apply Z.mul_le_mono_nonneg_r; lia.
  - assert (Hsplit : 2 ^ (ef - g) = 2 ^ (ef - e - 1) * 2 * 2 ^ (e - g)).
    { replace (ef - g) with ((ef - e - 1) + 1 + (e - g)) by lia.
      rewrite !Z.pow_add_r by lia. reflexivity. }
    assert (Hp1 : 1 <= 2 ^ (ef - e - 1)).
    { change 1 with (2 ^ 0) at 1. apply Z.pow_le_mono_r; lia. }
    rewrite Hsplit.
    change (2 ^ 53) with (2 * 2 ^ 52) in Hlt.
    set (A := 2 ^ 52) in *. set (B := 2 ^ (ef - e - 1)) in *. set (C := 2 ^ (e - g)) in *.
    assert (Zpos m <= (Zpos mf - 1) * B * 2) by nia.
    nia.
Qed.

Lemma below_scale (m mf e ef g : Z) :
  below m e mf ef -> g <= e -> m * 2 ^ (e - g) <= mf * 2 ^ (ef - g).
Proof.
  intros [He Hm] Hg.
  replace (ef - g) with ((ef - e) + (e - g)) by lia.
  rewrite Z.pow_add_r by lia. rewrite Z.mul_assoc.
  apply Z.mul_le_mono_nonneg_r; [apply Z.pow_nonneg; lia | exact Hm].
Qed.

Lemma SFadd_finite_below_one (ma mb : positive) (ea eb : Z) :
  Z.min ea eb <= -52 ->
  Zpos ma * 2 ^ (ea - Z.min ea eb) + Zpos mb * 2 ^ (eb - Z.min ea eb)
    <= 2 ^ (- Z.min ea eb) ->
  SFleb (SFadd prec emax (S754_finite false ma ea) (S754_finite false mb eb)) SFone
  = true.
Proof.
  intros Hez Hsum. cbn [SFadd cond_Zopp].
  set (ez := Z.min ea eb) in *.
  pose proof (shl_align_spec ma ea ez) as Ha.
  pose proof (shl_align_spec mb eb ez) as Hb.
  destruct (shl_align ma ea ez) as [ma' ea'].
  destruct (shl_align mb eb ez) as [mb' eb'].
  destruct Ha as (_ & Ha & Ha'). destruct Hb as (_ & Hb & Hb').
  rewrite (Ha' ltac:(lia)) in Ha. rewrite (Hb' ltac:(lia)) in Hb.
  cbn [fst]. change (Zpos ma' + Zpos mb') with (Zpos (ma' + mb')).
  cbn [binary_normalize]. unfold binary_round.
  set (e0 := fexp prec emax (Zpos (digits2_pos (ma' + mb')) + ez)).
  pose proof (shl_align_spec (ma' + mb') ez e0) as Hz.
  destruct (shl_align (ma' + mb') ez e0) as [mz ez'].
  destruct Hz as (Hz1 & Hz2 & _).
  assert (Hbelow : below (Zpos mz) ez' 4503599627370496 (-52)).
  { split; [lia|]. rewrite Hz2, Pos2Z.inj_add, Ha, Hb.
    change 4503599627370496 with (2 ^ 52). rewrite <- Z.pow_add_r by lia.
    replace (52 + (-52 - ez')) with (- ez + (ez - ez')) by lia.
    rewrite Z.pow_add_r by lia.
    apply Z.mul_le_mono_nonneg_r; [apply Z.pow_nonneg; lia | exact Hsum]. }
  destruct (round_below prec emax false (Zpos mz) ez' 4503599627370496 (-52)
              ltac:(lia) eq_refl ltac:(discriminate) Hbelow)
    as [-> | (mr & er & -> & Hr)].
  - reflexivity.
  - apply below_one_leb, Hr.
Qed.

(** The sum of a number below 0.55 and a number below 0.45 is at most
    one. *)
Lemma SFadd_below_one a b :
  valid_binary a = true -> valid_binary b = true ->
  ((exists s, a = S754_zero s)
   \/ exists m e, a = S754_finite false m e /\ below (Zpos m) e 4953959590107546 (-53)) ->
  ((exists s, b = S754_zero s)
   \/ exists m e, b = S754_finite false m e /\ below (Zpos m) e 8106479329266893 (-54)) ->
  SFleb (SFadd prec emax a b) SFone = true.
Proof.
  intros Hva Hvb [[sa ->] | (ma & ea & -> & Ha)] [[sb ->] | (mb & eb & -> & Hb)].
  - destruct sa, sb; reflexivity.
  - simpl. apply below_one_leb. destruct Hb as [Hb1 Hb2]. split; [lia|].
    replace (-52 - eb) with ((-54 - eb) + 2) by lia.
    rewrite Z.pow_add_r by lia. change (2 ^ 2) with 4.
    assert (0 < 2 ^ (-54 - eb)) by (apply Z.pow_pos_nonneg; lia). nia.
  - simpl. apply below_one_leb. destruct Ha as [Ha1 Ha2]. split; [lia|].
    replace (-52 - ea) with ((-53 - ea) + 1) by lia.
    rewrite Z.pow_add_r by lia. change (2 ^ 1) with 2.
    assert (0 < 2 ^ (-53 - ea)) by (apply Z.pow_pos_nonneg; lia). nia.
  - destruct (Pos.eq_dec ma 4953959590107546) as [Ema|Ema];
      [destruct (Z.eq_dec ea (-53)) as [Eea|Eea];
       [destruct (Pos.eq_dec mb 8106479329266893) as [Emb|Emb];
        [destruct (Z.eq_dec eb (-54)) as [Eeb|Eeb]; [subst; vm_compute; reflexivity|]|]|]|].
    all: apply valid_canonical in Hva, Hvb; destruct Hva as [Hca _], Hvb as [Hcb _];
      (apply SFadd_finite_below_one; [destruct Ha, Hb; lia|]);
      set (ez := Z.min ea eb);
      assert (Hza : ez <= ea) by (subst ez; lia);
      assert (Hzb : ez <= eb) by (subst ez; lia);
      assert (Hz54 : ez <= -54) by (destruct Hb; subst ez; lia);
      pose proof (below_scale _ _ _ _ ez Ha Hza) as Xle;
      pose proof (below_scale _ _ _ _ ez Hb Hzb) as Yle;
      assert (HT : 0 < 2 ^ (-54 - ez)) by (apply Z.pow_pos_nonneg; lia);
      assert (H53 : 2 ^ (-53 - ez) = 2 * 2 ^ (-54 - ez))
        by (replace (-53 - ez) with (1 + (-54 - ez)) by lia;
            rewrite Z.pow_add_r by lia; reflexivity);
      assert (H0 : 2 ^ (- ez) = 18014398509481984 * 2 ^ (-54 - ez))
        by (replace (- ez) with (54 + (-54 - ez)) by lia;
            rewrite Z.pow_add_r by lia; reflexivity);
      rewrite H0; rewrite H53 in *.
    + pose proof (below_strict mb 8106479329266893 eb (-54) ez Hcb
                    ltac:(reflexivity) Hb Hzb (or_intror Eeb)) as Ys.
      lia.
    + pose proof (below_strict mb 8106479329266893 eb (-54) ez Hcb
                    ltac:(reflexivity) Hb Hzb (or_introl Emb)) as Ys.
      lia.
    + pose proof (below_strict ma 4953959590107546 ea (-53) ez Hca
                    ltac:(reflexivity) Ha Hza (or_intror Eea)) as Xs.
      rewrite H53 in Xs. lia.
    + pose proof (below_strict ma 4953959590107546 ea (-53) ez Hca
                    ltac:(reflexivity) Ha Hza (or_introl Ema)) as Xs.
      rewrite H53 in Xs. lia.
Qed.
End Blend.

Local Open Scope float_scope.

Lemma leb1_spec x : (x <=? 1) = SFleb (Prim2SF x) SFone.
Proof. rewrite FloatAxioms.leb_spec. reflexivity. Qed.

(** The updater of the alignment score keeps [0,1]. *)
Theorem blend_unit p c :
  in_unit p -> in_unit c -> in_unit (p * 0.55 + c * 0.45).
Proof.
  intros [Hp0 Hp1] [Hc0 Hc1].
  pose proof Hp0 as Np. pose proof Hc0 as Nc.
  rewrite leb0_spec in Np, Nc. rewrite leb1_spec in Hp1, Hc1.
  assert (Fp : SFis_finite (Prim2SF p) = true).
  { destruct (Prim2SF p) as [|[]| |]; try discriminate; reflexivity. }
  assert (Fc : SFis_finite (Prim2SF c) = true).
  { destruct (Prim2SF c) as [|[]| |]; try discriminate; reflexivity. }
  split.
  - rewrite leb0_spec, FloatAxioms.add_spec, !FloatAxioms.mul_spec.
    apply SFadd_nonneg; apply SFmul_nonneg; auto.
  - rewrite leb1_spec, FloatAxioms.add_spec.
    apply SFadd_below_one; try apply Prim2SF_valid.
    + rewrite FloatAxioms.mul_spec.
      apply (SFmul_unit_below (Prim2SF p) 4953959590107546 (-53));
        auto using Prim2SF_valid.
    + rewrite FloatAxioms.mul_spec.
      apply (SFmul_unit_below (Prim2SF c) 8106479329266893 (-54));
        auto using Prim2SF_valid.
Qed.

(** * The alignment score stays in range *)

Lemma finite_notnan x : finite x -> notnan x.
Proof.
  unfold finite, notnan. rewrite is_finite_spec, is_nan_spec.
  destruct (Prim2SF x); simpl; auto; discriminate.
Qed.

Lemma unit_nonneg x : in_unit x -> nonneg x.
Proof. intros [H _]. exact H. Qed.

Lemma unit_finite x : in_unit x -> finite x.
Proof.
  intros [H0 H1]. unfold finite. rewrite is_finite_spec.
  rewrite leb0_spec in H0. rewrite leb1_spec in H1.
  destruct (Prim2SF x) as [|[]| |]; try discriminate; reflexivity.
Qed.

Lemma sq_nonneg x : notnan x -> nonneg (x * x).
Proof.
  unfold notnan, nonneg. rewrite is_nan_spec, leb0_spec, FloatAxioms.mul_spec.
  apply SFmul_sq.
Qed.

Lemma add_nonneg a b : nonneg a -> nonneg b -> nonneg (a + b).
Proof.
  unfold nonneg. rewrite !leb0_spec, FloatAxioms.add_spec. apply SFadd_nonneg.
Qed.

Lemma sqrt_nonneg a : nonneg a -> nonneg (JS.Math_sqrt a).
Proof.
  unfold nonneg, JS.Math_sqrt. rewrite !leb0_spec, FloatAxioms.sqrt_spec.
  apply SFsqrt_nonneg.
Qed.

Lemma abs_nonneg a : notnan a -> nonneg (JS.Math_abs a).
Proof.
  unfold notnan, nonneg, JS.Math_abs.
  rewrite is_nan_spec, leb0_spec, FloatAxioms.abs_spec. apply SFabs_nonneg.
Qed.

Lemma sub_notnan a b :
  notnan a -> notnan b -> finite a \/ finite b -> notnan (a - b).
Proof.
  unfold notnan, finite.
  rewrite !is_nan_spec, !is_finite_spec, FloatAxioms.sub_spec. apply SFsub_notnan.
Qed.

Lemma mul_nonneg a b :
  nonneg a -> finite a -> nonneg b -> finite b -> nonneg (a * b).
Proof.
  unfold nonneg, finite.
  rewrite !leb0_spec, !is_finite_spec, FloatAxioms.mul_spec.
  intros. apply SFmul_nonneg; assumption.
Qed.

Lemma div_floor_notnan x r :
  finite x -> (1e-3 <=? r) = true -> notnan (x / r).
Proof.
  unfold finite, notnan.
  rewrite is_finite_spec, is_nan_spec, FloatAxioms.leb_spec, FloatAxioms.div_spec.
  intros Hx Hr. apply SFdiv_notnan; [exact Hx|].
  revert Hr. change (Prim2SF 1e-3)
    with (S754_finite false 4611686018427388 (-62)).
  unfold SFleb. destruct (Prim2SF r) as [|[]| |[]]; simpl; auto; discriminate.
Qed.

Lemma div_delta_nonneg a : nonneg a -> nonneg (a / MAX_ACCEL_DELTA).
Proof.
  unfold nonneg. rewrite !leb0_spec, FloatAxioms.div_spec.
  change (Prim2SF MAX_ACCEL_DELTA)
    with (S754_finite false 6305039478318694 (-54)).
  apply SFdiv_nonneg.
Qed.

Lemma or0_notnan p : notnan (JS.or0 p).
Proof.
  destruct p as [v|]; [|reflexivity]. unfold JS.or0, JS.truthy.
  destruct (is_zero v); [reflexivity|]. cbn [orb].
  destruct (is_nan v) eqn:E; [reflexivity | exact E].
Qed.

Lemma or0_finite p : finite_prop p -> finite (JS.or0 p).
Proof.
  destruct p as [v|]; [|reflexivity]. unfold JS.or0. cbn [finite_prop].
  intros H. destruct (JS.truthy v); [exact H | reflexivity].
Qed.

Lemma default0_finite p : finite_prop p -> finite (JS.default0 p).
Proof. destruct p as [v|]; [auto | reflexivity]. Qed.

(** A product [k * u] of a constant of [0,1] and a number of [0,1]. *)
Lemma scale_nonneg k u : in_unit k -> in_unit u -> nonneg (k * u).
Proof.
  intros Hk Hu.
  apply mul_nonneg; auto using unit_nonneg, unit_finite.
Qed.

(** For a sample with finite components the base score is a number of
    [0,1]. *)
Lemma deriveAlignmentScore_unit (data : Sample.t) :
  finite_sample data -> in_unit (deriveAlignmentScore data).
Proof.
  intros (Hx & Hy & Hz). unfold deriveAlignmentScore.
  apply default0_finite in Hx, Hy, Hz.
  set (x := JS.default0 (Sample.x data)) in *.
  set (y := JS.default0 (Sample.y data)) in *.
  set (z := JS.default0 (Sample.z data)) in *.
  cbv zeta.
  assert (Hsq : nonneg (x * x + y * y + z * z)).
  { repeat apply add_nonneg; apply sq_nonneg, finite_notnan; assumption. }
  set (magnitude := JS.Math_max 1e-3 (JS.Math_sqrt (x * x + y * y + z * z))).
  assert (Hm : (1e-3 <=? magnitude) = true).
  { apply max_floor, nonneg_notnan, sqrt_nonneg, Hsq. }
  assert (Hmn : notnan magnitude) by (eapply leb_notnan_r, Hm).
  assert (Hone : finite 1) by reflexivity.
  assert (Hgrav : in_unit (JS.Math_min 1 (JS.Math_abs (magnitude - 1)))).
  { apply min1_unit, abs_nonneg, sub_notnan; auto. reflexivity. }
  assert (Htilt : in_unit (JS.Math_min 1 (JS.Math_abs (JS.Math_abs (z / magnitude) - 1)))).
  { apply min1_unit, abs_nonneg, sub_notnan; auto; [|reflexivity].
    apply nonneg_notnan, abs_nonneg, div_floor_notnan; assumption. }
  assert (Hlat : in_unit (JS.Math_min 1
            (JS.Math_sqrt (x / magnitude * (x / magnitude) + y / magnitude * (y / magnitude))))).
  { apply min1_unit, sqrt_nonneg, add_nonneg; apply sq_nonneg, div_floor_notnan; assumption. }
  apply clamp_unit, sub_notnan; auto; [reflexivity|].
  apply nonneg_notnan. repeat apply add_nonneg; apply scale_nonneg; auto;
    split; reflexivity.
Qed.

(** The jitter penalty of a sample with finite components is a number
    of [0,1], whatever the previous sample was. *)
Lemma computeJitterPenalty_unit (previous : option Sample.t) (data : Sample.t) :
  finite_sample data -> in_unit (computeJitterPenalty previous data).
Proof.
  intros (Hx & Hy & Hz). unfold computeJitterPenalty.
  destruct previous as [p|]; [|split; reflexivity]. cbv zeta.
  apply min1_unit, div_delta_nonneg, sqrt_nonneg.
  repeat apply add_nonneg; apply sq_nonneg, sub_notnan;
    auto using or0_notnan, or0_finite.
Qed.

Lemma composite_unit (previous : option Sample.t) (data : Sample.t) :
  finite_sample data -> in_unit (composite previous data).
Proof.
  intros H. unfold composite. cbv zeta.
  pose proof (deriveAlignmentScore_unit data H) as Hb.
  pose proof (computeJitterPenalty_unit previous data H) as Hj.
  apply clamp_unit, sub_notnan.
  - apply finite_notnan, unit_finite, Hb.
  - apply nonneg_notnan, mul_nonneg; auto using unit_nonneg, unit_finite; reflexivity.
  - left. apply unit_finite, Hb.
Qed.

(** Whatever the sample, the composite is NaN or a number of [0,1]. *)
Lemma composite_range (previous : option Sample.t) (data : Sample.t) :
  is_nan (composite previous data) = true \/ in_unit (composite previous data).
Proof.
  unfold composite. cbv zeta.
  set (s := deriveAlignmentScore data - computeJitterPenalty previous data * 0.45).
  destruct (is_nan s) eqn:E.
  - left. unfold JS.Math_min. rewrite E, orb_true_r.
    unfold JS.Math_max. change (is_nan nan) with true. rewrite orb_true_r. reflexivity.
  - right. apply clamp_unit, E.
Qed.

(** ** NaN and infinite samples *)

Lemma isnan_spec x : isnan x <-> Prim2SF x = S754_nan.
Proof.
  unfold isnan. rewrite is_nan_spec.
  destruct (Prim2SF x); simpl; split; congruence.
Qed.

Lemma nan_mul_l a b : isnan a -> isnan (a * b).
Proof. rewrite !isnan_spec, FloatAxioms.mul_spec. intros ->. reflexivity. Qed.

Lemma nan_mul_r a b : isnan b -> isnan (a * b).
Proof.
  rewrite !isnan_spec, FloatAxioms.mul_spec. intros ->.
  destruct (Prim2SF a); reflexivity.
Qed.

Lemma nan_add_l a b : isnan a -> isnan (a + b).
Proof. rewrite !isnan_spec, FloatAxioms.add_spec. intros ->. reflexivity. Qed.

Lemma nan_add_r a b : isnan b -> isnan (a + b).
Proof.
  rewrite !isnan_spec, FloatAxioms.add_spec. intros ->.
  destruct (Prim2SF a); reflexivity.
Qed.

Lemma nan_sub_l a b : isnan a -> isnan (a - b).
Proof. rewrite !isnan_spec, FloatAxioms.sub_spec. intros ->. reflexivity. Qed.

Lemma nan_sub_r a b : isnan b -> isnan (a - b).
Proof.
  rewrite !isnan_spec, FloatAxioms.sub_spec. intros ->.
  destruct (Prim2SF a); reflexivity.
Qed.

Lemma nan_sqrt a : isnan a -> isnan (JS.Math_sqrt a).
Proof.
  unfold JS.Math_sqrt. rewrite !isnan_spec, FloatAxioms.sqrt_spec. intros ->. reflexivity.
Qed.

Lemma nan_abs a : isnan a -> isnan (JS.Math_abs a).
Proof.
  unfold JS.Math_abs. rewrite !isnan_spec, FloatAxioms.abs_spec. intros ->. reflexivity.
Qed.

Lemma nan_min a b : isnan b -> isnan (JS.Math_min a b).
Proof.
  unfold isnan, JS.Math_min. intros ->. rewrite orb_true_r. reflexivity.
Qed.

Lemma nan_max a b : isnan b -> isnan (JS.Math_max a b).
Proof.
  unfold isnan, JS.Math_max. intros ->. rewrite orb_true_r. reflexivity.
Qed.

Lemma nan_div_l a b : isnan a -> isnan (a / b).
Proof. rewrite !isnan_spec, FloatAxioms.div_spec. intros ->. reflexivity. Qed.

(** The square of an infinite number is [+Infinity]. *)
Lemma sq_pinf x : is_finite x = false -> notnan x -> pinf (x * x).
Proof.
  unfold notnan, pinf. rewrite is_finite_spec, is_nan_spec, FloatAxioms.mul_spec.
  destruct (Prim2SF x) as [|[]| |]; simpl; try discriminate; reflexivity.
Qed.

Lemma pinf_add_l a b : pinf a -> nonneg b -> pinf (a + b).
Proof.
  unfold pinf, nonneg. rewrite leb0_spec, FloatAxioms.add_spec. intros ->.
  destruct (Prim2SF b) as [|[]| |[]]; simpl; try discriminate; reflexivity.
Qed.

Lemma pinf_add_r a b : nonneg a -> pinf b -> pinf (a + b).
Proof.
  unfold pinf, nonneg. rewrite leb0_spec, FloatAxioms.add_spec. intros Ha ->.
  destruct (Prim2SF a) as [|[]| |[]]; simpl in *; try discriminate; reflexivity.
Qed.

Lemma pinf_nonneg a : pinf a -> nonneg a.
Proof. unfold pinf, nonneg. rewrite leb0_spec. intros ->. reflexivity. Qed.

Lemma pinf_sqrt a : pinf a -> pinf (JS.Math_sqrt a).
Proof.
  unfold pinf, JS.Math_sqrt. rewrite FloatAxioms.sqrt_spec. intros ->. reflexivity.
Qed.

Lemma pinf_max a : pinf a -> pinf (JS.Math_max 1e-3 a).
Proof.
  intros H. unfold JS.Math_max.
  assert (Hn : is_nan a = false) by (rewrite is_nan_spec, H; reflexivity).
  assert (Hlt : (1e-3 <? a) = true).
  { rewrite FloatAxioms.ltb_spec, H. reflexivity. }
  change (is_nan 1e-3) with false. rewrite Hn, Hlt. exact H.
Qed.

(** An infinite number divided by [+Infinity] is NaN. *)
Lemma inf_div_pinf x m : is_finite x = false -> pinf m -> isnan (x / m).
Proof.
  unfold pinf. rewrite is_finite_spec, isnan_spec, FloatAxioms.div_spec. intros Hx ->.
  destruct (Prim2SF x) as [| | |]; simpl in *; try discriminate; reflexivity.
Qed.

Lemma default0_bad p : bad_prop p -> is_finite (JS.default0 p) = false.
Proof. destruct p as [v|]; [auto | intros []]. Qed.

(** A sample with a NaN or infinite component has a NaN base score. *)
Lemma deriveAlignmentScore_bad (data : Sample.t) :
  bad_sample data -> isnan (deriveAlignmentScore data).
Proof.
  intros Hbad. unfold deriveAlignmentScore.
  assert (Hb : is_finite (JS.default0 (Sample.x data)) = false
               \/ is_finite (JS.default0 (Sample.y data)) = false
               \/ is_finite (JS.default0 (Sample.z data)) = false).
  { destruct Hbad as [H | [H | H]]; auto using default0_bad. }
  clear Hbad.
  set (x := JS.default0 (Sample.x data)) in *.
  set (y := JS.default0 (Sample.y data)) in *.
  set (z := JS.default0 (Sample.z data)) in *.
  cbv zeta.
  set (magnitude := JS.Math_max 1e-3 (JS.Math_sqrt (x * x + y * y + z * z))).
  assert (Hfin : forall t u v, isnan t -> isnan
            (JS.Math_max 0 (JS.Math_min 1 (1 - (0.5 * t + 0.3 * u + 0.2 * v))))).
  { intros. apply nan_max, nan_min, nan_sub_r, nan_add_l, nan_add_l, nan_mul_r.
    assumption. }
  assert (Hfin2 : forall t u v, isnan u -> isnan
            (JS.Math_max 0 (JS.Math_min 1 (1 - (0.5 * t + 0.3 * u + 0.2 * v))))).
  { intros. apply nan_max, nan_min, nan_sub_r, nan_add_l, nan_add_r, nan_mul_r.
    assumption. }
  assert (Hfin3 : forall t u v, isnan v -> isnan
            (JS.Math_max 0 (JS.Math_min 1 (1 - (0.5 * t + 0.3 * u + 0.2 * v))))).
  { intros. apply nan_max, nan_min, nan_sub_r, nan_add_r, nan_mul_r.
    assumption. }
  destruct (is_nan x) eqn:Nx.
  { apply Hfin2, nan_min, nan_abs, nan_sub_l, nan_max, nan_sqrt,
      nan_add_l, nan_add_l, nan_mul_l, Nx. }
  destruct (is_nan y) eqn:Ny.
  { apply Hfin2, nan_min, nan_abs, nan_sub_l, nan_max, nan_sqrt,
      nan_add_l, nan_add_r, nan_mul_l, Ny. }
  destruct (is_nan z) eqn:Nz.
  { apply Hfin2, nan_min, nan_abs, nan_sub_l, nan_max, nan_sqrt,
      nan_add_r, nan_mul_l, Nz. }
  assert (Hm : pinf magnitude).
  { apply pinf_max, pinf_sqrt.
    destruct Hb as [H | [H | H]].
    - apply pinf_add_l; [apply pinf_add_l|]; auto using sq_pinf, sq_nonneg.
    - apply pinf_add_l; [apply pinf_add_r|]; auto using sq_pinf, sq_nonneg.
    - apply pinf_add_r; [apply add_nonneg|]; auto using sq_pinf, sq_nonneg. }
  destruct Hb as [H | [H | H]].
  - apply Hfin3, nan_min, nan_sqrt, nan_add_l, nan_mul_l, inf_div_pinf; assumption.
  - apply Hfin3, nan_min, nan_sqrt, nan_add_r, nan_mul_l, inf_div_pinf; assumption.
  - apply Hfin, nan_min, nan_abs, nan_sub_l, nan_abs, inf_div_pinf; assumption.
Qed.

Lemma composite_bad (previous : option Sample.t) (data : Sample.t) :
  bad_sample data -> isnan (composite previous data).
Proof.
  intros H. unfold composite. cbv zeta.
  apply nan_max, nan_min, nan_sub_l, deriveAlignmentScore_bad, H.
Qed.

Lemma blend_nan prev comp : isnan comp -> isnan (blend prev comp).
Proof.
  intros H. unfold blend. destruct (JS.Number_isFinite prev); [|exact H].
  apply nan_add_r, nan_mul_l, H.
Qed.

Lemma nan_not_finite x : isnan x -> JS.Number_isFinite x = false.
Proof.
  unfold isnan, JS.Number_isFinite, is_finite. intros ->. reflexivity.
Qed.

(** * Invariants of the values the screen computes with *)

Lemma Inv3_ext (good : float -> Prop) (w w' : World) :
  alignmentScore w' = alignmentScore w ->
  fiducialCount w' = fiducialCount w ->
  fiducialQuality w' = fiducialQuality w ->
  autoCaptureCountdown w' = autoCaptureCountdown w ->
  autoCaptureLockRef w' = autoCaptureLockRef w ->
  autoCaptureTimerRef w' = autoCaptureTimerRef w ->
  pendingChecks w' = pendingChecks w ->
  Inv3 good w -> Inv3 good w'.
Proof.
  intros E1 E2 E3 E4 E5 E6 E7 [H1 H2 H3 H4 H5 H6].
  constructor; rewrite ?E1, ?E2, ?E3, ?E4, ?E5, ?E6, ?E7; assumption.
Qed.

Ltac frame3 := intros H; refine (Inv3_ext _ _ _ _ _ _ _ _ _ _ H); reflexivity.

Section Frame3.
Variable good : float -> Prop.

Lemma Inv3_set_cameraVisible v w : Inv3 good w -> Inv3 good (set_cameraVisible v w).
Proof. frame3. Qed.
Lemma Inv3_set_cameraReady v w : Inv3 good w -> Inv3 good (set_cameraReady v w).
Proof. frame3. Qed.
Lemma Inv3_set_autoCaptureEnabled v w : Inv3 good w -> Inv3 good (set_autoCaptureEnabled v w).
Proof. frame3. Qed.
Lemma Inv3_set_alignmentStatus v w : Inv3 good w -> Inv3 good (set_alignmentStatus v w).
Proof. frame3. Qed.
Lemma Inv3_set_fiducialReady v w : Inv3 good w -> Inv3 good (set_fiducialReady v w).
Proof. frame3. Qed.
Lemma Inv3_set_cameraError v w : Inv3 good w -> Inv3 good (set_cameraError v w).
Proof. frame3. Qed.
Lemma Inv3_set_cameraRef v w : Inv3 good w -> Inv3 good (set_cameraRef v w).
Proof. frame3. Qed.
Lemma Inv3_set_accelerometerSubscriptionRef v w :
  Inv3 good w -> Inv3 good (set_accelerometerSubscriptionRef v w).
Proof. frame3. Qed.
Lemma Inv3_set_lastAccelSampleRef v w : Inv3 good w -> Inv3 good (set_lastAccelSampleRef v w).
Proof. frame3. Qed.
Lemma Inv3_set_fiducialCheckIntervalRef v w :
  Inv3 good w -> Inv3 good (set_fiducialCheckIntervalRef v w).
Proof. frame3. Qed.
Lemma Inv3_set_fiducialCheckInProgressRef v w :
  Inv3 good w -> Inv3 good (set_fiducialCheckInProgressRef v w).
Proof. frame3. Qed.
Lemma Inv3_set_intervals v w : Inv3 good w -> Inv3 good (set_intervals v w).
Proof. frame3. Qed.
Lemma Inv3_set_nextTimer v w : Inv3 good w -> Inv3 good (set_nextTimer v w).
Proof. frame3. Qed.
Lemma Inv3_set_listeners v w : Inv3 good w -> Inv3 good (set_listeners v w).
Proof. frame3. Qed.
Lemma Inv3_set_nextSub v w : Inv3 good w -> Inv3 good (set_nextSub v w).
Proof. frame3. Qed.
Lemma Inv3_set_sessionCleanup v w : Inv3 good w -> Inv3 good (set_sessionCleanup v w).
Proof. frame3. Qed.
Lemma Inv3_set_pendingCaptures v w : Inv3 good w -> Inv3 good (set_pendingCaptures v w).
Proof. frame3. Qed.
Lemma Inv3_set_triggers v w : Inv3 good w -> Inv3 good (set_triggers v w).
Proof. frame3. Qed.

Lemma Inv3_set_alignmentScore v w :
  good v -> Inv3 good w -> Inv3 good (set_alignmentScore v w).
Proof. intros Hv [H1 H2 H3 H4 H5 H6]. constructor; assumption. Qed.

Lemma Inv3_set_fiducialCount v w :
  notnan v -> Inv3 good w -> Inv3 good (set_fiducialCount v w).
Proof. intros Hv [H1 H2 H3 H4 H5 H6]. constructor; assumption. Qed.

Lemma Inv3_set_fiducialQuality v w :
  notnan v -> Inv3 good w -> Inv3 good (set_fiducialQuality v w).
Proof. intros Hv [H1 H2 H3 H4 H5 H6]. constructor; assumption. Qed.

Lemma Inv3_set_autoCaptureCountdown v w :
  (0 <= v)%Z -> Inv3 good w -> Inv3 good (set_autoCaptureCountdown v w).
Proof. intros Hv [H1 H2 H3 H4 H5 H6]. constructor; assumption. Qed.

Lemma Inv3_set_lock_false w : Inv3 good w -> Inv3 good (set_autoCaptureLockRef false w).
Proof.
  intros [H1 H2 H3 H4 H5 H6]. constructor; try assumption. discriminate.
Qed.

Lemma Inv3_set_timer_None w : Inv3 good w -> Inv3 good (set_autoCaptureTimerRef None w).
Proof.
  intros [H1 H2 H3 H4 H5 H6]. constructor; try assumption. reflexivity.
Qed.

Lemma Inv3_set_pendingChecks l w :
  (forall a, In (AwaitValidate a) l -> has_uri (Some a) = true) ->
  Inv3 good w -> Inv3 good (set_pendingChecks l w).
Proof. intros Hl [H1 H2 H3 H4 H5 H6]. constructor; assumption. Qed.

End Frame3.

Ltac inv3_setter :=
  lazymatch goal with
  | |- Inv3 _ (set_cameraVisible _ _) => apply Inv3_set_cameraVisible
  | |- Inv3 _ (set_cameraReady _ _) => apply Inv3_set_cameraReady
  | |- Inv3 _ (set_autoCaptureEnabled _ _) => apply Inv3_set_autoCaptureEnabled
  | |- Inv3 _ (set_alignmentStatus _ _) => apply Inv3_set_alignmentStatus
  | |- Inv3 _ (set_fiducialReady _ _) => apply Inv3_set_fiducialReady
  | |- Inv3 _ (set_cameraError _ _) => apply Inv3_set_cameraError
  | |- Inv3 _ (set_cameraRef _ _) => apply Inv3_set_cameraRef
  | |- Inv3 _ (set_accelerometerSubscriptionRef _ _) =>
      apply Inv3_set_accelerometerSubscriptionRef
  | |- Inv3 _ (set_lastAccelSampleRef _ _) => apply Inv3_set_lastAccelSampleRef
  | |- Inv3 _ (set_fiducialCheckIntervalRef _ _) =>
      apply Inv3_set_fiducialCheckIntervalRef
  | |- Inv3 _ (set_fiducialCheckInProgressRef _ _) =>
      apply Inv3_set_fiducialCheckInProgressRef
  | |- Inv3 _ (set_intervals _ _) => apply Inv3_set_intervals
  | |- Inv3 _ (set_nextTimer _ _) => apply Inv3_set_nextTimer
  | |- Inv3 _ (set_listeners _ _) => apply Inv3_set_listeners
  | |- Inv3 _ (set_nextSub _ _) => apply Inv3_set_nextSub
  | |- Inv3 _ (set_sessionCleanup _ _) => apply Inv3_set_sessionCleanup
  | |- Inv3 _ (set_pendingCaptures _ _) => apply Inv3_set_pendingCaptures
  | |- Inv3 _ (set_triggers _ _) => apply Inv3_set_triggers
  | |- Inv3 _ (set_alignmentScore _ _) => apply Inv3_set_alignmentScore
  | |- Inv3 _ (set_fiducialCount _ _) => apply Inv3_set_fiducialCount
  | |- Inv3 _ (set_fiducialQuality _ _) => apply Inv3_set_fiducialQuality
  | |- Inv3 _ (set_autoCaptureCountdown _ _) => apply Inv3_set_autoCaptureCountdown
  | |- Inv3 _ (set_autoCaptureLockRef false _) => apply Inv3_set_lock_false
  | |- Inv3 _ (set_autoCaptureTimerRef None _) => apply Inv3_set_timer_None
  | |- Inv3 _ (clearInterval _ _) => unfold clearInterval at 1
  | |- Inv3 _ (removeListener _ _) => unfold removeListener at 1
  end.

Ltac inv3_side :=
  lazymatch goal with
  | |- (0 <= _)%Z => first [apply Z.le_max_l | discriminate]
  | |- notnan (JS.or0 _) => apply or0_notnan
  | |- notnan _ => reflexivity
  | |- _ => try assumption
  end.

Ltac inv3_peel :=
  cbv zeta;
  repeat match goal with
         | H : Inv3 ?g ?w |- Inv3 ?g ?w => exact H
         | |- Inv3 _ (if ?b then _ else _) => destruct b eqn:?
         | |- Inv3 _ (match ?o with Some _ => _ | None => _ end) => destruct o eqn:?
         | |- Inv3 _ _ => inv3_setter
         | |- _ => progress inv3_side
         end.

Section Step3.
Variable good : float -> Prop.
Hypothesis good0 : good 0.

Lemma Inv3_clearAutoCaptureTimer (p : bool) (w : World) :
  Inv3 good w -> Inv3 good (clearAutoCaptureTimer p w).
Proof. intros H. unfold clearAutoCaptureTimer. inv3_peel. Qed.

Lemma Inv3_stopAlignmentMonitoring (w : World) :
  Inv3 good w -> Inv3 good (stopAlignmentMonitoring w).
Proof. intros H. unfold stopAlignmentMonitoring. inv3_peel. Qed.

End Step3.

Ltac inv3_calls :=
  repeat first
    [ progress inv3_peel
    | apply Inv3_clearAutoCaptureTimer
    | apply Inv3_stopAlignmentMonitoring ].

Lemma clearAutoCaptureTimer_ref (p : bool) (w : World) :
  autoCaptureTimerRef (clearAutoCaptureTimer p w) = None.
Proof.
  unfold clearAutoCaptureTimer.
  destruct w as [? ? ? ? ? ? ? ? ? ? ? ? tr ? ? fi ? ? ? ? ? ? ? ? ?].
  destruct p, tr, fi; reflexivity.
Qed.

Lemma In_remove_nth {A : Type} (k : nat) (l : list A) (x : A) :
  In x (remove_nth k l) -> In x l.
Proof.
  revert k. induction l as [|h t IH]; intros [|k]; simpl; auto.
  intros [E | H]; [auto | right; apply (IH k H)].
Qed.

Lemma In_replace_nth {A : Type} (k : nat) (a : A) (l : list A) (x : A) :
  In x (replace_nth k a l) -> x = a \/ In x l.
Proof.
  revert k. induction l as [|h t IH]; intros [|k]; simpl; auto.
  - intros [E | H]; auto.
  - intros [E | H]; [auto | destruct (IH k H); auto].
Qed.

Lemma checkFiducials_afterValidate_pending (a : Asset) (net : FetchOutcome) (w : World) :
  pendingChecks (checkFiducials_afterValidate a net w) = pendingChecks w.
Proof.
  unfold checkFiducials_afterValidate.
  destruct (validateFiducials (Some a) net); reflexivity.
Qed.

Section Step3.
Variable good : float -> Prop.
Hypothesis good0 : good 0.

Lemma Inv3_resetMonitoring (w : World) : Inv3 good w -> Inv3 good (resetMonitoring w).
Proof. intros H. unfold resetMonitoring. inv3_calls. Qed.

Lemma Inv3_handleCloseCamera (w : World) : Inv3 good w -> Inv3 good (handleCloseCamera w).
Proof. intros H. unfold handleCloseCamera. inv3_calls. Qed.

Lemma Inv3_handleOpenCamera (w : World) : Inv3 good w -> Inv3 good (handleOpenCamera w).
Proof. intros H. unfold handleOpenCamera. inv3_calls. Qed.

Lemma Inv3_handleTakePhoto (c a : bool) (w : World) :
  Inv3 good w -> Inv3 good (handleTakePhoto c a w).
Proof. intros H. unfold handleTakePhoto. inv3_calls. Qed.

Lemma Inv3_handleTakePhoto_finally (w : World) :
  Inv3 good w -> Inv3 good (handleTakePhoto_finally w).
Proof. intros H. unfold handleTakePhoto_finally. inv3_calls. Qed.

Lemma Inv3_toggleAutoCapture (w : World) : Inv3 good w -> Inv3 good (toggleAutoCapture w).
Proof. intros H. unfold toggleAutoCapture. inv3_calls. Qed.

Lemma Inv3_checkFiducials (c : bool) (w : World) :
  Inv3 good w -> Inv3 good (checkFiducials c w).
Proof.
  intros H. unfold checkFiducials.
  destruct (checkFiducials_skips c w); [exact H|].
  cbv zeta. apply Inv3_set_pendingChecks; [|inv3_calls].
  intros a Hin. apply in_app_or in Hin. destruct Hin as [Hin | [E | []]].
  - apply (inv_uri good w H a Hin).
  - discriminate E.
Qed.

Lemma Inv3_monitoringEffect (w : World) : Inv3 good w -> Inv3 good (monitoringEffect w).
Proof.
  intros H. unfold monitoringEffect.
  assert (H' : Inv3 good (if sessionCleanup w then resetMonitoring w else w)).
  { destruct (sessionCleanup w); [apply Inv3_resetMonitoring|]; exact H. }
  revert H'. generalize (if sessionCleanup w then resetMonitoring w else w).
  clear w H. intros w H. unfold monitoringEffect_body.
  destruct (negb (cameraVisible w)).
  - apply Inv3_set_sessionCleanup, Inv3_resetMonitoring, H.
  - unfold addListener, setInterval. cbv beta iota zeta. inv3_calls.
Qed.

Lemma Inv3_autoCaptureEffect (now : Z) (w : World) :
  Inv3 good w -> Inv3 good (autoCaptureEffect now w).
Proof.
  intros H. unfold autoCaptureEffect.
  destruct (negb (cameraVisible w)); [inv3_calls|].
  destruct (negb (cameraReady w)); [inv3_calls|].
  destruct (negb (autoCaptureEnabled w)); [inv3_calls|].
  destruct (autoCaptureLockRef w) eqn:Hlock; [inv3_calls|].
  cbv zeta.
  destruct (bothConditionsMet w && negb (isSome (autoCaptureTimerRef w))).
  - unfold setInterval. cbv beta iota zeta.
    destruct H as [H1 H2 H3 H4 H5 H6]. constructor; try assumption.
    + discriminate.
    + cbn. rewrite Hlock. discriminate.
  - destruct (negb (bothConditionsMet w)); inv3_calls.
Qed.

Lemma Inv3_countdownCallback (id : TimerId) (started : Z) (c : bool) (now : Z)
    (w : World) :
  Inv3 good w -> Inv3 good (countdownCallback id started c now w).
Proof.
  intros H. unfold countdownCallback. cbv zeta.
  destruct (Z.max 0 (AUTO_CAPTURE_START_MS - (now - started)) <=? 0)%Z;
    [|inv3_calls].
  apply Inv3_handleTakePhoto, Inv3_set_triggers.
  set (r := Z.max 0 (AUTO_CAPTURE_START_MS - (now - started))).
  assert (Hc : Inv3 good (clearAutoCaptureTimer true (set_autoCaptureCountdown r w))).
  { inv3_calls. }
  pose proof (clearAutoCaptureTimer_ref true (set_autoCaptureCountdown r w)) as Href.
  revert Hc Href.
  generalize (clearAutoCaptureTimer true (set_autoCaptureCountdown r w)).
  intros w' [H1 H2 H3 H4 H5 H6] Href. constructor; try assumption.
  intros _. exact Href.
Qed.

Lemma Inv3_step (e : Event) (w : World) :
  (forall sub data, e = EvAccelerometer sub data ->
     forall prev last, good prev -> good (blend prev (composite last data))) ->
  Inv3 good w -> Inv3 good (step e w).
Proof.
  intros Hb H. destruct e; cbn [step].
  - apply Inv3_handleOpenCamera, H.
  - unfold handleOpenCamera_afterPermission. inv3_calls.
  - apply Inv3_handleCloseCamera, H.
  - inv3_calls.
  - inv3_calls.
  - apply Inv3_toggleAutoCapture, H.
  - destruct (cameraVisible w && cameraReady w); [apply Inv3_handleTakePhoto|]; exact H.
  - apply Inv3_monitoringEffect, H.
  - apply Inv3_autoCaptureEffect, H.
  - destruct (find_interval id w) as [iv|]; [|exact H].
    destruct (iv_callback iv).
    + apply Inv3_countdownCallback, H.
    + unfold fiducialPollCallback.
      destruct (cameraReady_c && negb (autoCaptureLockRef w));
        [apply Inv3_checkFiducials|]; exact H.
  - destruct (existsb (Nat.eqb sub) (listeners w)); [|exact H].
    unfold accelerometerListener. cbv zeta.
    apply Inv3_set_alignmentScore; [|inv3_calls].
    apply (Hb sub data eq_refl). apply (inv_score good w H).
  - destruct (nth_error (pendingChecks w) k) as [[|a]|]; try exact H.
    unfold checkFiducials_afterSnapshot, checkFiducials_finally.
    destruct r as [|[a|]]; [| destruct (has_uri (Some a)) eqn:Huri |];
      apply Inv3_set_pendingChecks; try solve [inv3_calls];
      intros x Hin; cbn [settle] in Hin.
    + apply In_remove_nth in Hin. apply (inv_uri good w H x Hin).
    + apply In_replace_nth in Hin. destruct Hin as [E | Hin].
      * injection E as ->. exact Huri.
      * apply (inv_uri good w H x Hin).
    + apply In_remove_nth in Hin. apply (inv_uri good w H x Hin).
    + apply In_remove_nth in Hin. apply (inv_uri good w H x Hin).
  - destruct (nth_error (pendingChecks w) k) as [[|a]|]; try exact H.
    cbv zeta. apply Inv3_set_pendingChecks.
    + intros x Hin. apply In_remove_nth in Hin.
      rewrite checkFiducials_afterValidate_pending in Hin.
      apply (inv_uri good w H x Hin).
    + unfold checkFiducials_afterValidate, checkFiducials_finally.
      destruct (validateFiducials (Some a) net); inv3_calls.
  - destruct (nth_error (pendingCaptures w) k) as [[|]|]; try exact H.
    unfold handleTakePhoto_afterPhoto. destruct resolved; cbv zeta.
    + apply Inv3_set_pendingCaptures, Inv3_handleCloseCamera, H.
    + apply Inv3_set_pendingCaptures, Inv3_handleTakePhoto_finally,
        Inv3_handleCloseCamera, Inv3_set_cameraError, H.
  - destruct (nth_error (pendingCaptures w) k) as [[|]|]; try exact H.
    cbv zeta. apply Inv3_set_pendingCaptures, Inv3_handleTakePhoto_finally, H.
Qed.

Lemma Inv3_initial : Inv3 good initial.
Proof.
  constructor; cbn; try reflexivity; try discriminate; try exact good0.
  intros a [].
Qed.

End Step3.

(** * Properties of the engine along every run *)

Lemma nan_or_unit_blend (prev : float) (last : option Sample.t) (data : Sample.t) :
  nan_or_unit prev -> nan_or_unit (blend prev (composite last data)).
Proof.
  intros Hp. destruct (composite_range last data) as [Hc | Hc].
  - left. apply blend_nan, Hc.
  - destruct Hp as [Hp | Hp].
    + right. unfold blend. rewrite (nan_not_finite prev Hp). exact Hc.
    + right. unfold blend. destruct (JS.Number_isFinite prev); [|exact Hc].
      apply blend_unit; assumption.
Qed.

Lemma in_unit_blend (prev : float) (last : option Sample.t) (data : Sample.t) :
  finite_sample data -> in_unit prev -> in_unit (blend prev (composite last data)).
Proof.
  intros Hd Hp. pose proof (composite_unit last data Hd) as Hc.
  unfold blend. destruct (JS.Number_isFinite prev); [|exact Hc].
  apply blend_unit; assumption.
Qed.

Lemma in_unit_zero : in_unit 0.
Proof. split; reflexivity. Qed.

Lemma Inv3_run (evs : list Event) (w : World) :
  Inv3 nan_or_unit w -> Inv3 nan_or_unit (run evs w).
Proof.
  revert w. induction evs as [|e evs IH]; intros w H; cbn; [exact H|].
  apply IH, Inv3_step; [right; apply in_unit_zero | | exact H].
  intros sub data _ prev last. apply nan_or_unit_blend.
Qed.

Lemma reachable_Inv3 (evs : list Event) : Inv3 nan_or_unit (run evs initial).
Proof. apply Inv3_run, Inv3_initial. right. apply in_unit_zero. Qed.

Lemma Inv3_run_finite (evs : list Event) (w : World) :
  Forall finite_event evs -> Inv3 in_unit w -> Inv3 in_unit (run evs w).
Proof.
  revert w. induction evs as [|e evs IH]; intros w Hf H; cbn; [exact H|].
  inversion Hf as [|? ? He Hf']; subst.
  apply IH; [exact Hf'|]. apply Inv3_step; [apply in_unit_zero | | exact H].
  intros sub data -> prev last. apply in_unit_blend. exact He.
Qed.

(** X1. In every run whose motion samples all have finite components
    (a missing component counts as finite: the code reads it as 0), the
    alignment score is within [0, 1], in binary64 arithmetic. *)
Theorem score_in_unit (evs : list Event) :
  Forall finite_event evs -> in_unit (alignmentScore (run evs initial)).
Proof.
  intros Hf. apply (inv_score in_unit).
  apply Inv3_run_finite; [exact Hf | apply Inv3_initial, in_unit_zero].
Qed.

Lemma score_in_unit_witness :
  Forall finite_event arm_trace /\ in_unit (alignmentScore (run arm_trace initial)).
Proof.
  assert (H : Forall finite_event arm_trace).
  { repeat constructor. }
  split; [exact H | apply (score_in_unit arm_trace H)].
Defined.

(** X2. Whatever the events and the samples are, the alignment score is
    NaN or within [0, 1]: it is never negative, above 1 or infinite. *)
Theorem score_nan_or_unit (evs : list Event) :
  nan_or_unit (alignmentScore (run evs initial)).
Proof. apply (inv_score nan_or_unit), reachable_Inv3. Qed.

(** X3. The fiducial count and the fiducial quality the screen holds
    are never NaN, whatever numbers the marker service reports: [detected || 0]
    and [quality || 0] replace a NaN by 0. *)
Theorem fiducials_never_nan (evs : list Event) :
  is_nan (fiducialCount (run evs initial)) = false
  /\ is_nan (fiducialQuality (run evs initial)) = false.
Proof.
  split; [apply (inv_count nan_or_unit) | apply (inv_quality nan_or_unit)];
    apply reachable_Inv3.
Qed.

(** X4. The remaining time of the countdown is never negative, also
    when the clock jumps between two ticks. *)
Theorem countdown_never_negative (evs : list Event) :
  (0 <= autoCaptureCountdown (run evs initial))%Z.
Proof. apply (inv_countdown nan_or_unit), reachable_Inv3. Qed.

(** X5. The capture lock and a countdown exclude each other: in no
    reachable state is the lock held while a countdown is registered. *)
Theorem lock_excludes_countdown (evs : list Event) :
  autoCaptureLockRef (run evs initial) && arming (run evs initial) = false.
Proof.
  pose proof (inv_lock nan_or_unit _ (reachable_Inv3 evs)) as H.
  unfold arming. destruct (autoCaptureLockRef (run evs initial)); [|reflexivity].
  rewrite (H eq_refl). reflexivity.
Qed.

(** X6. A fiducial check only calls the marker service with a snapshot
    that has a uri, so the call made from the screen never throws for a
    missing asset: it throws only when the service answers [ok] with a
    body that is not JSON. *)
Theorem validation_throws_only_on_bad_body (evs : list Event) (a : Asset)
    (net : FetchOutcome) :
  In (AwaitValidate a) (pendingChecks (run evs initial)) ->
  (validateFiducials (Some a) net = Throws
   <-> exists status, net = FetchResponds true status None).
Proof.
  intros Hin.
  pose proof (inv_uri nan_or_unit _ (reachable_Inv3 evs) a Hin) as H.
  unfold validateFiducials. rewrite H. cbn [negb].
  split.
  - destruct net as [|[] status [r|]]; cbn; try discriminate. eauto.
  - intros [status ->]. reflexivity.
Qed.

Lemma validation_throws_only_on_bad_body_witness :
  In (AwaitValidate pic) (pendingChecks (run checking_trace initial))
  /\ (validateFiducials (Some pic) (FetchResponds true 200 None) = Throws
      <-> exists status, FetchResponds true 200 None = FetchResponds true status None).
Proof.
  assert (H : In (AwaitValidate pic) (pendingChecks (run checking_trace initial))).
  { vm_compute. left. reflexivity. }
  split; [exact H|].
  apply (validation_throws_only_on_bad_body checking_trace pic _ H).
Defined.

(** ** Samples that are not finite *)

Lemma geb_nan (x y : float) : isnan x -> JS.geb x y = false.
Proof.
  unfold JS.geb. rewrite isnan_spec, FloatAxioms.leb_spec. intros ->.
  destruct (Prim2SF y) as [| | |]; reflexivity.
Qed.

(** X7. A motion sample with a NaN or infinite component is not
    rejected: the listener stores it as the last sample and the
    alignment score becomes NaN, whatever the score was. *)
Theorem bad_sample_poisons_score (sub : SubId) (data : Sample.t) (w : World) :
  existsb (Nat.eqb sub) (listeners w) = true ->
  bad_sample data ->
  is_nan (alignmentScore (step (EvAccelerometer sub data) w)) = true
  /\ lastAccelSampleRef (step (EvAccelerometer sub data) w) = Some data.
Proof.
  intros Hl Hbad. cbn [step]. rewrite Hl. split; [|reflexivity].
  apply (blend_nan (alignmentScore w)), composite_bad, Hbad.
Qed.

Lemma bad_sample_poisons_score_witness :
  existsb (Nat.eqb 1%nat) (listeners ready_world) = true
  /\ bad_sample inf_sample
  /\ is_nan (alignmentScore (step (EvAccelerometer 1%nat inf_sample) ready_world)) = true
  /\ lastAccelSampleRef (step (EvAccelerometer 1%nat inf_sample) ready_world)
     = Some inf_sample.
Proof.
  assert (Hl : existsb (Nat.eqb 1%nat) (listeners ready_world) = true)
    by (vm_compute; reflexivity).
  assert (Hb : bad_sample inf_sample) by (right; left; reflexivity).
  split; [exact Hl|]. split; [exact Hb|].
  apply (bad_sample_poisons_score 1%nat inf_sample ready_world Hl Hb).
Defined.

(** X8. The NaN does not stick: the finite sample that follows a bad
    one replaces the score by its own composite value, unblended, which
    is within [0, 1]. *)
Theorem score_recovers_after_bad_sample (bad data : Sample.t) (w : World) :
  bad_sample bad -> finite_sample data ->
  let w' := accelerometerListener data (accelerometerListener bad w) in
  alignmentScore w' = composite (Some bad) data /\ in_unit (alignmentScore w').
Proof.
  intros Hbad Hfin w'.
  assert (E : alignmentScore w' = composite (Some bad) data).
  { subst w'. unfold accelerometerListener. cbv zeta.
    change (alignmentScore (set_alignmentScore ?v _)) with v.
    change (lastAccelSampleRef (set_alignmentScore _ (set_lastAccelSampleRef ?v _)))
      with v.
    change (alignmentScore (set_lastAccelSampleRef _ (set_alignmentScore ?v _)))
      with v.
    change (alignmentScore (set_lastAccelSampleRef (Some bad) w))
      with (alignmentScore w).
    unfold blend at 1.
    rewrite (nan_not_finite _ (blend_nan (alignmentScore w) _
               (composite_bad (lastAccelSampleRef w) bad Hbad))).
    reflexivity. }
  split; [exact E|]. rewrite E. apply composite_unit, Hfin.
Qed.

Lemma score_recovers_after_bad_sample_witness :
  bad_sample nan_sample /\ finite_sample level
  /\ alignmentScore (accelerometerListener level (accelerometerListener nan_sample initial))
     = composite (Some nan_sample) level.
Proof.
  assert (Hb : bad_sample nan_sample) by (left; reflexivity).
  assert (Hf : finite_sample level) by (repeat split).
  split; [exact Hb|]. split; [exact Hf|].
  apply (score_recovers_after_bad_sample nan_sample level initial Hb Hf).
Defined.

Lemma autoCaptureEffect_unstable (now : Z) (w : World) :
  (autoCaptureLockRef w = true -> autoCaptureTimerRef w = None) ->
  stabilityOk w = false ->
  autoCaptureTimerRef (autoCaptureEffect now w) = None.
Proof.
  intros Hlock Hs. unfold autoCaptureEffect.
  destruct (negb (cameraVisible w)); [apply clearAutoCaptureTimer_ref|].
  destruct (negb (cameraReady w)); [apply clearAutoCaptureTimer_ref|].
  destruct (negb (autoCaptureEnabled w)); [apply clearAutoCaptureTimer_ref|].
  destruct (autoCaptureLockRef w); [apply Hlock; reflexivity|].
  cbv zeta. unfold bothConditionsMet. rewrite Hs, andb_false_r. cbn [andb negb].
  destruct (autoCaptureTimerRef w) eqn:Ht; cbn [isSome].
  - apply (clearAutoCaptureTimer_ref false w).
  - exact Ht.
Qed.

(** X9. While the alignment score is NaN the engine cannot arm: a run
    of the auto-capture effect leaves no countdown registered (one that
    was running is cancelled). *)
Theorem nan_score_never_arms (evs : list Event) (now : Z) :
  is_nan (alignmentScore (run evs initial)) = true ->
  arming (run (evs ++ [EvAutoCaptureEffect now]) initial) = false.
Proof.
  intros Hn. rewrite run_app. cbn [run fold_left step]. unfold arming.
  rewrite autoCaptureEffect_unstable; [reflexivity | |].
  - apply (inv_lock nan_or_unit), reachable_Inv3.
  - unfold stabilityOk. apply geb_nan, Hn.
Qed.

Lemma nan_score_never_arms_witness :
  is_nan (alignmentScore
            (run (open_session ++ signals_ready ++ [EvAccelerometer 1%nat nan_sample])
               initial)) = true
  /\ arming (run ((open_session ++ signals_ready ++ [EvAccelerometer 1%nat nan_sample])
                    ++ [EvAutoCaptureEffect 800]) initial) = false.
Proof.
  assert (H : is_nan (alignmentScore
            (run (open_session ++ signals_ready ++ [EvAccelerometer 1%nat nan_sample])
               initial)) = true) by (vm_compute; reflexivity).
  split; [exact H|].
  apply (nan_score_never_arms _ 800 H).
Defined.

(** X10. Only a countdown tick makes the auto-capture call, and only
    once at least 1200 ms lie between the start time the countdown
    recorded and the time of the tick: every other event, and every
    earlier tick, leaves the log of auto-capture calls as it is. *)
Theorem trigger_needs_full_countdown (e : Event) (w : World) :
  triggers (step e w) = triggers w
  \/ exists id now iv started c,
       e = EvInterval id now
       /\ find_interval id w = Some iv
       /\ iv_callback iv = CountdownCb started c
       /\ (started + 1200 <= now)%Z
       /\ triggers (step e w) = id :: triggers w.
Proof.
  destruct e; cbn [step].
  - left. unfold handleOpenCamera. trig. reflexivity.
  - left. unfold handleOpenCamera_afterPermission. trig; reflexivity.
  - left. apply triggers_handleCloseCamera.
  - left. reflexivity.
  - left. destruct (cameraRef w); reflexivity.
  - left. unfold toggleAutoCapture. trig; reflexivity.
  - left. destruct (cameraVisible w && cameraReady w);
      [apply triggers_handleTakePhoto | reflexivity].
  - left. apply triggers_monitoringEffect.
  - left. apply triggers_autoCaptureEffect.
  - destruct (find_interval id w) as [iv|] eqn:Hf; [|left; reflexivity].
    destruct (iv_callback iv) eqn:Hcb.
    + unfold countdownCallback. cbv zeta.
      destruct (Z.leb_spec (Z.max 0 (AUTO_CAPTURE_START_MS - (now - started))) 0)
        as [Hle | Hgt]; [|left; reflexivity].
      right. exists id, now, iv, started, cameraReady_c.
      repeat split; try reflexivity; try assumption.
      * unfold AUTO_CAPTURE_START_MS in Hle. lia.
      * rewrite triggers_handleTakePhoto. trig. reflexivity.
    + left. unfold fiducialPollCallback, checkFiducials. trig; reflexivity.
  - left. destruct (existsb _ _); [|reflexivity].
    unfold accelerometerListener. trig. reflexivity.
  - left. destruct (nth_error (pendingChecks w) k) as [[|a]|]; try reflexivity.
    unfold checkFiducials_afterSnapshot, checkFiducials_finally.
    destruct r as [|[a|]]; [| destruct (has_uri (Some a)) |]; reflexivity.
  - left. destruct (nth_error (pendingChecks w) k) as [[|a]|]; try reflexivity.
    unfold checkFiducials_afterValidate, checkFiducials_finally.
    destruct (validateFiducials (Some a) net); reflexivity.
  - left. destruct (nth_error (pendingCaptures w) k) as [[|]|]; try reflexivity.
    unfold handleTakePhoto_afterPhoto, handleTakePhoto_finally.
    destruct resolved; trig; rewrite ?triggers_handleCloseCamera; reflexivity.
  - left. destruct (nth_error (pendingCaptures w) k) as [[|]|]; try reflexivity.
    unfold handleTakePhoto_finally. trig. reflexivity.
Qed.

(** ** Manual capture *)

Lemma clearAutoCaptureTimer_keeps (p : bool) (w : World) :
  cameraRef (clearAutoCaptureTimer p w) = cameraRef w
  /\ pendingCaptures (clearAutoCaptureTimer p w) = pendingCaptures w.
Proof.
  unfold clearAutoCaptureTimer.
  destruct w as [? ? ? ? ? ? ? ? ? ? ? sub tr ? ? fi ? ivs ? ? ? ? ? ? ?].
  destruct p, tr, fi; split; reflexivity.
Qed.

Lemma handleTakePhoto_pressed (w : World) :
  cameraRef w = true -> cameraReady w = true ->
  handleTakePhoto (cameraReady w) true w
  = set_pendingCaptures (pendingCaptures w ++ [AwaitPhoto]) w.
Proof.
  intros Href Hready. unfold handleTakePhoto. rewrite Href, Hready. reflexivity.
Qed.

(** X11. The Capture button hands the press event to [handleTakePhoto]
    as its [autoTriggered] argument, so a manual capture does not cancel
    a running countdown: the interval stays registered, and when it
    expires the auto-capture call asks for a second photo while the
    first request is still pending. *)
Theorem manual_capture_keeps_countdown (w : World) (id : TimerId) (iv : Interval)
    (started now : Z) :
  cameraVisible w = true -> cameraReady w = true -> cameraRef w = true ->
  find_interval id w = Some iv ->
  iv_callback iv = CountdownCb started true ->
  (started + 1200 <= now)%Z ->
  intervals (step EvCapturePressed w) = intervals w
  /\ autoCaptureTimerRef (step EvCapturePressed w) = autoCaptureTimerRef w
  /\ pendingCaptures (run [EvCapturePressed; EvInterval id now] w)
     = pendingCaptures w ++ [AwaitPhoto; AwaitPhoto].
Proof.
  intros Hvis Hready Href Hf Hcb Hnow.
  assert (E : step EvCapturePressed w
              = set_pendingCaptures (pendingCaptures w ++ [AwaitPhoto]) w).
  { cbn [step]. rewrite Hvis, Hready. cbn [andb].
    rewrite <- Hready at 1. apply handleTakePhoto_pressed; assumption. }
  unfold run. cbn [fold_left]. rewrite E.
  split; [reflexivity|]. split; [reflexivity|].
  set (w1 := set_pendingCaptures (pendingCaptures w ++ [AwaitPhoto]) w).
  cbn [step].
  change (find_interval id w1) with (find_interval id w). rewrite Hf, Hcb.
  unfold countdownCallback. cbv zeta.
  destruct (Z.leb_spec (Z.max 0 (AUTO_CAPTURE_START_MS - (now - started))) 0)
    as [_ | Hgt]; [|unfold AUTO_CAPTURE_START_MS in Hgt; lia].
  set (r := Z.max 0 (AUTO_CAPTURE_START_MS - (now - started))).
  destruct (clearAutoCaptureTimer_keeps true (set_autoCaptureCountdown r w1))
    as [Kref Kpend].
  revert Kref Kpend.
  generalize (clearAutoCaptureTimer true (set_autoCaptureCountdown r w1)).
  intros w2 Kref Kpend. unfold handleTakePhoto.
  change (cameraRef (set_triggers _ (set_autoCaptureLockRef true w2)))
    with (cameraRef w2).
  rewrite Kref. change (cameraRef (set_autoCaptureCountdown r w1)) with (cameraRef w).
  rewrite Href. cbn [negb].
  change (pendingCaptures (set_pendingCaptures ?l _)) with l.
  change (pendingCaptures (set_triggers _ (set_autoCaptureLockRef true w2)))
    with (pendingCaptures w2).
  rewrite Kpend.
  change (pendingCaptures (set_autoCaptureCountdown r w1))
    with (pendingCaptures w ++ [AwaitPhoto]).
  rewrite <- app_assoc. reflexivity.
Qed.

Lemma manual_capture_keeps_countdown_witness :
  pendingCaptures (run [EvCapturePressed; EvInterval 2%nat 2000] armed_world)
  = pendingCaptures armed_world ++ [AwaitPhoto; AwaitPhoto].
Proof.
  apply (manual_capture_keeps_countdown armed_world 2%nat
           {| iv_id := 2%nat; iv_period := COUNTDOWN_TICK_MS;
              iv_callback := CountdownCb 800 true |} 800 2000);
    first [vm_compute; reflexivity | discriminate].
Defined.

(** X12. Closing the camera is idempotent: a second close right after
    the first changes nothing. *)
Theorem handleCloseCamera_idempotent (w : World) :
  handleCloseCamera (handleCloseCamera w) = handleCloseCamera w.
Proof.
  destruct w as [? ? ? ? ? ? ? ? ? ? ? sub tr ? ? fi ? ivs ? ls ? ? ? ? ?].
  destruct sub, tr, fi; vm_compute; reflexivity.
Qed.

(** ** The first sample of a session *)

(** Blending a value of [0, 1] into a score of 0 stays below the start
    threshold: the result is at most 0.45. *)
Lemma blend_zero_below (c : float) : in_unit c -> JS.geb (blend 0 c) 0.55 = false.
Proof.
  intros [Hc0 Hc1]. rewrite leb0_spec in Hc0. rewrite leb1_spec in Hc1.
  unfold JS.geb, blend. change (JS.Number_isFinite 0) with true. cbv iota.
  rewrite FloatAxioms.leb_spec, FloatAxioms.add_spec, !FloatAxioms.mul_spec.
  unfold SF64add, SF64mul.
  change (Prim2SF 0.45) with SF045. change (Prim2SF 0.55) with SF055.
  change (SFmul prec emax (Prim2SF 0) SF055) with (S754_zero false).
  destruct (SFmul_unit_below (Prim2SF c) 8106479329266893 (-54)
              (Prim2SF_valid c) Hc0 Hc1 eq_refl)
    as [[b Hr] | (m & e & Hr & He & Hm)];
    cbv zeta in Hr; fold SF045 in Hr; rewrite Hr.
  - destruct b; reflexivity.
  - simpl SFadd. unfold SFleb, SF055, SFcompare.
    destruct (Z.compare_spec (-53) e) as [E | E | E]; try reflexivity; lia.
Qed.

(** X13. One motion sample is never enough to arm: when the score is 0
    (as every open and every close leave it), the score after the next
    sample is below the start threshold of 0.55, whatever the sample. *)
Theorem first_sample_never_arms (sub : SubId) (data : Sample.t) (w : World) :
  alignmentScore w = 0 ->
  stabilityOk (step (EvAccelerometer sub data) w) = false.
Proof.
  intros H0. cbn [step]. unfold stabilityOk.
  destruct (existsb (Nat.eqb sub) (listeners w)).
  - unfold accelerometerListener. cbv zeta.
    change (alignmentScore (set_alignmentScore ?v _)) with v.
    change (alignmentScore (set_lastAccelSampleRef (Some data) w))
      with (alignmentScore w).
    rewrite H0.
    destruct (composite_range (lastAccelSampleRef w) data) as [Hc | Hc].
    + apply geb_nan, blend_nan, Hc.
    + apply blend_zero_below, Hc.
  - rewrite H0. reflexivity.
Qed.

Lemma first_sample_never_arms_witness :
  alignmentScore (run open_session initial) = 0
  /\ stabilityOk (step (EvAccelerometer 1%nat level) (run open_session initial)) = false.
Proof.
  assert (H : alignmentScore (run open_session initial) = 0)
    by (vm_compute; reflexivity).
  split; [exact H | apply (first_sample_never_arms 1%nat level _ H)].
Defined.

(** ** The two penalties *)

(** X14. For a sample with finite components the base score and the
    jitter penalty are both within [0, 1], whatever the previous sample
    was (also one with NaN or infinite components). *)
Theorem penalties_in_unit (previous : option Sample.t) (data : Sample.t) :
  finite_sample data ->
  in_unit (deriveAlignmentScore data)
  /\ in_unit (computeJitterPenalty previous data).
Proof.
  intros H. split.
  - apply deriveAlignmentScore_unit, H.
  - apply computeJitterPenalty_unit, H.
Qed.

Lemma penalties_in_unit_witness :
  finite_sample level
  /\ in_unit (deriveAlignmentScore level)
  /\ in_unit (computeJitterPenalty (Some inf_sample) level).
Proof.
  assert (H : finite_sample level) by (repeat split).
  split; [exact H | apply (penalties_in_unit (Some inf_sample) level H)].
Defined.

Lemma sub_diag (a : float) : finite a -> a - a = 0.
Proof.
  unfold finite. rewrite is_finite_spec. intros H.
  rewrite <- (FloatAxioms.SF2Prim_Prim2SF (a - a)), FloatAxioms.sub_spec.
  destruct (Prim2SF a) as [[]| | |s m e]; try discriminate; try reflexivity.
  unfold SF64sub, SFsub. rewrite Z.sub_diag. reflexivity.
Qed.

(** X15. A device at rest pays no jitter penalty: when a sample with
    finite components equals the previous one, the penalty is exactly
    0. *)
Theorem jitter_zero_at_rest (data : Sample.t) :
  finite_sample data -> computeJitterPenalty (Some data) data = 0.
Proof.
  intros (Hx & Hy & Hz). unfold computeJitterPenalty.
  rewrite (sub_diag _ (or0_finite _ Hx)), (sub_diag _ (or0_finite _ Hy)),
    (sub_diag _ (or0_finite _ Hz)).
  vm_compute. reflexivity.
Qed.

Lemma jitter_zero_at_rest_witness :
  finite_sample level /\ computeJitterPenalty (Some level) level = 0.
Proof.
  assert (H : finite_sample level) by (repeat split).
  split; [exact H | apply (jitter_zero_at_rest level H)].
Defined.

(** ** The status line *)

Lemma not_ltb_geb (a b : float) :
  notnan a -> notnan b -> (a <? b) = false -> JS.geb a b = true.
Proof.
  unfold notnan, JS.geb.
  rewrite !is_nan_spec, FloatAxioms.ltb_spec, FloatAxioms.leb_spec.
  intros Ha Hb. unfold SFltb, SFleb. rewrite (SFcompare_antisym _ _ Ha Hb).
  destruct (SFcompare (Prim2SF a) (Prim2SF b)) as [[]|] eqn:E; simpl;
    try reflexivity; try discriminate.
  destruct (Prim2SF a) as [sa|sa| |sa ma ea], (Prim2SF b) as [sb|sb| |sb mb eb];
    simpl in *; discriminate.
Qed.

Lemma geb_four (c : float) :
  JS.geb c MIN_FIDUCIALS_FOR_CAPTURE = true ->
  (c =? 0) = false /\ (c <? MIN_FIDUCIALS_FOR_CAPTURE) = false.
Proof.
  unfold JS.geb, MIN_FIDUCIALS_FOR_CAPTURE.
  rewrite FloatAxioms.leb_spec, FloatAxioms.eqb_spec, FloatAxioms.ltb_spec.
  change (Prim2SF 4) with (S754_finite false 4503599627370496 (-50)).
  change (Prim2SF 0) with (S754_zero false).
  unfold SFleb, SFeqb, SFltb.
  destruct (Prim2SF c) as [s|s| |s m e]; cbv beta iota delta [SFcompare];
    try discriminate.
  - destruct s; [discriminate | auto].
  - destruct s; [discriminate|]. intros H. split; [reflexivity|].
    rewrite (Z.compare_antisym (-50) e).
    destruct (Z.compare (-50) e); cbn [CompOpp] in *;
      try reflexivity; try discriminate.
    replace (Pos.compare_cont Eq m 4503599627370496)
      with (CompOpp (Pos.compare_cont Eq 4503599627370496 m))
      by (apply (Pos.compare_cont_antisym 4503599627370496 m Eq)).
    destruct (Pos.compare_cont Eq 4503599627370496 m); cbn [CompOpp] in *;
      try reflexivity; discriminate.
Qed.

Lemma clearAutoCaptureTimer_status (p : bool) (w : World) :
  alignmentStatus (clearAutoCaptureTimer p w) = alignmentStatus w.
Proof.
  unfold clearAutoCaptureTimer.
  destruct w as [? ? ? ? ? ? ? ? ? ? ? sub tr ? ? fi ? ivs ? ? ? ? ? ? ?].
  destruct p, tr, fi; reflexivity.
Qed.

Lemma statusMessage_unmet (w : World) :
  notnan (fiducialCount w) -> bothConditionsMet w = false ->
  statusMessage w (stabilityOk w) <> StatusArming
  /\ statusMessage w (stabilityOk w) <> StatusCapturingSoon.
Proof.
  intros Hn Hb. unfold statusMessage.
  destruct (fiducialCount w =? 0); [split; discriminate|].
  destruct (fiducialCount w <? MIN_FIDUCIALS_FOR_CAPTURE) eqn:Hlt;
    [split; discriminate|].
  destruct (fiducialReady w) eqn:Hr; cbn [negb]; [|split; discriminate].
  destruct (stabilityOk w) eqn:Hs; cbn [negb]; [|split; discriminate].
  unfold bothConditionsMet, fiducialsOk in Hb. rewrite Hr, Hs in Hb.
  assert (H4 : notnan MIN_FIDUCIALS_FOR_CAPTURE) by reflexivity.
  rewrite (not_ltb_geb _ _ Hn H4 Hlt) in Hb. discriminate Hb.
Qed.

Lemma statusMessage_met (w : World) :
  bothConditionsMet w = true -> statusMessage w (stabilityOk w) = StatusArming.
Proof.
  unfold bothConditionsMet, fiducialsOk. rewrite !andb_true_iff.
  intros [[Hc Hr] Hs]. destruct (geb_four _ Hc) as [H0 H4].
  unfold statusMessage. rewrite H0, H4, Hr, Hs. reflexivity.
Qed.

Lemma autoCaptureEffect_status (now : Z) (w : World) :
  (autoCaptureLockRef w = true -> autoCaptureTimerRef w = None) ->
  notnan (fiducialCount w) ->
  arming (autoCaptureEffect now w) = true
  <-> (alignmentStatus (autoCaptureEffect now w) = StatusCapturingSoon
       \/ alignmentStatus (autoCaptureEffect now w) = StatusArming).
Proof.
  intros Hlock Hn. unfold arming, autoCaptureEffect.
  assert (Hc : forall s, s <> StatusCapturingSoon -> s <> StatusArming ->
    isSome (autoCaptureTimerRef (clearAutoCaptureTimer false (set_alignmentStatus s w)))
      = true
    <-> (alignmentStatus (clearAutoCaptureTimer false (set_alignmentStatus s w))
           = StatusCapturingSoon
         \/ alignmentStatus (clearAutoCaptureTimer false (set_alignmentStatus s w))
           = StatusArming)).
  { intros s H1 H2. rewrite clearAutoCaptureTimer_ref, clearAutoCaptureTimer_status.
    cbn. split; [discriminate | intros [E | E]; contradiction]. }
  destruct (negb (cameraVisible w)); [apply Hc; discriminate|].
  destruct (negb (cameraReady w)); [apply Hc; discriminate|].
  destruct (negb (autoCaptureEnabled w)); [apply Hc; discriminate|].
  destruct (autoCaptureLockRef w).
  { cbn. rewrite (Hlock eq_refl). cbn.
    split; [discriminate | intros [E | E]; discriminate E]. }
  cbv zeta. destruct (bothConditionsMet w) eqn:Hb; cbn [andb negb].
  - destruct (autoCaptureTimerRef w) eqn:Ht; cbn [isSome negb].
    + change (autoCaptureTimerRef (set_alignmentStatus ?s ?x))
        with (autoCaptureTimerRef x).
      change (alignmentStatus (set_alignmentStatus ?s ?x)) with s.
      rewrite Ht, (statusMessage_met w Hb). cbn [isSome]. split; auto.
    + unfold setInterval. cbv beta iota zeta. split; [left|]; reflexivity.
  - destruct (statusMessage_unmet w Hn Hb) as [N1 N2].
    destruct (autoCaptureTimerRef w) eqn:Ht; cbn [isSome].
    + change (autoCaptureTimerRef (set_alignmentStatus ?s ?x))
        with (autoCaptureTimerRef x).
      change (alignmentStatus (set_alignmentStatus ?s ?x)) with s.
      rewrite clearAutoCaptureTimer_ref. cbn.
      split; [discriminate | intros [E | E]; contradiction].
    + change (autoCaptureTimerRef (set_alignmentStatus ?s ?x))
        with (autoCaptureTimerRef x).
      change (alignmentStatus (set_alignmentStatus ?s ?x)) with s.
      rewrite Ht. cbn [isSome].
      split; [discriminate | intros [E | E]; contradiction].
Qed.

(** X20. After every run of the auto-capture effect the status line
    reads [capturing soon] or [auto capture arming] exactly when a
    countdown is registered. *)
Theorem status_tells_countdown (evs : list Event) (now : Z) :
  arming (run (evs ++ [EvAutoCaptureEffect now]) initial) = true
  <-> (alignmentStatus (run (evs ++ [EvAutoCaptureEffect now]) initial)
         = StatusCapturingSoon
       \/ alignmentStatus (run (evs ++ [EvAutoCaptureEffect now]) initial)
         = StatusArming).
Proof.
  rewrite run_app. cbn [run fold_left step].
  pose proof (reachable_Inv3 evs) as H.
  apply autoCaptureEffect_status.
  - apply (inv_lock nan_or_unit _ H).
  - apply (inv_count nan_or_unit _ H).
Qed.

(** ** The switch and late answers *)

Lemma clearAutoCaptureTimer_pollRef (p : bool) (w : World) :
  fiducialCheckIntervalRef (clearAutoCaptureTimer p w) = None.
Proof.
  unfold clearAutoCaptureTimer.
  destruct w as [? ? ? ? ? ? ? ? ? ? ? ? tr ? ? fi ? ? ? ? ? ? ? ? ?].
  destruct p, tr, fi; reflexivity.
Qed.

(** X21. Switching auto capture off and on again (or on and off)
    restores the switch but not the timers: no interval is left
    registered, so the fiducial poll is stopped and the switch does not
    start it again. *)
Theorem toggle_twice_stops_polling (evs : list Event) :
  let w := run evs initial in
  let w' := run [EvToggleAutoCapture; EvToggleAutoCapture] w in
  autoCaptureEnabled w' = autoCaptureEnabled w
  /\ intervals w' = []
  /\ fiducialCheckIntervalRef w' = None.
Proof.
  intros w w'. destruct (reachable_Inv evs) as [HI _]. fold w in HI.
  assert (E : w' = toggleAutoCapture (toggleAutoCapture w)) by reflexivity.
  rewrite E. clear E w'. clearbody w.
  assert (Hi : forall v x, intervals (set_autoCaptureEnabled v x) = intervals x)
    by reflexivity.
  assert (Hr : forall v x, fiducialCheckIntervalRef (set_autoCaptureEnabled v x)
                           = fiducialCheckIntervalRef x) by reflexivity.
  assert (He : forall v x, autoCaptureEnabled (set_autoCaptureEnabled v x) = v)
    by reflexivity.
  destruct (autoCaptureEnabled w) eqn:Hw.
  - assert (E1 : toggleAutoCapture w
                 = set_autoCaptureEnabled false (clearAutoCaptureTimer false w)).
    { unfold toggleAutoCapture. rewrite Hw. reflexivity. }
    rewrite E1. unfold toggleAutoCapture. cbv zeta. rewrite !He. cbn [negb].
    rewrite !Hi, !Hr, (clearAutoCaptureTimer_intervals false w HI),
      clearAutoCaptureTimer_pollRef.
    auto.
  - assert (E1 : toggleAutoCapture w = set_autoCaptureEnabled true w).
    { unfold toggleAutoCapture. rewrite Hw. reflexivity. }
    rewrite E1. unfold toggleAutoCapture. cbv zeta. rewrite !He. cbn [negb].
    rewrite !Hi, !Hr, clearAutoCaptureTimer_pollRef,
      (clearAutoCaptureTimer_intervals false _
         (Inv_set_autoCaptureEnabled true w HI)).
    auto.
Qed.

Lemma close_keeps_pending (w : World) :
  let w' := run [EvCloseCamera; EvCommit; EvMonitoringEffect] w in
  pendingChecks w' = pendingChecks w /\ sessionCleanup w' = false.
Proof.
  destruct w as [? ? ? ? ? ? ? ? ? ? ? sub tr ? ? fi ? ivs ? ls ? sc ? ? ?].
  destruct sub, tr, fi, sc; vm_compute; auto.
Qed.

Lemma reopen_keeps_fiducials (w : World) :
  sessionCleanup w = false ->
  let w' := run [EvOpenCamera; EvPermission true; EvCommit; EvMonitoringEffect] w in
  cameraVisible w' = true
  /\ fiducialCount w' = fiducialCount w
  /\ fiducialQuality w' = fiducialQuality w
  /\ fiducialReady w' = fiducialReady w.
Proof.
  destruct w as [? ? ? ? ? ? ? ? ? ? ? sub tr ? ? fi ? ivs ? ls ? sc ? ? ?].
  cbn [sessionCleanup]. intros ->.
  destruct tr, fi; vm_compute; auto.
Qed.

(** X22. Closing the camera does not cancel a fiducial check that
    waits for the marker service: its answer is stored after the close,
    and neither the close nor the next open resets it, so the re-opened
    session starts with the count, quality and ready flag of a snapshot
    of the previous session. *)
Theorem late_answer_survives_reopen (w : World) (k : nat) (a : Asset)
    (status : Z) (r : FiducialResult) :
  nth_error (pendingChecks w) k = Some (AwaitValidate a) ->
  has_uri (Some a) = true ->
  let w' := run (late_answer_trace k (FetchResponds true status (Some r))) w in
  cameraVisible w' = true
  /\ fiducialCount w' = JS.or0 (Some (detected r))
  /\ fiducialQuality w' = JS.or0 (Some (quality r))
  /\ fiducialReady w' = ready r.
Proof.
  intros Hk Huri w'. subst w'. unfold late_answer_trace.
  change [EvCloseCamera; EvCommit; EvMonitoringEffect;
          EvValidate k (FetchResponds true status (Some r));
          EvOpenCamera; EvPermission true; EvCommit; EvMonitoringEffect]
    with ([EvCloseCamera; EvCommit; EvMonitoringEffect]
          ++ [EvValidate k (FetchResponds true status (Some r))]
          ++ [EvOpenCamera; EvPermission true; EvCommit; EvMonitoringEffect]).
  rewrite !run_app.
  assert (Hone : forall e x, run [e] x = step e x) by reflexivity.
  rewrite Hone.
  destruct (close_keeps_pending w) as [Hp Hs]. revert Hp Hs.
  generalize (run [EvCloseCamera; EvCommit; EvMonitoringEffect] w).
  intros w1 Hp Hs. cbn [step]. rewrite Hp, Hk. cbv zeta.
  unfold checkFiducials_afterValidate, validateFiducials. rewrite Huri.
  cbn [negb]. cbv zeta. unfold checkFiducials_finally.
  match goal with
  | |- context [run _ ?x] =>
      assert (Hs' : sessionCleanup x = false) by exact Hs;
      destruct (reopen_keeps_fiducials x Hs') as (V & C & Q & R)
  end.
  rewrite V, C, Q, R. cbn. rewrite orb_false_r. auto.
Qed.

Lemma late_answer_survives_reopen_witness :
  nth_error (pendingChecks (run checking_trace initial)) 0 = Some (AwaitValidate pic)
  /\ has_uri (Some pic) = true
  /\ fiducialCount
       (run (late_answer_trace 0 (FetchResponds true 200 (Some found4)))
          (run checking_trace initial))
     = JS.or0 (Some (detected found4)).
Proof.
  assert (H1 : nth_error (pendingChecks (run checking_trace initial)) 0
               = Some (AwaitValidate pic)) by (vm_compute; reflexivity).
  assert (H2 : has_uri (Some pic) = true) by reflexivity.
  split; [exact H1|]. split; [exact H2|].
  destruct (late_answer_survives_reopen _ 0%nat pic 200 found4 H1 H2)
    as (_ & C & _ & _).
  exact C.
Defined.

(** ** A re-opened session *)

(** C9. Closing the camera resets the readiness state, but a re-opened
    session does not start without carried-over state. On
    [stale_reopen_trace] the close leaves the readiness state at its
    initial values while the fiducial check stays pending; its answer is
    stored afterwards, and the camera opened again shows four corners,
    quality 0.9 and the ready flag of the previous session's snapshot,
    where a camera opened for the first time has 0, 0 and false. *)
Theorem reopened_session_carries_fiducials :
  let closed :=
    run (checking_trace ++ [EvCloseCamera; EvCommit; EvMonitoringEffect]) initial in
  let reopened := run stale_reopen_trace initial in
  let first := run first_open_trace initial in
  (readiness closed = readiness initial
   /\ pendingChecks closed = [AwaitValidate pic])
  /\ (cameraVisible reopened = true
      /\ fiducialCount reopened = 4
      /\ fiducialQuality reopened = 0.9
      /\ fiducialReady reopened = true)
  /\ (cameraVisible first = true
      /\ fiducialCount first = 0
      /\ fiducialQuality first = 0
      /\ fiducialReady first = false).
Proof.
  intros closed reopened first.
  assert (Hc : readiness closed = readiness initial
               /\ pendingChecks closed = [AwaitValidate pic]).
  { subst closed. vm_compute. split; reflexivity. }
  assert (Hr : cameraVisible reopened = true /\ fiducialCount reopened = 4
               /\ fiducialQuality reopened = 0.9 /\ fiducialReady reopened = true).
  { subst reopened. vm_compute. splits; reflexivity. }
  assert (Hf : cameraVisible first = true /\ fiducialCount first = 0
               /\ fiducialQuality first = 0 /\ fiducialReady first = false).
  { subst first. vm_compute. splits; reflexivity. }
  exact (conj Hc (conj Hr Hf)).
Qed.

(** * The sign-in form *)

Import RegExp.

Lemma lang_cat (r1 r2 : regex) (s : jsstring) :
  lang (Cat r1 r2) s <-> exists s1 s2, s = s1 ++ s2 /\ lang r1 s1 /\ lang r2 s2.
Proof.
  split.
  - intros H. inversion H; subst. eauto.
  - intros (s1 & s2 & -> & H1 & H2). constructor; assumption.
Qed.

Lemma lang_class (p : N -> bool) (s : jsstring) :
  lang (Class p) s <-> exists c, s = [c] /\ p c = true.
Proof.
  split.
  - intros H. inversion H; subst. eauto.
  - intros (c & -> & H). constructor. exact H.
Qed.

Lemma nullable_spec (r : regex) : nullable r = true <-> lang r [].
Proof.
  induction r as [| |p|r1 IH1 r2 IH2|r1 IH1 r2 IH2|r IH]; cbn.
  - split; [discriminate | intros H; inversion H].
  - split; [constructor | reflexivity].
  - split; [discriminate | intros H; inversion H].
  - rewrite andb_true_iff, IH1, IH2, lang_cat. split.
    + intros [H1 H2]. exists [], []. auto.
    + intros (s1 & s2 & E & H1 & H2). symmetry in E.
      apply app_eq_nil in E. destruct E; subst. auto.
  - rewrite orb_true_iff, IH1, IH2. split.
    + intros [H | H]; [apply LAltL | apply LAltR]; exact H.
    + intros H. inversion H; subst; auto.
  - split; [constructor | reflexivity].
Qed.

Lemma lang_star_cons (r : regex) (c : N) (s : jsstring) :
  lang (Star r) (c :: s) ->
  exists s1 s2, s = s1 ++ s2 /\ lang r (c :: s1) /\ lang (Star r) s2.
Proof.
  intros H. remember (Star r) as R eqn:ER. remember (c :: s) as cs eqn:Es.
  revert s Es.
  induction H as [| | | | | |r' s1 s2 H1 _ H2 IH2]; intros tl Es; try discriminate.
  injection ER as ->. destruct s1 as [|c1 s1].
  - apply (IH2 eq_refl tl Es).
  - cbn in Es. injection Es as -> <-. exists s1, s2. auto.
Qed.

Lemma deriv_spec (c : N) (r : regex) (s : jsstring) :
  lang (deriv c r) s <-> lang r (c :: s).
Proof.
  revert s.
  induction r as [| |p|r1 IH1 r2 IH2|r1 IH1 r2 IH2|r IH]; intros s; cbn.
  - split; intros H; inversion H.
  - split; intros H; inversion H.
  - rewrite lang_class. split.
    + destruct (p c) eqn:E; intros H; inversion H; subst.
      exists c. auto.
    + intros (c' & E & H). injection E as -> ->. rewrite H. constructor.
  - assert (Hcat : lang (Cat (deriv c r1) r2) s ->
                   lang (Cat r1 r2) (c :: s)).
    { rewrite lang_cat. intros (s1 & s2 & -> & H1 & H2).
      apply IH1 in H1. apply (LCat r1 r2 (c :: s1) s2 H1 H2). }
    split.
    + destruct (nullable r1) eqn:N1; [|exact Hcat].
      intros H. inversion H; subst; [auto|].
      apply nullable_spec in N1.
      apply (LCat r1 r2 [] (c :: s) N1). apply IH2. assumption.
    + rewrite lang_cat. intros (s1 & s2 & E & H1 & H2).
      destruct s1 as [|c1 s1]; cbn in E.
      * subst s2. apply nullable_spec in H1. rewrite H1.
        apply LAltR, IH2, H2.
      * injection E as <- ->.
        assert (Hd : lang (Cat (deriv c r1) r2) (s1 ++ s2)).
        { constructor; [apply IH1|]; assumption. }
        destruct (nullable r1); [apply LAltL|]; exact Hd.
  - split; intros H; inversion H; subst.
    + apply LAltL, IH1. assumption.
    + apply LAltR, IH2. assumption.
    + apply LAltL, IH1. assumption.
    + apply LAltR, IH2. assumption.
  - rewrite lang_cat. split.
    + intros (s1 & s2 & -> & H1 & H2). apply IH in H1.
      apply (LStarCons r (c :: s1) s2 H1 H2).
    + intros H. apply lang_star_cons in H.
      destruct H as (s1 & s2 & -> & H1 & H2).
      exists s1, s2. rewrite IH. auto.
Qed.

(** The matcher decides the language of the pattern. *)
Lemma test_spec (r : regex) (s : jsstring) : test r s = true <-> lang r s.
Proof.
  revert r. induction s as [|c s IH]; intros r.
  - apply nullable_spec.
  - unfold test. cbn [fold_left]. fold (test (deriv c r) s).
    rewrite IH. apply deriv_spec.
Qed.

Lemma lang_star_class (p : N -> bool) (s : jsstring) :
  lang (Star (Class p)) s <-> forallb p s = true.
Proof.
  split.
  - intros H. remember (Star (Class p)) as R eqn:ER.
    induction H as [| | | | | |r' s1 s2 H1 _ H2 IH2]; try discriminate.
    + reflexivity.
    + injection ER as ->. apply lang_class in H1. destruct H1 as (c & -> & Hc).
      cbn. rewrite Hc. apply IH2. reflexivity.
  - induction s as [|c s IH]; cbn; [constructor|].
    rewrite andb_true_iff. intros [Hc Hs].
    apply (LStarCons (Class p) [c] s); [constructor; exact Hc | apply IH, Hs].
Qed.

Lemma lang_plus_class (p : N -> bool) (s : jsstring) :
  lang (Plus (Class p)) s <-> s <> [] /\ forallb p s = true.
Proof.
  unfold Plus. rewrite lang_cat. split.
  - intros (s1 & s2 & -> & H1 & H2). apply lang_class in H1.
    destruct H1 as (c & -> & Hc). apply lang_star_class in H2.
    split; [discriminate|]. cbn. rewrite Hc. exact H2.
  - intros [Hne Hall]. destruct s as [|c s]; [contradiction|].
    cbn in Hall. apply andb_true_iff in Hall. destruct Hall as [Hc Hs].
    exists [c], s. split; [reflexivity|]. split.
    + constructor. exact Hc.
    + apply lang_star_class, Hs.
Qed.

Lemma lang_char (k : N) (s : jsstring) : lang (Class (N.eqb k)) s <-> s = [k].
Proof.
  rewrite lang_class. split.
  - intros (c & -> & H). apply N.eqb_eq in H. subst. reflexivity.
  - intros ->. exists k. split; [reflexivity | apply N.eqb_refl].
Qed.

(** X16. The address check accepts exactly the strings of the form
    [local@domain.tld] whose three parts are not empty and contain
    neither white space nor [@]; so an accepted address has one [@] and
    a dot inside what follows it. *)
Theorem emailRegex_accepts_shape (s : jsstring) :
  test emailRegex s = true <-> email_shape s.
Proof.
  rewrite test_spec. unfold emailRegex, email_shape. split.
  - intros H.
    apply lang_cat in H. destruct H as (l & s1 & -> & Hl & H).
    apply lang_cat in H. destruct H as (a & s2 & -> & Ha & H).
    apply lang_cat in H. destruct H as (d & s3 & -> & Hd & H).
    apply lang_cat in H. destruct H as (b & t & -> & Hb & Ht).
    apply lang_char in Ha, Hb. subst a b.
    apply lang_plus_class in Hl, Hd, Ht.
    destruct Hl as [Hl1 Hl2], Hd as [Hd1 Hd2], Ht as [Ht1 Ht2].
    exists l, d, t. auto 10.
  - intros (l & d & t & -> & Hl & Hd & Ht & Al & Ad & At).
    apply LCat; [apply lang_plus_class; auto|].
    apply LCat; [apply lang_char; reflexivity|].
    apply LCat; [apply lang_plus_class; auto|].
    apply LCat; [apply lang_char; reflexivity|].
    apply lang_plus_class; auto.
Qed.

(** ** Trimming *)

Lemma trimStart_blank (s : jsstring) :
  forallb Str.isWhiteSpace s = true -> Str.trimStart s = [].
Proof.
  induction s as [|c s IH]; cbn; [reflexivity|].
  rewrite andb_true_iff. intros [-> Hs]. apply IH, Hs.
Qed.

Lemma trim_blank (s : jsstring) :
  forallb Str.isWhiteSpace s = true -> Str.trim s = [].
Proof. intros H. unfold Str.trim. rewrite (trimStart_blank s H). reflexivity. Qed.

Lemma trimStart_head (s : jsstring) : starts_clean (Str.trimStart s).
Proof.
  induction s as [|c s IH]; cbn; [exact I|].
  destruct (Str.isWhiteSpace c) eqn:E; [exact IH | exact E].
Qed.

Lemma trimStart_fixed (s : jsstring) : starts_clean s -> Str.trimStart s = s.
Proof. destruct s as [|c s]; cbn; [reflexivity | intros ->; reflexivity]. Qed.

Lemma trimStart_snoc (l : jsstring) (c : N) :
  Str.isWhiteSpace c = false -> exists u, Str.trimStart (l ++ [c]) = u ++ [c].
Proof.
  intros Hc. induction l as [|a l IH]; cbn.
  - rewrite Hc. exists []. reflexivity.
  - destruct (Str.isWhiteSpace a); [exact IH|]. exists (a :: l). reflexivity.
Qed.

Lemma trimEnd_head (s : jsstring) : starts_clean s -> starts_clean (Str.trimEnd s).
Proof.
  destruct s as [|c s]; [intros _; exact I|]. intros Hc.
  unfold Str.trimEnd. cbn [rev].
  destruct (trimStart_snoc (rev s) c Hc) as [u ->].
  rewrite rev_app_distr. exact Hc.
Qed.

Lemma trimEnd_idempotent (s : jsstring) : Str.trimEnd (Str.trimEnd s) = Str.trimEnd s.
Proof.
  unfold Str.trimEnd. rewrite rev_involutive.
  rewrite (trimStart_fixed _ (trimStart_head (rev s))). reflexivity.
Qed.

Lemma trim_idempotent (s : jsstring) : Str.trim (Str.trim s) = Str.trim s.
Proof.
  unfold Str.trim.
  rewrite (trimStart_fixed _ (trimEnd_head _ (trimStart_head s))).
  apply trimEnd_idempotent.
Qed.

(** X17. Whatever [handleRegister] accepts and sends to the sign-up
    call, [handleLogin] accepts for the same email and password fields
    and sends the same credentials: an account created through the form
    is never locked out by the checks of the sign-in form. *)
Theorem register_implies_login (email password confirmPassword e p : jsstring) :
  handleRegister email password confirmPassword = Submitted e p ->
  handleLogin email password = Submitted e p.
Proof.
  unfold handleRegister, handleLogin. cbv zeta.
  destruct (Str.isEmpty (Str.trim email)), (Str.isEmpty (Str.trim password)),
    (Str.isEmpty (Str.trim confirmPassword)); cbn [orb]; try discriminate.
  destruct (test emailRegex (Str.trim email)); cbn [negb]; try discriminate.
  destruct (List.length (Str.trim password) <? 6)%nat; try discriminate.
  destruct (Str.eqb (Str.trim password) (Str.trim confirmPassword));
    cbn [negb]; [exact (fun H => H) | discriminate].
Qed.

Lemma register_implies_login_witness :
  handleRegister sample_email sample_password sample_password
  = Submitted sample_email sample_password
  /\ handleLogin sample_email sample_password
     = Submitted sample_email sample_password.
Proof.
  assert (H : handleRegister sample_email sample_password sample_password
              = Submitted sample_email sample_password)
    by (vm_compute; reflexivity).
  split; [exact H|].
  apply (register_implies_login sample_email sample_password sample_password _ _ H).
Defined.

(** X18. A password made only of white space counts as missing,
    however long it is: both handlers stop with their missing-field
    message, never with the one about the length, and send nothing. *)
Theorem blank_password_is_missing (email password confirmPassword : jsstring) :
  forallb Str.isWhiteSpace password = true ->
  handleLogin email password = Rejected ErrEnterBoth
  /\ handleRegister email password confirmPassword = Rejected ErrFillAll.
Proof.
  intros H. unfold handleLogin, handleRegister. cbv zeta.
  rewrite (trim_blank password H). cbn [Str.isEmpty].
  rewrite !orb_true_r. cbn [orb]. split; reflexivity.
Qed.

Lemma blank_password_is_missing_witness :
  forallb Str.isWhiteSpace [32; 32; 32; 32; 32; 32; 9; 160]%N = true
  /\ handleLogin sample_email [32; 32; 32; 32; 32; 32; 9; 160]%N
     = Rejected ErrEnterBoth.
Proof.
  assert (H : forallb Str.isWhiteSpace [32; 32; 32; 32; 32; 32; 9; 160]%N = true)
    by reflexivity.
  split; [exact H|].
  apply (blank_password_is_missing sample_email _ [] H).
Defined.

(** X19. White space around the fields never changes the outcome of
    either handler: trimming the fields beforehand gives the same
    message or the same credentials. *)
Theorem handlers_ignore_outer_space (email password confirmPassword : jsstring) :
  handleLogin (Str.trim email) (Str.trim password) = handleLogin email password
  /\ handleRegister (Str.trim email) (Str.trim password) (Str.trim confirmPassword)
     = handleRegister email password confirmPassword.
Proof.
  unfold handleLogin, handleRegister. rewrite !trim_idempotent.
  split; reflexivity.
Qed.
